(** * The naive announcement tracker of [src/test/fuzz/txrequest.cpp]

    The fuzz harness of the transaction request tracker keeps, next to the
    real tracker, a dense table of announcements, one per (txid, peer)
    combination, and recomputes on every query which peer is selected for a
    txid.  This file embeds that reference implementation (class [Tester])
    and proves the properties of the scheduling contract on it.

    Conventions of the embedding.
    - [int] indices (peers, txids) are [nat]; the table
      [m_announcements[MAX_TXIDS][MAX_PEERS]] is a list of rows, one row per
      txid, each row a list indexed by peer.  The driver [test_one_input]
      reduces every index modulo [MAX_PEERS] / [MAX_TXIDS], so the calls the
      harness can receive are in range; an access out of range (undefined in
      C++) reads as an absent announcement and writes nothing.  A second
      embedding of the members, in which such an access fails, is shown to
      agree with this one on every reachable state.
    - [uint64_t] values are [Z] with the wrap-around of [++] written out.
    - [std::chrono::microseconds] values are [Z]; the overflow of a signed
      64-bit count of microseconds (undefined in C++) is not modelled.
    - [m_tracker], the tracker under test, is not part of this file; of it
      only [ComputePriority] is used by the naive structure, and it is a
      parameter of the development, like the table [TXIDS] of hashes.

    The driver of the harness ([Initializer], [test_one_input]) and
    [CheckAuxProofOfWork] of [src/pow/auxpow.cpp] are embedded as well,
    with the hasher, the version helpers and the proof-of-work check as
    parameters. *)

From stdpp Require Import base decidable option list numbers sorting.
From Stdlib Require Import ZArith Lia.
From Stdlib.Strings Require Byte.

Local Open Scope Z_scope.

(** ** Data model *)

Definition MAX_TXIDS : nat := 16.
Definition MAX_PEERS : nat := 16.

(** States for txid/peer combinations in the naive data structure. *)
Inductive State : Set :=
  | NOTHING
  | CANDIDATE
  | REQUESTED
  | COMPLETED.

#[global] Instance State_eq_dec : EqDecision State.
Proof. solve_decision. Defined.

(** Information about a txid/peer combination. *)
Record Announcement : Set := mkAnnouncement {
  m_time : Z;
  m_sequence : Z;
  m_state : State;
  m_preferred : bool;
  m_priority : Z
}.

#[global] Instance Announcement_eq_dec : EqDecision Announcement.
Proof. solve_decision. Defined.

(** The tester object, without [m_tracker]. [m_events] is the min-heap of
    future events, kept as an ascending list: [top] is its head. *)
Record Tester : Set := mkTester {
  m_current_sequence : Z;
  m_events : list Z;
  m_announcements : list (list Announcement);
  m_now : Z
}.

(** A table cell as [Tester tester;] leaves it: [m_state] is [NOTHING] by
    its member initialiser; the other members are indeterminate and read as
    zero here. *)
Definition no_announcement : Announcement :=
  mkAnnouncement 0 0 NOTHING false 0.

Definition initial : Tester :=
  mkTester 0 [] (replicate MAX_TXIDS (replicate MAX_PEERS no_announcement))
           244466666.

(** Assignments to single members. *)
Definition set_state (st : State) (ann : Announcement) : Announcement :=
  mkAnnouncement (m_time ann) (m_sequence ann) st (m_preferred ann)
                 (m_priority ann).

Definition set_time (t : Z) (ann : Announcement) : Announcement :=
  mkAnnouncement t (m_sequence ann) (m_state ann) (m_preferred ann)
                 (m_priority ann).

Definition set_announcements (tbl : list (list Announcement)) (t : Tester)
  : Tester :=
  mkTester (m_current_sequence t) (m_events t) tbl (m_now t).

Definition set_events (ev : list Z) (t : Tester) : Tester :=
  mkTester (m_current_sequence t) ev (m_announcements t) (m_now t).

Definition set_now (now : Z) (t : Tester) : Tester :=
  mkTester (m_current_sequence t) (m_events t) (m_announcements t) now.

(** [m_announcements[txid]] and [m_announcements[txid][peer]]. *)
Definition row_at (tbl : list (list Announcement)) (txid : nat)
  : list Announcement :=
  default [] (tbl !! txid).

Definition cell (row : list Announcement) (peer : nat) : Announcement :=
  default no_announcement (row !! peer).

Definition ann_at (t : Tester) (txid peer : nat) : Announcement :=
  cell (row_at (m_announcements t) txid) peer.

(** Apply [f] to row [txid] of the table. *)
Definition with_row (txid : nat) (f : list Announcement -> list Announcement)
    (t : Tester) : Tester :=
  set_announcements (alter f txid (m_announcements t)) t.

(** [m_events.push], [m_events.top] is the head, [m_events.pop] the tail. *)
Fixpoint events_push (x : Z) (ev : list Z) : list Z :=
  match ev with
  | [] => [x]
  | y :: rest => if bool_decide (x <= y) then x :: ev
                 else y :: events_push x rest
  end.

(** [while (!m_events.empty() && m_events.top() <= m_now) m_events.pop();] *)
Fixpoint events_drop_past (now : Z) (ev : list Z) : list Z :=
  match ev with
  | [] => []
  | y :: rest => if bool_decide (y <= now) then events_drop_past now rest
                 else ev
  end.

(** ** Private members of [Tester] *)

(** First loop of [Cleanup]: [None] is the early [return] on an
    announcement that is neither [NOTHING] nor [COMPLETED]; otherwise the
    final value of [all_nothing]. *)
Fixpoint Cleanup_scan (anns : list Announcement) (all_nothing : bool)
  : option bool :=
  match anns with
  | [] => Some all_nothing
  | ann :: rest =>
      if bool_decide (m_state ann ≠ NOTHING) then
        if bool_decide (m_state ann ≠ COMPLETED) then None
        else Cleanup_scan rest false
      else Cleanup_scan rest all_nothing
  end.

(** [Cleanup] on the row of its txid: delete txids whose only announcements
    are [COMPLETED]. *)
Definition Cleanup_row (anns : list Announcement) : list Announcement :=
  match Cleanup_scan anns true with
  | None => anns
  | Some true => anns
  | Some false => set_state NOTHING <$> anns
  end.

Definition Cleanup (txid : nat) (t : Tester) : Tester :=
  with_row txid Cleanup_row t.

(** The loop of [GetSelected] from peer [peer] on, with the current values
    of [ret] and [ret_priority]. *)
Fixpoint GetSelected_loop (now : Z) (anns : list Announcement) (peer : nat)
    (ret : Z) (ret_priority : Z) : Z :=
  match anns with
  | [] => ret
  | ann :: rest =>
      if bool_decide (m_state ann = REQUESTED) then -1
      else if bool_decide (m_state ann = CANDIDATE)
              && bool_decide (m_time ann <= now) then
        if bool_decide (ret = -1) || bool_decide (m_priority ann > ret_priority)
        then GetSelected_loop now rest (S peer) (Z.of_nat peer) (m_priority ann)
        else GetSelected_loop now rest (S peer) ret ret_priority
      else GetSelected_loop now rest (S peer) ret ret_priority
  end.

(** Find the current best peer to request from for a txid (or -1 if none). *)
Definition GetSelected_row (now : Z) (anns : list Announcement) : Z :=
  GetSelected_loop now anns 0 (-1) 0.

Definition GetSelected (txhash : nat) (t : Tester) : Z :=
  GetSelected_row (m_now t) (row_at (m_announcements t) txhash).

(** ** The collaborators of the naive structure

    [TXIDS] is the table of the randomly generated txids (SHA256 of the
    index, filled by [Initializer]); [ComputePriority] is the priority
    oracle of the tracker under test. Neither is defined in the harness:
    both are parameters, an interface the properties are stated over. *)
Class TrackerEnv : Type := mkTrackerEnv {
  TXIDS : nat -> Z;
  ComputePriority : Z -> nat -> bool -> Z
}.

(** ** Public members of [Tester] *)

Definition Now (t : Tester) : Z := m_now t.

Definition AdvanceTime (offset : Z) (t : Tester) : Tester :=
  let now := m_now t + offset in
  set_events (events_drop_past now (m_events t)) (set_now now t).

Definition AdvanceToEvent (t : Tester) : Tester :=
  match events_drop_past (m_now t) (m_events t) with
  | [] => set_events [] t
  | top :: rest => set_events rest (set_now top t)
  end.

(** One iteration of the loop of [DisconnectedPeer]. *)
Definition DisconnectedPeer_row (peer : nat) (anns : list Announcement)
  : list Announcement :=
  if bool_decide (m_state (cell anns peer) ≠ NOTHING)
  then Cleanup_row (alter (set_state NOTHING) peer anns)
  else anns.

(** All announcements for that peer are wiped. *)
Definition DisconnectedPeer (peer : nat) (t : Tester) : Tester :=
  set_announcements (DisconnectedPeer_row peer <$> m_announcements t) t.

Definition ForgetTxId_row (anns : list Announcement) : list Announcement :=
  Cleanup_row (set_state NOTHING <$> anns).

(** All announcements for that txid are wiped. *)
Definition ForgetTxId (txid : nat) (t : Tester) : Tester :=
  with_row txid ForgetTxId_row t.

(** If no announcement for the txid/peer combination exists already, create
    a new [CANDIDATE]; otherwise do nothing. [is_wtxid] is ignored by the
    naive structure. *)
Definition ReceivedInv `{TrackerEnv} (peer txid : nat)
    (is_wtxid preferred : bool) (reqtime : Z) (t : Tester) : Tester :=
  if bool_decide (m_state (ann_at t txid peer) = NOTHING) then
    let ann :=
      mkAnnouncement reqtime (m_current_sequence t) CANDIDATE preferred
                     (ComputePriority (TXIDS txid) peer preferred) in
    mkTester
      ((m_current_sequence t + 1) mod 2 ^ 64)
      (if bool_decide (reqtime > m_now t)
       then events_push reqtime (m_events t) else m_events t)
      (alter (fun anns => <[peer := ann]> anns) txid (m_announcements t))
      (m_now t)
  else t.

Definition expire_requested (ann : Announcement) : Announcement :=
  if bool_decide (m_state ann = REQUESTED) then set_state COMPLETED ann
  else ann.

Definition RequestedTx_row (peer : nat) (exptime : Z)
    (anns : list Announcement) : list Announcement :=
  alter (fun ann => set_time exptime (set_state REQUESTED ann)) peer
        (expire_requested <$> anns).

(** If a [CANDIDATE] announcement exists for peer/txid, convert it to
    [REQUESTED], and change any existing [REQUESTED] announcement for the
    same txid to [COMPLETED]. *)
Definition RequestedTx (peer txid : nat) (exptime : Z) (t : Tester)
  : Tester :=
  let t1 :=
    if bool_decide (m_state (ann_at t txid peer) = CANDIDATE)
    then with_row txid (RequestedTx_row peer exptime) t
    else t in
  if bool_decide (exptime > m_now t1)
  then set_events (events_push exptime (m_events t1)) t1
  else t1.

Definition ReceivedResponse_row (peer : nat) (anns : list Announcement)
  : list Announcement :=
  Cleanup_row (alter (set_state COMPLETED) peer anns).

(** Convert anything to [COMPLETED]. *)
Definition ReceivedResponse (peer txid : nat) (t : Tester) : Tester :=
  if bool_decide (m_state (ann_at t txid peer) ≠ NOTHING)
  then with_row txid (ReceivedResponse_row peer) t
  else t.

(** The inner loop of [GetRequestable] from peer [peer2] on: mark the first
    expired [REQUESTED] announcement as [COMPLETED] and [break]; the second
    component is the peer whose request expired. *)
Fixpoint expire_row (now : Z) (peer2 : nat) (anns : list Announcement)
  : list Announcement * option nat :=
  match anns with
  | [] => ([], None)
  | ann2 :: rest =>
      if bool_decide (m_state ann2 = REQUESTED)
         && bool_decide (m_time ann2 <= now)
      then (set_state COMPLETED ann2 :: rest, Some peer2)
      else let '(rest', e) := expire_row now (S peer2) rest in
           (ann2 :: rest', e)
  end.

(** What one iteration of the outer loop leaves in the row of its txid. *)
Definition GetRequestable_row (now : Z) (anns : list Announcement)
  : list Announcement :=
  Cleanup_row (expire_row now 0 anns).1.

(** The outer loop of [GetRequestable] from txid [txid] on, over the rows
    that remain: the rows as it leaves them, the tuples it appends to
    [result] and the pairs it appends to [expected_expired]. *)
Fixpoint GetRequestable_loop `{TrackerEnv} (now : Z) (peer txid : nat)
    (rows : list (list Announcement))
  : list (list Announcement) * list (Z * nat) * list (nat * Z) :=
  match rows with
  | [] => ([], [], [])
  | anns :: rest =>
      let '(anns1, e) := expire_row now 0 anns in
      let anns2 := Cleanup_row anns1 in
      let ann := cell anns2 peer in
      let '(rest', result, expired) :=
        GetRequestable_loop now peer (S txid) rest in
      (anns2 :: rest',
       (if bool_decide (m_state ann = CANDIDATE)
           && bool_decide (GetSelected_row now anns2 = Z.of_nat peer)
        then [(m_sequence ann, txid)] else []) ++ result,
       (match e with Some peer2 => [(peer2, TXIDS txid)] | None => [] end)
         ++ expired)
  end.

(** The order of [std::sort] on [std::tuple<uint64_t, int>] and on
    [std::pair<NodeId, TxId>]. *)
Definition result_le (x y : Z * nat) : Prop :=
  x.1 < y.1 \/ (x.1 = y.1 /\ (x.2 <= y.2)%nat).

Definition expired_le (x y : nat * Z) : Prop :=
  (x.1 < y.1)%nat \/ (x.1 = y.1 /\ x.2 <= y.2).

#[global] Instance result_le_dec : RelDecision result_le.
Proof. intros x y. unfold result_le. apply _. Defined.

#[global] Instance expired_le_dec : RelDecision expired_le.
Proof. intros x y. unfold expired_le. apply _. Defined.

(** [GetRequestable] on the naive structure: the new state, the sorted
    [result] (sequence number, txid) and the sorted [expected_expired];
    the harness asserts that the tracker returns the txids of [result] in
    this order and reports the pairs of [expected_expired]. *)
Definition GetRequestable `{TrackerEnv} (peer : nat) (t : Tester)
  : Tester * list (Z * nat) * list (nat * Z) :=
  let '(rows, result, expected_expired) :=
    GetRequestable_loop (m_now t) peer 0 (m_announcements t) in
  (set_announcements rows t,
   merge_sort result_le result,
   merge_sort expired_le expected_expired).

(** The txids the harness expects the tracker to return, in order. *)
Definition requestable `{TrackerEnv} (peer : nat) (t : Tester) : list nat :=
  (GetRequestable peer t).1.2.*2.

Definition expired `{TrackerEnv} (peer : nat) (t : Tester) : list (nat * Z) :=
  (GetRequestable peer t).2.

Definition after_GetRequestable `{TrackerEnv} (peer : nat) (t : Tester)
  : Tester :=
  (GetRequestable peer t).1.1.

(** The counters [Check] computes from the naive structure. *)
Definition Check_tracked (t : Tester) (peer : nat) : nat :=
  foldl (fun tracked txid =>
           (tracked + Nat.b2n (bool_decide
                                 (m_state (ann_at t txid peer) ≠ NOTHING)))%nat)
        0%nat (seq 0 MAX_TXIDS).

Definition Check_inflight (t : Tester) (peer : nat) : nat :=
  foldl (fun inflight txid =>
           (inflight + Nat.b2n (bool_decide
                                  (m_state (ann_at t txid peer) = REQUESTED)))%nat)
        0%nat (seq 0 MAX_TXIDS).

Definition Check_candidates (t : Tester) (peer : nat) : nat :=
  foldl (fun candidates txid =>
           (candidates + Nat.b2n (bool_decide
                                    (m_state (ann_at t txid peer) = CANDIDATE)))%nat)
        0%nat (seq 0 MAX_TXIDS).

Definition Check_total (t : Tester) : nat :=
  foldl (fun total peer => (total + Check_tracked t peer)%nat)
        0%nat (seq 0 MAX_PEERS).

(** ** Calls and reachable states

    The instructions [test_one_input] decodes; it reduces every peer modulo
    [MAX_PEERS] and every txid modulo [MAX_TXIDS]. *)
Inductive Call : Set :=
  | CallAdvanceToEvent
  | CallAdvanceTime (offset : Z)
  | CallGetRequestable (peer : nat)
  | CallDisconnectedPeer (peer : nat)
  | CallForgetTxId (txid : nat)
  | CallReceivedInv (peer txid : nat) (is_wtxid preferred : bool) (reqtime : Z)
  | CallRequestedTx (peer txid : nat) (exptime : Z)
  | CallReceivedResponse (peer txid : nat).

Definition in_range (c : Call) : Prop :=
  match c with
  | CallAdvanceToEvent | CallAdvanceTime _ => True
  | CallGetRequestable peer | CallDisconnectedPeer peer =>
      (peer < MAX_PEERS)%nat
  | CallForgetTxId txid => (txid < MAX_TXIDS)%nat
  | CallReceivedInv peer txid _ _ _
  | CallRequestedTx peer txid _
  | CallReceivedResponse peer txid =>
      (peer < MAX_PEERS)%nat /\ (txid < MAX_TXIDS)%nat
  end.

Definition step `{TrackerEnv} (c : Call) (t : Tester) : Tester :=
  match c with
  | CallAdvanceToEvent => AdvanceToEvent t
  | CallAdvanceTime offset => AdvanceTime offset t
  | CallGetRequestable peer => after_GetRequestable peer t
  | CallDisconnectedPeer peer => DisconnectedPeer peer t
  | CallForgetTxId txid => ForgetTxId txid t
  | CallReceivedInv peer txid is_wtxid preferred reqtime =>
      ReceivedInv peer txid is_wtxid preferred reqtime t
  | CallRequestedTx peer txid exptime => RequestedTx peer txid exptime t
  | CallReceivedResponse peer txid => ReceivedResponse peer txid t
  end.

Definition run `{TrackerEnv} (calls : list Call) (t : Tester) : Tester :=
  foldl (fun t c => step c t) t calls.

(** The states of the tester between two instructions of a fuzz input. *)
Inductive reachable `{TrackerEnv} : Tester -> Prop :=
  | reachable_initial : reachable initial
  | reachable_step c t : reachable t -> in_range c -> reachable (step c t).

(** ** Scenarios

    The calls are ones the driver decodes: an immediate inv has the
    request time [std::chrono::microseconds::min()], a delayed inv and a
    request have [Now() + DELAYS[n]], where [DELAYS[n]] is [n] us for
    [n < 16] and [DELAYS[255 - n]] is [- DELAYS[n]]. *)
Definition microseconds_min : Z := -9223372036854775808.

(** A deterministic environment in the style of the tracker's oracle: the
    preferred flag is the top bit, below it a value that differs from peer
    to peer. *)
Definition demo_env : TrackerEnv :=
  mkTrackerEnv (fun txid => Z.of_nat txid)
               (fun _ peer preferred =>
                  Z.of_nat peer + (if preferred then 2 ^ 63 else 0)).

(** Peers 0 and 1 announce txid 0, both preferred and immediately
    requestable. *)
Definition two_candidates : Tester :=
  run (H := demo_env)
      [CallReceivedInv 0 0 false true microseconds_min;
       CallReceivedInv 1 0 false true microseconds_min]
      initial.

(** Peers 0, 1 and 2 announce txid 0. *)
Definition three_candidates : Tester :=
  run (H := demo_env) [CallReceivedInv 2 0 false true microseconds_min]
      two_candidates.

(** Peer 1 is asked for txid 0, with a request that expires in 5us. *)
Definition one_requested : Tester :=
  run (H := demo_env) [CallRequestedTx 1 0 244466671] two_candidates.

(** Peer 0 announces txid 0 with a delay of 5us, and 5us pass. *)
Definition delayed_then_ready : Tester :=
  run (H := demo_env)
      [CallReceivedInv 0 0 false true 244466671; CallAdvanceTime 5]
      initial.



(** ** Predicates on announcements, rows and testers *)

(** An announcement that is a candidate or an outstanding request. *)
Definition active (ann : Announcement) : Prop :=
  m_state ann = CANDIDATE \/ m_state ann = REQUESTED.

#[global] Instance active_dec ann : Decision (active ann).
Proof. unfold active. apply _. Defined.

(** A candidate [GetSelected] considers at time [now]. *)
Definition viable (now : Z) (ann : Announcement) : Prop :=
  m_state ann = CANDIDATE /\ m_time ann <= now.

#[global] Instance viable_dec now ann : Decision (viable now ann).
Proof. unfold viable. apply _. Defined.

(** [ann'] is [ann] after events that can only complete or erase it. *)
Definition fades (ann ann' : Announcement) : Prop :=
  m_time ann' = m_time ann /\ m_sequence ann' = m_sequence ann /\
  m_preferred ann' = m_preferred ann /\ m_priority ann' = m_priority ann /\
  (m_state ann' = m_state ann \/ m_state ann' = NOTHING \/
   (m_state ann' = COMPLETED /\ m_state ann <> NOTHING)).

Definition row_fades (anns anns' : list Announcement) : Prop :=
  length anns' = length anns /\
  forall peer, fades (cell anns peer) (cell anns' peer).

(** The invariants of a row of the table, for the txid it belongs to. *)
Definition single_requested (anns : list Announcement) : Prop :=
  forall p q, m_state (cell anns p) = REQUESTED ->
              m_state (cell anns q) = REQUESTED -> p = q.

Definition not_all_completed (anns : list Announcement) : Prop :=
  forall p, m_state (cell anns p) = COMPLETED ->
            exists q, active (cell anns q).

Definition priorities_cached `{TrackerEnv} (txid : nat)
    (anns : list Announcement) : Prop :=
  forall p, m_state (cell anns p) <> NOTHING ->
            m_priority (cell anns p)
            = ComputePriority (TXIDS txid) p (m_preferred (cell anns p)).

Definition row_inv `{TrackerEnv} (txid : nat) (anns : list Announcement)
  : Prop :=
  length anns = MAX_PEERS /\ single_requested anns /\
  not_all_completed anns /\ priorities_cached txid anns.

Definition tester_inv `{TrackerEnv} (t : Tester) : Prop :=
  length (m_announcements t) = MAX_TXIDS /\
  forall txid, (txid < MAX_TXIDS)%nat ->
               row_inv txid (row_at (m_announcements t) txid).

(** A request whose expiry time has passed. *)
Definition overdue (now : Z) (ann : Announcement) : Prop :=
  m_state ann = REQUESTED /\ m_time ann <= now.

#[global] Instance overdue_dec now ann : Decision (overdue now ann).
Proof. unfold overdue. apply _. Defined.

(** The announcement after the expiry step of [GetRequestable]. *)
Definition complete_overdue (now : Z) (ann : Announcement) : Announcement :=
  if decide (overdue now ann) then set_state COMPLETED ann else ann.

(** What the iteration for one txid appends to [result]. *)
Definition result_of_row (now : Z) (peer txid : nat)
    (anns : list Announcement) : list (Z * nat) :=
  let ann := cell (GetRequestable_row now anns) peer in
  if bool_decide (m_state ann = CANDIDATE)
     && bool_decide (GetSelected_row now (GetRequestable_row now anns)
                     = Z.of_nat peer)
  then [(m_sequence ann, txid)] else [].

(** What the iteration for one txid appends to [expected_expired]. *)
Definition expired_of_row `{TrackerEnv} (now : Z) (txid : nat) (anns : list Announcement)
  : list (nat * Z) :=
  match (expire_row now 0 anns).2 with
  | Some peer2 => [(peer2, TXIDS txid)]
  | None => []
  end.

(** The oracle orders the announcements of a txid totally: two peers never
    get the same priority for it. *)
Definition priorities_distinct `{TrackerEnv} : Prop :=
  forall txid p q b c,
    (txid < MAX_TXIDS)%nat -> (p < MAX_PEERS)%nat -> (q < MAX_PEERS)%nat ->
    ComputePriority (TXIDS txid) p b = ComputePriority (TXIDS txid) q c ->
    p = q.

(** Modelled from the spec: the accessors [Count], [CountInFlight],
    [CountCandidates] and [Size] belong to the tracker under test, whose
    implementation is not part of the harness. The harness is the
    normative statement of them: every call is mirrored to both
    implementations and all counters must match on every step, which
    [Check] asserts against the counters it computes from the naive
    structure. *)
Definition Count (t : Tester) (peer : nat) : nat := Check_tracked t peer.

(** Modelled from the spec: see [Count]. *)
Definition CountInFlight (t : Tester) (peer : nat) : nat :=
  Check_inflight t peer.

(** Modelled from the spec: see [Count]. *)
Definition CountCandidates (t : Tester) (peer : nat) : nat :=
  Check_candidates t peer.

(** Modelled from the spec: see [Count]. *)
Definition Size (t : Tester) : nat := Check_total t.

(** The announcements of a peer, one per txid, and how many of them
    satisfy a decidable property. *)
Definition announcements_of (t : Tester) (peer : nat) : list Announcement :=
  (fun txid => ann_at t txid peer) <$> seq 0 MAX_TXIDS.

Definition count_where (P : Announcement -> Prop)
    `{forall ann, Decision (P ann)} (anns : list Announcement) : nat :=
  length (filter P anns).

(** ** Sequence numbers *)

(** [ann'] is no new announcement: if it exists, [ann] existed and had the
    same sequence number. *)
Definition keeps_sequence (ann ann' : Announcement) : Prop :=
  m_state ann' <> NOTHING ->
  m_state ann <> NOTHING /\ m_sequence ann' = m_sequence ann.

(** The sequence numbers of the existing announcements are below the
    counter and pairwise distinct. *)
Definition sequences_fresh (t : Tester) : Prop :=
  0 <= m_current_sequence t /\
  (forall txid p, m_state (ann_at t txid p) <> NOTHING ->
                  0 <= m_sequence (ann_at t txid p) < m_current_sequence t) /\
  (forall txid p txid' p',
     m_state (ann_at t txid p) <> NOTHING ->
     m_state (ann_at t txid' p') <> NOTHING ->
     m_sequence (ann_at t txid p) = m_sequence (ann_at t txid' p') ->
     txid = txid' /\ p = p').

(** ** The driver: [Initializer] and [test_one_input] *)

(** [CSipHasher(0, 0).Write(i).Finalize()], a 64-bit value; the hasher is
    not defined in the harness. *)
Class SipHasher : Type := mkSipHasher {
  Finalize_Write : Z -> Z;
  Finalize_Write_range : forall i, 0 <= Finalize_Write i < 2 ^ 64
}.

(** [int diff_bits = ((i - 10) * 2) / 9;] *)
Definition diff_bits (i : Z) : Z := Z.quot ((i - 10) * 2) 9.

(** [uint64_t diff = 1 + (CSipHasher(0, 0).Write(i).Finalize()
    >> (64 - diff_bits));] *)
Definition delay_diff `{SipHasher} (i : Z) : Z :=
  (1 + Z.shiftr (Finalize_Write i) (64 - diff_bits i)) mod 2 ^ 64.

(** [DELAYS[i]] as the first two loops of [Initializer] fill it, for
    [i < 128]: [i] microseconds for [i < 16], then the previous delay
    plus [diff]. *)
Fixpoint DELAYS_forward `{SipHasher} (i : nat) : Z :=
  match i with
  | O => 0
  | S j => if bool_decide (i < 16)%nat then Z.of_nat i
           else DELAYS_forward j + delay_diff (Z.of_nat i)
  end.

(** [DELAYS[i]], for [i < 256]: the third loop sets [DELAYS[i]] to
    [- DELAYS[255 - i]] for [i >= 128]. *)
Definition DELAYS `{SipHasher} (i : nat) : Z :=
  if bool_decide (i < 128)%nat then DELAYS_forward i
  else - DELAYS_forward (255 - i).

(** [it == buffer.end() ? 0 : *(it++)] *)
Definition next_byte (it : list Byte.byte) : nat * list Byte.byte :=
  match it with
  | [] => (0%nat, [])
  | b :: rest => (Byte.to_nat b, rest)
  end.

(** One [case] of the [switch] of [test_one_input]: the call it makes on
    the tester, whose time is [now], and the rest of the buffer. [None]
    is the [default] case, [assert(false)]. *)
Definition decode_instruction `{SipHasher} (cmd : nat)
    (it : list Byte.byte) (now : Z) : option Call * list Byte.byte :=
  match cmd with
  | 0%nat => (Some CallAdvanceToEvent, it)
  | 1%nat =>
      let '(delaynum, it) := next_byte it in
      (Some (CallAdvanceTime (DELAYS delaynum)), it)
  | 2%nat =>
      let '(b, it) := next_byte it in
      (Some (CallGetRequestable (b mod MAX_PEERS)), it)
  | 3%nat =>
      let '(b, it) := next_byte it in
      (Some (CallDisconnectedPeer (b mod MAX_PEERS)), it)
  | 4%nat =>
      let '(txidnum, it) := next_byte it in
      (Some (CallForgetTxId (txidnum mod MAX_TXIDS)), it)
  | 5%nat | 6%nat =>
      let '(b, it) := next_byte it in
      let '(txidnum, it) := next_byte it in
      (Some (CallReceivedInv (b mod MAX_PEERS) (txidnum mod MAX_TXIDS)
               (Nat.odd (txidnum / MAX_TXIDS)) (Nat.odd cmd)
               microseconds_min), it)
  | 7%nat | 8%nat =>
      let '(b, it) := next_byte it in
      let '(txidnum, it) := next_byte it in
      let '(delaynum, it) := next_byte it in
      (Some (CallReceivedInv (b mod MAX_PEERS) (txidnum mod MAX_TXIDS)
               (Nat.odd (txidnum / MAX_TXIDS)) (Nat.odd cmd)
               (now + DELAYS delaynum)), it)
  | 9%nat =>
      let '(b, it) := next_byte it in
      let '(txidnum, it) := next_byte it in
      let '(delaynum, it) := next_byte it in
      (Some (CallRequestedTx (b mod MAX_PEERS) (txidnum mod MAX_TXIDS)
               (now + DELAYS delaynum)), it)
  | 10%nat =>
      let '(b, it) := next_byte it in
      let '(txidnum, it) := next_byte it in
      (Some (CallReceivedResponse (b mod MAX_PEERS) (txidnum mod MAX_TXIDS)),
       it)
  | _ => (None, it)
  end.

(** How a run of the loop of [test_one_input] ends: with the tester it has
    built, in the [assert(false)] of the [default] case, or not within the
    iterations it was given. *)
Inductive Outcome : Type :=
  | Finished (tester : Tester)
  | AssertFailed
  | OutOfFuel.

(** The [while (it != buffer.end())] loop, with at most [fuel]
    iterations; every iteration consumes at least the command byte. *)
Fixpoint test_loop `{TrackerEnv} `{SipHasher} (fuel : nat)
    (it : list Byte.byte) (tester : Tester) : Outcome :=
  match it with
  | [] => Finished tester
  | b :: it =>
      match fuel with
      | O => OutOfFuel
      | S fuel =>
          let cmd := (Byte.to_nat b mod 11)%nat in
          match decode_instruction cmd it (Now tester) with
          | (Some c, it) => test_loop fuel it (step c tester)
          | (None, _) => AssertFailed
          end
      end
  end.

(** The loop of [test_one_input] on [buffer]: [Finished tester] with the
    tester on which [Check] is run at the end. *)
Definition test_one_input `{TrackerEnv} `{SipHasher}
    (buffer : list Byte.byte) : Outcome :=
  test_loop (length buffer) buffer initial.

(** A hasher for the scenarios. *)
Program Definition demo_hasher : SipHasher :=
  mkSipHasher (fun i => (i * 11400714819323198485) mod 2 ^ 64) _.
Next Obligation. intros i. apply Z.mod_pos_bound. done. Qed.

(** An upper bound of [DELAYS[i]], [i < 128], whatever the hasher. *)
Fixpoint DELAYS_bound (i : nat) : Z :=
  match i with
  | O => 0
  | S j => if bool_decide (i < 16)%nat then Z.of_nat i
           else DELAYS_bound j + 2 ^ diff_bits (Z.of_nat i)
  end.

(** ** [CheckAuxProofOfWork] of [src/pow/auxpow.cpp]

    The version helpers, the proof-of-work check, the auxpow object and
    the consensus parameters are declared in headers that are not part of
    the sources: they are the parameters of this part. *)
Class AuxPowEnv : Type := mkAuxPowEnv {
  CAuxPow : Type;
  ConsensusParams : Type;
  enforceStrictAuxPowChainId : ConsensusParams -> bool;
  AUXPOW_CHAIN_ID : Z;
  VersionIsLegacy : Z -> bool;
  VersionChainId : Z -> Z;
  VersionHasAuxPow : Z -> bool;
  (** [CheckProofOfWork(hash, nBits, params)] *)
  CheckProofOfWork : Z -> Z -> ConsensusParams -> bool;
  (** [auxpow->CheckAuxBlockHash(hash, chain_id, params)] succeeded *)
  CheckAuxBlockHash : CAuxPow -> Z -> Z -> ConsensusParams -> bool;
  (** [auxpow->parentBlock.GetPowHash()] *)
  parentBlock_GetPowHash : CAuxPow -> Z
}.

(** What [CheckAuxProofOfWork] reads of a block header: its members
    [nVersion], [nBits] and [auxpow] (a pointer, [None] when null) and the
    values of [GetHash()] and [GetPowHash()]. *)
Record CBlockHeader `{AuxPowEnv} : Type := mkCBlockHeader {
  nVersion : Z;
  nBits : Z;
  auxpow : option CAuxPow;
  GetHash : Z;
  GetPowHash : Z
}.

(** The [return error(...)] statements, in the order of the source. *)
Inductive AuxPowError : Set :=
  | WrongChainId
  | MissingAuxPow
  | NonAuxPowFailed
  | UnexpectedAuxPow
  | AuxPowInvalid
  | AuxPowFailed.

(** The body of [CheckAuxProofOfWork]: [None] is [return true], [Some e]
    the [return error(...)] it takes. *)
Definition CheckAuxProofOfWork_error `{AuxPowEnv} (block : CBlockHeader)
    (params : ConsensusParams) : option AuxPowError :=
  if enforceStrictAuxPowChainId params
     && negb (VersionIsLegacy (nVersion block))
     && negb (bool_decide (VersionChainId (nVersion block) = AUXPOW_CHAIN_ID))
  then Some WrongChainId
  else
    match auxpow block with
    | None =>
        if VersionHasAuxPow (nVersion block) then Some MissingAuxPow
        else if negb (CheckProofOfWork (GetPowHash block) (nBits block) params)
        then Some NonAuxPowFailed
        else None
    | Some aux =>
        if negb (VersionHasAuxPow (nVersion block)) then Some UnexpectedAuxPow
        else if negb (CheckAuxBlockHash aux (GetHash block)
                        (VersionChainId (nVersion block)) params)
        then Some AuxPowInvalid
        else if negb (CheckProofOfWork (parentBlock_GetPowHash aux)
                        (nBits block) params)
        then Some AuxPowFailed
        else None
    end.

Definition CheckAuxProofOfWork `{AuxPowEnv} (block : CBlockHeader)
    (params : ConsensusParams) : bool :=
  bool_decide (CheckAuxProofOfWork_error block params = None).

(** Parameters for a scenario: versions with the chain id in the bits
    from 16 on and the auxpow flag in bit 8, a proof of work that
    compares the hash with [nBits]. *)
Definition demo_auxpow_env : AuxPowEnv :=
  mkAuxPowEnv Z bool (fun strict => strict) 98
    (fun v => bool_decide (v = 1 \/ v = 2))
    (fun v => Z.shiftr v 16)
    (fun v => Z.testbit v 8)
    (fun hash bits _ => bool_decide (hash <= bits))
    (fun aux hash chain _ => bool_decide (aux = hash + chain))
    (fun aux => aux - 1000).

(** ** The members of [Tester] with checked accesses

    The members of [Tester] once more, statement by statement, with every
    access [m_announcements[txid][peer]] and [TXIDS[txid]] checked against
    the bounds of the array, and every [m_events.top()] and
    [m_events.pop()] against the empty queue: [None] is an access out of
    bounds or to an empty queue, undefined in C++ and the only way an
    operation of the naive structure can fail. The loops run over the
    indices [0 .. MAX_PEERS - 1] and [0 .. MAX_TXIDS - 1], as in the
    source. *)

(** Reading [m_announcements[txid][peer]]. *)
Definition load (t : Tester) (txid peer : nat) : option Announcement :=
  anns ← m_announcements t !! txid; anns !! peer.

(** Assigning to members of [m_announcements[txid][peer]]. *)
Definition store (txid peer : nat) (f : Announcement -> Announcement)
    (t : Tester) : option Tester :=
  _ ← load t txid peer;
  Some (set_announcements (alter (alter f peer) txid (m_announcements t)) t).

(** Reading [TXIDS[txid]], an array of [MAX_TXIDS] hashes. *)
Definition TXIDS_at `{TrackerEnv} (txid : nat) : option Z :=
  if decide (txid < MAX_TXIDS)%nat then Some (TXIDS txid) else None.

(** [for (int i = 0; i < n; ++i) body(i);] over the indices it visits. *)
Fixpoint for_each (indices : list nat)
    (body : nat -> Tester -> option Tester) (t : Tester) : option Tester :=
  match indices with
  | [] => Some t
  | i :: rest => t ← body i t; for_each rest body t
  end.

(** [m_events.top()] and [m_events.pop()]. *)
Definition events_top (ev : list Z) : option Z := head ev.

Definition events_pop (ev : list Z) : option (list Z) :=
  match ev with
  | [] => None
  | _ :: rest => Some rest
  end.

(** [while (!m_events.empty() && m_events.top() <= m_now) m_events.pop();] *)
Fixpoint events_drop_past_checked (now : Z) (ev : list Z)
  : option (list Z) :=
  match ev with
  | [] => Some ev
  | _ :: rest =>
      top ← events_top ev;
      if bool_decide (top <= now)
      then _ ← events_pop ev; events_drop_past_checked now rest
      else Some ev
  end.

Definition AdvanceTime_checked (offset : Z) (t : Tester) : option Tester :=
  let now := m_now t + offset in
  ev ← events_drop_past_checked now (m_events t);
  Some (set_events ev (set_now now t)).

Definition AdvanceToEvent_checked (t : Tester) : option Tester :=
  ev ← events_drop_past_checked (m_now t) (m_events t);
  match ev with
  | [] => Some (set_events ev t)
  | _ :: _ =>
      top ← events_top ev;
      rest ← events_pop ev;
      Some (set_events rest (set_now top t))
  end.

(** First loop of [Cleanup]; the inner [None] is the early [return]. *)
Fixpoint Cleanup_scan_checked (txid : nat) (peers : list nat)
    (all_nothing : bool) (t : Tester) : option (option bool) :=
  match peers with
  | [] => Some (Some all_nothing)
  | peer :: peers =>
      ann ← load t txid peer;
      if bool_decide (m_state ann ≠ NOTHING) then
        if bool_decide (m_state ann ≠ COMPLETED) then Some None
        else Cleanup_scan_checked txid peers false t
      else Cleanup_scan_checked txid peers all_nothing t
  end.

Definition Cleanup_checked (txid : nat) (t : Tester) : option Tester :=
  r ← Cleanup_scan_checked txid (seq 0 MAX_PEERS) true t;
  match r with
  | None => Some t
  | Some true => Some t
  | Some false =>
      for_each (seq 0 MAX_PEERS)
               (fun peer => store txid peer (set_state NOTHING)) t
  end.

Fixpoint GetSelected_loop_checked (txhash : nat) (peers : list nat)
    (ret : Z) (ret_priority : Z) (t : Tester) : option Z :=
  match peers with
  | [] => Some ret
  | peer :: peers =>
      ann ← load t txhash peer;
      if bool_decide (m_state ann = REQUESTED) then Some (-1)
      else if bool_decide (m_state ann = CANDIDATE)
              && bool_decide (m_time ann <= m_now t) then
        if bool_decide (ret = -1) || bool_decide (m_priority ann > ret_priority)
        then GetSelected_loop_checked txhash peers (Z.of_nat peer)
                                      (m_priority ann) t
        else GetSelected_loop_checked txhash peers ret ret_priority t
      else GetSelected_loop_checked txhash peers ret ret_priority t
  end.

Definition GetSelected_checked (txhash : nat) (t : Tester) : option Z :=
  GetSelected_loop_checked txhash (seq 0 MAX_PEERS) (-1) 0 t.

Definition DisconnectedPeer_checked (peer : nat) (t : Tester)
  : option Tester :=
  for_each (seq 0 MAX_TXIDS)
    (fun txid t =>
       ann ← load t txid peer;
       if bool_decide (m_state ann ≠ NOTHING) then
         t ← store txid peer (set_state NOTHING) t;
         Cleanup_checked txid t
       else Some t)
    t.

Definition ForgetTxId_checked `{TrackerEnv} (txid : nat) (t : Tester)
  : option Tester :=
  t ← for_each (seq 0 MAX_PEERS)
               (fun peer => store txid peer (set_state NOTHING)) t;
  t ← Cleanup_checked txid t;
  _ ← TXIDS_at txid;
  Some t.

Definition ReceivedInv_checked `{TrackerEnv} (peer txid : nat)
    (is_wtxid preferred : bool) (reqtime : Z) (t : Tester) : option Tester :=
  ann ← load t txid peer;
  t ← (if bool_decide (m_state ann = NOTHING) then
         txhash ← TXIDS_at txid;
         t' ← store txid peer
                (fun _ => mkAnnouncement reqtime (m_current_sequence t)
                            CANDIDATE preferred
                            (ComputePriority txhash peer preferred)) t;
         Some (mkTester
                 ((m_current_sequence t + 1) mod 2 ^ 64)
                 (if bool_decide (reqtime > m_now t)
                  then events_push reqtime (m_events t) else m_events t)
                 (m_announcements t')
                 (m_now t))
       else Some t);
  _ ← TXIDS_at txid;
  Some t.

Definition RequestedTx_checked `{TrackerEnv} (peer txid : nat) (exptime : Z)
    (t : Tester) : option Tester :=
  ann ← load t txid peer;
  t ← (if bool_decide (m_state ann = CANDIDATE) then
         t ← for_each (seq 0 MAX_PEERS)
                (fun peer2 t =>
                   ann2 ← load t txid peer2;
                   if bool_decide (m_state ann2 = REQUESTED)
                   then store txid peer2 (set_state COMPLETED) t
                   else Some t)
                t;
         t ← store txid peer (set_state REQUESTED) t;
         store txid peer (set_time exptime) t
       else Some t);
  let t := if bool_decide (exptime > m_now t)
           then set_events (events_push exptime (m_events t)) t
           else t in
  _ ← TXIDS_at txid;
  Some t.

Definition ReceivedResponse_checked `{TrackerEnv} (peer txid : nat)
    (t : Tester) : option Tester :=
  ann ← load t txid peer;
  t ← (if bool_decide (m_state ann ≠ NOTHING) then
         t ← store txid peer (set_state COMPLETED) t;
         Cleanup_checked txid t
       else Some t);
  _ ← TXIDS_at txid;
  Some t.

(** The inner loop of [GetRequestable], with its [break]. *)
Fixpoint expire_checked `{TrackerEnv} (txid : nat) (peers : list nat)
    (t : Tester) : option (Tester * option nat) :=
  match peers with
  | [] => Some (t, None)
  | peer2 :: peers =>
      ann2 ← load t txid peer2;
      if bool_decide (m_state ann2 = REQUESTED)
         && bool_decide (m_time ann2 <= m_now t)
      then
        _ ← TXIDS_at txid;
        t ← store txid peer2 (set_state COMPLETED) t;
        Some (t, Some peer2)
      else expire_checked txid peers t
  end.

(** The outer loop of [GetRequestable] over the txids it visits, with the
    vectors [result] and [expected_expired] it appends to. *)
Fixpoint GetRequestable_loop_checked `{TrackerEnv} (peer : nat)
    (txids : list nat) (t : Tester) (result : list (Z * nat))
    (expected_expired : list (nat * Z))
  : option (Tester * list (Z * nat) * list (nat * Z)) :=
  match txids with
  | [] => Some (t, result, expected_expired)
  | txid :: txids =>
      '(t, e) ← expire_checked txid (seq 0 MAX_PEERS) t;
      let expected_expired :=
        expected_expired
        ++ match e with Some peer2 => [(peer2, TXIDS txid)] | None => [] end in
      t ← Cleanup_checked txid t;
      ann ← load t txid peer;
      result ← (if bool_decide (m_state ann = CANDIDATE) then
                  selected ← GetSelected_checked txid t;
                  if bool_decide (selected = Z.of_nat peer)
                  then Some (result ++ [(m_sequence ann, txid)])
                  else Some result
                else Some result);
      GetRequestable_loop_checked peer txids t result expected_expired
  end.

Definition GetRequestable_checked `{TrackerEnv} (peer : nat) (t : Tester)
  : option (Tester * list (Z * nat) * list (nat * Z)) :=
  '(t, result, expected_expired) ←
    GetRequestable_loop_checked peer (seq 0 MAX_TXIDS) t [] [];
  Some (t, merge_sort result_le result,
        merge_sort expired_le expected_expired).

(** One instruction of the driver on the checked tester. *)
Definition step_checked `{TrackerEnv} (c : Call) (t : Tester)
  : option Tester :=
  match c with
  | CallAdvanceToEvent => AdvanceToEvent_checked t
  | CallAdvanceTime offset => AdvanceTime_checked offset t
  | CallGetRequestable peer => fst ∘ fst <$> GetRequestable_checked peer t
  | CallDisconnectedPeer peer => DisconnectedPeer_checked peer t
  | CallForgetTxId txid => ForgetTxId_checked txid t
  | CallReceivedInv peer txid is_wtxid preferred reqtime =>
      ReceivedInv_checked peer txid is_wtxid preferred reqtime t
  | CallRequestedTx peer txid exptime => RequestedTx_checked peer txid exptime t
  | CallReceivedResponse peer txid => ReceivedResponse_checked peer txid t
  end.

(** The dimensions of [m_announcements[MAX_TXIDS][MAX_PEERS]]. *)
Definition table_dims (t : Tester) : Prop :=
  length (m_announcements t) = MAX_TXIDS /\
  Forall (fun anns => length anns = MAX_PEERS) (m_announcements t).

(** * Properties *)

(** ** Reading and writing cells *)

Lemma cell_lookup anns p ann : anns !! p = Some ann -> cell anns p = ann.
Proof. unfold cell. by intros ->. Qed.

Lemma cell_None anns p : anns !! p = None -> cell anns p = no_announcement.
Proof. unfold cell. by intros ->. Qed.

Lemma cell_exists anns p :
  m_state (cell anns p) <> NOTHING -> anns !! p = Some (cell anns p).
Proof. unfold cell. destruct (anns !! p); simpl; [done|]. by intros []. Qed.

Lemma cell_lt anns p :
  m_state (cell anns p) <> NOTHING -> (p < length anns)%nat.
Proof. intros Hs. eapply lookup_lt_Some, cell_exists, Hs. Qed.

Lemma cell_fmap f anns p :
  f no_announcement = no_announcement ->
  cell (f <$> anns) p = f (cell anns p).
Proof.
  intros Hf. unfold cell. rewrite list_lookup_fmap.
  by destruct (anns !! p).
Qed.

Lemma cell_alter_eq f anns p :
  (p < length anns)%nat -> cell (alter f p anns) p = f (cell anns p).
Proof.
  intros [ann Hp]%lookup_lt_is_Some. unfold cell.
  by rewrite list_lookup_alter_eq, Hp.
Qed.

Lemma cell_alter_ne f anns p q :
  p <> q -> cell (alter f p anns) q = cell anns q.
Proof. intros Hne. unfold cell. by rewrite list_lookup_alter_ne. Qed.

Lemma cell_insert_eq anns p ann :
  (p < length anns)%nat -> cell (<[p:=ann]> anns) p = ann.
Proof. intros Hp. unfold cell. by rewrite list_lookup_insert_eq. Qed.

Lemma cell_insert_ne anns p q ann :
  p <> q -> cell (<[p:=ann]> anns) q = cell anns q.
Proof. intros Hne. unfold cell. by rewrite list_lookup_insert_ne. Qed.

Lemma cell_cons_0 ann anns : cell (ann :: anns) 0 = ann.
Proof. done. Qed.

Lemma cell_cons_S ann anns p : cell (ann :: anns) (S p) = cell anns p.
Proof. done. Qed.

Ltac cell_simpl := rewrite ?cell_cons_0, ?cell_cons_S in *.

Lemma row_at_lookup tbl txid anns :
  tbl !! txid = Some anns -> row_at tbl txid = anns.
Proof. unfold row_at. by intros ->. Qed.

Lemma row_at_alter_eq f tbl txid :
  (txid < length tbl)%nat ->
  row_at (alter f txid tbl) txid = f (row_at tbl txid).
Proof.
  intros [anns Hx]%lookup_lt_is_Some. unfold row_at.
  by rewrite list_lookup_alter_eq, Hx.
Qed.

Lemma row_at_alter_ne f tbl txid txid' :
  txid <> txid' -> row_at (alter f txid tbl) txid' = row_at tbl txid'.
Proof. intros Hne. unfold row_at. by rewrite list_lookup_alter_ne. Qed.

Lemma row_at_fmap f tbl txid :
  f [] = [] -> row_at (f <$> tbl) txid = f (row_at tbl txid).
Proof.
  intros Hf. unfold row_at. rewrite list_lookup_fmap.
  by destruct (tbl !! txid).
Qed.

Lemma row_at_nonempty tbl txid :
  row_at tbl txid <> [] -> (txid < length tbl)%nat.
Proof.
  unfold row_at. intros Hne. apply lookup_lt_is_Some.
  destruct (tbl !! txid); [eauto | done].
Qed.

Lemma ann_at_exists t txid peer :
  m_state (ann_at t txid peer) <> NOTHING ->
  (txid < length (m_announcements t))%nat /\
  (peer < length (row_at (m_announcements t) txid))%nat.
Proof.
  intros Hs. pose proof (cell_lt _ _ Hs) as Hp. split; [|done].
  apply row_at_nonempty. intros Hnil. rewrite Hnil in Hp. simpl in Hp. lia.
Qed.

Lemma active_exists_iff anns :
  Exists active anns <-> exists q, active (cell anns q).
Proof.
  rewrite Exists_exists. split.
  - intros (ann & [q Hq]%list_elem_of_lookup & Ha).
    exists q. by rewrite (cell_lookup _ _ _ Hq).
  - intros [q Ha]. exists (cell anns q). split; [|done].
    apply list_elem_of_lookup. exists q. apply cell_exists.
    destruct Ha as [Ha|Ha]; rewrite Ha; done.
Qed.

(** ** [Cleanup] *)

Lemma set_state_same ann : set_state (m_state ann) ann = ann.
Proof. by destruct ann. Qed.

Lemma set_state_NOTHING_id ann :
  m_state ann = NOTHING -> set_state NOTHING ann = ann.
Proof. intros <-. apply set_state_same. Qed.

Lemma Cleanup_scan_active anns b :
  Exists active anns -> Cleanup_scan anns b = None.
Proof.
  intros Hex. revert b.
  induction Hex as [ann rest [Ha|Ha] | ann rest _ IH]; intros b; simpl.
  - by rewrite Ha.
  - by rewrite Ha.
  - repeat case_bool_decide; auto.
Qed.

Lemma Cleanup_scan_inactive anns b :
  Forall (fun ann => ~ active ann) anns ->
  Cleanup_scan anns b
  = Some (b && forallb (fun ann => bool_decide (m_state ann = NOTHING)) anns).
Proof.
  intros Hall. revert b.
  induction Hall as [| ann rest Ha _ IH]; intros b; simpl.
  - by rewrite andb_true_r.
  - unfold active in Ha. rewrite IH.
    destruct (m_state ann) eqn:Hs; simpl;
      rewrite ?andb_false_r; try done; tauto.
Qed.

Lemma fmap_set_state_NOTHING_id anns :
  forallb (fun ann => bool_decide (m_state ann = NOTHING)) anns = true ->
  set_state NOTHING <$> anns = anns.
Proof.
  induction anns as [| ann rest IH]; [done|]. cbn [forallb].
  intros [Ha Hrest]%andb_true_iff. apply bool_decide_eq_true in Ha.
  rewrite fmap_cons. by rewrite set_state_NOTHING_id, IH.
Qed.

Lemma Cleanup_row_active anns :
  (exists q, active (cell anns q)) -> Cleanup_row anns = anns.
Proof.
  intros Hex%active_exists_iff. unfold Cleanup_row.
  by rewrite Cleanup_scan_active.
Qed.

Lemma Cleanup_row_inactive anns :
  (forall q, ~ active (cell anns q)) ->
  Cleanup_row anns = set_state NOTHING <$> anns.
Proof.
  intros Hno. unfold Cleanup_row. rewrite Cleanup_scan_inactive.
  - simpl. destruct (forallb _ anns) eqn:Hall; [|done].
    by rewrite fmap_set_state_NOTHING_id.
  - apply Forall_forall. intros ann [q Hq]%list_elem_of_lookup Ha.
    apply (Hno q). by rewrite (cell_lookup _ _ _ Hq).
Qed.

Lemma Cleanup_row_cases anns :
  ((exists q, active (cell anns q)) /\ Cleanup_row anns = anns) \/
  ((forall q, ~ active (cell anns q)) /\
   Cleanup_row anns = set_state NOTHING <$> anns).
Proof.
  destruct (decide (Exists active anns)) as [Hex|Hno].
  - left. apply active_exists_iff in Hex. eauto using Cleanup_row_active.
  - right. assert (forall q, ~ active (cell anns q)) as Hall.
    { intros q Ha. apply Hno, active_exists_iff. eauto. }
    eauto using Cleanup_row_inactive.
Qed.

Lemma Cleanup_row_nil : Cleanup_row [] = [].
Proof. done. Qed.

Lemma length_Cleanup_row anns : length (Cleanup_row anns) = length anns.
Proof.
  destruct (Cleanup_row_cases anns) as [[_ ->]|[_ ->]];
    [done | by rewrite length_fmap].
Qed.

Lemma Cleanup_row_not_all_completed anns :
  not_all_completed (Cleanup_row anns).
Proof.
  intros p Hp.
  destruct (Cleanup_row_cases anns) as [[Hex Heq]|[_ Heq]]; rewrite Heq in *.
  - done.
  - by rewrite cell_fmap in Hp.
Qed.

(** ** Fading *)

Lemma fades_refl ann : fades ann ann.
Proof. unfold fades. tauto. Qed.

Lemma fades_trans a b c : fades a b -> fades b c -> fades a c.
Proof.
  unfold fades. intros (?&?&?&?&Hab) (?&?&?&?&Hbc).
  repeat split; try congruence.
  destruct Hab as [Hab|[Hab|[Hab ?]]], Hbc as [Hbc|[Hbc|[Hbc ?]]];
    rewrite ?Hab in *; auto; congruence.
Qed.

Lemma fades_set_NOTHING ann : fades ann (set_state NOTHING ann).
Proof. unfold fades. simpl. tauto. Qed.

Lemma fades_set_COMPLETED ann :
  m_state ann <> NOTHING -> fades ann (set_state COMPLETED ann).
Proof. unfold fades. simpl. tauto. Qed.

Lemma row_fades_refl anns : row_fades anns anns.
Proof. split; [done|]. intros p. apply fades_refl. Qed.

Lemma row_fades_trans a b c : row_fades a b -> row_fades b c -> row_fades a c.
Proof.
  intros [Hl1 H1] [Hl2 H2]. split; [congruence|].
  intros p. eapply fades_trans; eauto.
Qed.

Lemma row_fades_fmap f anns :
  f no_announcement = no_announcement ->
  (forall ann, fades ann (f ann)) -> row_fades anns (f <$> anns).
Proof.
  intros Hf Hfades. split; [by rewrite length_fmap|].
  intros p. by rewrite cell_fmap.
Qed.

Lemma row_fades_alter f anns peer :
  fades (cell anns peer) (f (cell anns peer)) ->
  row_fades anns (alter f peer anns).
Proof.
  intros Hf. split; [by rewrite length_alter|]. intros p.
  destruct (decide (peer = p)) as [->|Hne].
  - destruct (decide (p < length anns)%nat) as [Hlt|Hge].
    + by rewrite cell_alter_eq.
    + unfold cell. rewrite list_lookup_alter_eq.
      rewrite (lookup_ge_None_2 anns p) by lia. apply fades_refl.
  - rewrite cell_alter_ne by done. apply fades_refl.
Qed.

Lemma row_fades_Cleanup anns : row_fades anns (Cleanup_row anns).
Proof.
  destruct (Cleanup_row_cases anns) as [[_ ->]|[_ ->]].
  - apply row_fades_refl.
  - apply row_fades_fmap; [done|]. apply fades_set_NOTHING.
Qed.

Lemma row_fades_single_requested anns anns' :
  row_fades anns anns' -> single_requested anns -> single_requested anns'.
Proof.
  intros [_ Hf] Hs p q Hp Hq. apply Hs.
  - destruct (Hf p) as (_&_&_&_&[Heq|[Heq|[Heq _]]]); congruence.
  - destruct (Hf q) as (_&_&_&_&[Heq|[Heq|[Heq _]]]); congruence.
Qed.

Lemma row_fades_priorities_cached `{TrackerEnv} txid anns anns' :
  row_fades anns anns' -> priorities_cached txid anns ->
  priorities_cached txid anns'.
Proof.
  intros [_ Hf] Hc p Hp.
  destruct (Hf p) as (_&_&Hpref&Hprio&Hst). rewrite Hprio, Hpref.
  apply Hc. destruct Hst as [Heq|[Heq|[_ Hne]]]; congruence.
Qed.

(** A row that went through events that only complete or erase, and then
    through [Cleanup], satisfies the invariants again. *)
Lemma row_inv_fades_Cleanup `{TrackerEnv} txid anns anns' :
  row_inv txid anns -> row_fades anns anns' ->
  row_inv txid (Cleanup_row anns').
Proof.
  intros (Hlen & Hsingle & _ & Hprio) Hfades.
  assert (row_fades anns (Cleanup_row anns')) as Hall
    by eauto using row_fades_trans, row_fades_Cleanup.
  split; [destruct Hall; congruence|].
  eauto using row_fades_single_requested, Cleanup_row_not_all_completed,
    row_fades_priorities_cached.
Qed.

(** ** Expiry of requests *)

(** [expire_row] completes the first overdue request and reports its
    peer, or changes nothing. *)
Lemma expire_row_spec now anns : forall peer2,
  match (expire_row now peer2 anns).2 with
  | Some p =>
      exists i, p = (peer2 + i)%nat /\ overdue now (cell anns i) /\
                (forall j, (j < i)%nat -> ~ overdue now (cell anns j)) /\
                (expire_row now peer2 anns).1
                = alter (set_state COMPLETED) i anns
  | None =>
      (forall j, ~ overdue now (cell anns j)) /\
      (expire_row now peer2 anns).1 = anns
  end.
Proof.
  induction anns as [| ann rest IH]; intros peer2; simpl.
  - split; [|done]. intros j [Hj _]. done.
  - destruct (bool_decide (m_state ann = REQUESTED)
              && bool_decide (m_time ann <= now)) eqn:Hov; simpl.
    + apply andb_true_iff in Hov as [Hs%bool_decide_eq_true
                                     Ht%bool_decide_eq_true].
      exists 0%nat. split; [lia|]. split; [done|].
      split; [intros j; lia | done].
    + assert (~ overdue now ann) as Hnot.
      { intros [Hs Ht]. rewrite !bool_decide_eq_true_2 in Hov by done. done. }
      specialize (IH (S peer2)).
      destruct (expire_row now (S peer2) rest) as [rest' e]; simpl in *.
      destruct e as [p|].
      * destruct IH as (i & -> & Hi & Hbefore & ->).
        exists (S i). split; [lia|]. split; [done|]. split; [|done].
        intros [|j] Hj; [done|]. apply Hbefore. lia.
      * destruct IH as [Hnone ->]. split; [|done].
        intros [|j]; [done | apply Hnone].
Qed.

Lemma expire_row_fades now peer2 anns :
  row_fades anns (expire_row now peer2 anns).1.
Proof.
  pose proof (expire_row_spec now anns peer2) as Hspec.
  destruct (expire_row now peer2 anns).2 as [p|].
  - destruct Hspec as (i & _ & [Hs _] & _ & ->).
    apply row_fades_alter, fades_set_COMPLETED. by rewrite Hs.
  - destruct Hspec as [_ ->]. apply row_fades_refl.
Qed.

(** When at most one announcement of the row is [REQUESTED], the row is
    left with no overdue request, and the reported peer is the one whose
    request was overdue. *)
Lemma expire_row_single now anns :
  single_requested anns ->
  (forall p, cell (expire_row now 0 anns).1 p
             = if decide (overdue now (cell anns p))
               then set_state COMPLETED (cell anns p) else cell anns p) /\
  (forall p, (expire_row now 0 anns).2 = Some p <-> overdue now (cell anns p)).
Proof.
  intros Hsingle. pose proof (expire_row_spec now anns 0) as Hspec.
  destruct (expire_row now 0 anns).2 as [p0|].
  - destruct Hspec as (i & -> & Hi & _ & ->). simpl.
    assert (forall p, overdue now (cell anns p) -> p = i) as Huniq.
    { intros p [Hp _]. destruct Hi as [Hi _]. by apply Hsingle. }
    split; intros p.
    + destruct (decide (overdue now (cell anns p))) as [Hp|Hp].
      * rewrite (Huniq p Hp). apply cell_alter_eq, cell_lt.
        destruct Hi as [-> _]. done.
      * apply cell_alter_ne. intros ->. done.
    + split; [by intros [= <-] | intros Hp; f_equal; symmetry; auto].
  - destruct Hspec as [Hnone ->]. split; intros p.
    + by rewrite decide_False.
    + split; [done | intros Hp; by destruct (Hnone p)].
Qed.

(** ** [GetSelected] *)

Lemma GetSelected_loop_requested now anns : forall peer ret ret_priority,
  Exists (fun ann => m_state ann = REQUESTED) anns ->
  GetSelected_loop now anns peer ret ret_priority = -1.
Proof.
  induction anns as [| ann rest IH]; intros peer ret rp Hex.
  - by apply Exists_nil in Hex.
  - simpl. apply Exists_cons in Hex as [Hreq|Hex].
    + by rewrite bool_decide_eq_true_2.
    + case_bool_decide; [done|].
      destruct (_ && _); [destruct (_ || _)|]; by apply IH.
Qed.

(** The loop either keeps [ret], when no remaining candidate beats it, or
    returns the first of the remaining viable candidates with the highest
    priority. *)
Lemma GetSelected_loop_spec now anns : forall peer ret ret_priority,
  Forall (fun ann => m_state ann <> REQUESTED) anns ->
  let r := GetSelected_loop now anns peer ret ret_priority in
  (r = ret /\
   forall i, viable now (cell anns i) ->
             ret <> -1 /\ m_priority (cell anns i) <= ret_priority) \/
  (exists i, r = Z.of_nat (peer + i) /\ viable now (cell anns i) /\
             (ret = -1 \/ m_priority (cell anns i) > ret_priority) /\
             (forall j, (j < i)%nat -> viable now (cell anns j) ->
                        m_priority (cell anns j) < m_priority (cell anns i)) /\
             (forall j, viable now (cell anns j) ->
                        m_priority (cell anns j) <= m_priority (cell anns i))).
Proof.
  induction anns as [| ann rest IH]; intros peer ret rp Hall; simpl.
  - left. split; [done|]. intros i [Hi _]. done.
  - apply Forall_cons in Hall as [Hann Hall].
    rewrite bool_decide_eq_false_2 by done.
    destruct (bool_decide (m_state ann = CANDIDATE)
              && bool_decide (m_time ann <= now)) eqn:Hv.
    + assert (viable now ann) as Hviable.
      { apply andb_true_iff in Hv as [Hs%bool_decide_eq_true
                                      Ht%bool_decide_eq_true]. by split. }
      destruct (bool_decide (ret = -1) || bool_decide (m_priority ann > rp))
        eqn:Hbetter.
      * assert (ret = -1 \/ m_priority ann > rp) as Hb.
        { apply orb_true_iff in Hbetter as [Hb%bool_decide_eq_true
                                           |Hb%bool_decide_eq_true]; auto. }
        destruct (IH (S peer) (Z.of_nat peer) (m_priority ann) Hall)
          as [[-> Hrest] | (i & -> & Hi & Hgt & Hbefore & Hmax)].
        -- right. exists 0%nat. split_and!.
           ++ f_equal. lia.
           ++ done.
           ++ done.
           ++ intros j; lia.
           ++ intros [|j] Hj; cell_simpl; [lia|]. by apply Hrest.
        -- assert (m_priority (cell rest i) > m_priority ann) as Hgt'
             by (destruct Hgt as [Hgt|Hgt]; lia).
           right. exists (S i). split_and!.
           ++ f_equal. lia.
           ++ done.
           ++ destruct Hb as [Hb|Hb]; [by left | right; cell_simpl; lia].
           ++ intros [|j] Hlt Hj; cell_simpl; [lia|]. apply Hbefore; [lia | done].
           ++ intros [|j] Hj; cell_simpl; [lia|]. by apply Hmax.
      * apply orb_false_iff in Hbetter as [Hr%bool_decide_eq_false
                                           Hp%bool_decide_eq_false].
        destruct (IH (S peer) ret rp Hall)
          as [[-> Hrest] | (i & -> & Hi & Hgt & Hbefore & Hmax)].
        -- left. split; [done|].
           intros [|j] Hj; cell_simpl; [split; [done | lia] | by apply Hrest].
        -- assert (m_priority (cell rest i) > rp) as Hgt'
             by (destruct Hgt as [Hgt|Hgt]; [done | lia]).
           right. exists (S i). split_and!.
           ++ f_equal. lia.
           ++ done.
           ++ by right.
           ++ intros [|j] Hlt Hj; cell_simpl; [lia|]. apply Hbefore; [lia | done].
           ++ intros [|j] Hj; cell_simpl; [lia|]. by apply Hmax.
    + assert (~ viable now ann) as Hnv.
      { intros [Hs Ht]. rewrite !bool_decide_eq_true_2 in Hv by done. done. }
      destruct (IH (S peer) ret rp Hall)
        as [[-> Hrest] | (i & -> & Hi & Hgt & Hbefore & Hmax)].
      * left. split; [done|]. intros [|j] Hj; cell_simpl; [done|].
        by apply Hrest.
      * right. exists (S i). split_and!.
        -- f_equal. lia.
        -- done.
        -- done.
        -- intros [|j] Hlt Hj; cell_simpl; [done|]. apply Hbefore; [lia|done].
        -- intros [|j] Hj; cell_simpl; [done|]. by apply Hmax.
Qed.

Lemma no_requested_iff anns :
  Forall (fun ann => m_state ann <> REQUESTED) anns
  <-> forall q, m_state (cell anns q) <> REQUESTED.
Proof.
  rewrite Forall_forall. split.
  - intros Hall q Hq. apply (Hall (cell anns q)); [|done].
    apply list_elem_of_lookup. exists q. apply cell_exists. by rewrite Hq.
  - intros Hall ann [q Hq]%list_elem_of_lookup.
    rewrite <- (cell_lookup _ _ _ Hq). apply Hall.
Qed.

(** [GetSelected] returns [peer] exactly when no announcement of the txid
    is [REQUESTED] and the announcement of [peer] is the first of the
    viable candidates with the highest priority. *)
Lemma GetSelected_row_spec now anns peer :
  GetSelected_row now anns = Z.of_nat peer <->
  (forall q, m_state (cell anns q) <> REQUESTED) /\
  viable now (cell anns peer) /\
  (forall j, (j < peer)%nat -> viable now (cell anns j) ->
             m_priority (cell anns j) < m_priority (cell anns peer)) /\
  (forall j, viable now (cell anns j) ->
             m_priority (cell anns j) <= m_priority (cell anns peer)).
Proof.
  unfold GetSelected_row. split.
  - intros Hsel.
    destruct (decide (Exists (fun ann => m_state ann = REQUESTED) anns))
      as [Hex|Hno].
    { rewrite GetSelected_loop_requested in Hsel by done. lia. }
    assert (Forall (fun ann => m_state ann <> REQUESTED) anns) as Hall.
    { apply Forall_forall. intros ann Hin Hreq. apply Hno, Exists_exists.
      eauto. }
    destruct (GetSelected_loop_spec now anns 0 (-1) 0 Hall)
      as [[Hr _] | (i & Hr & Hi & _ & Hbefore & Hmax)].
    { rewrite Hsel in Hr. lia. }
    rewrite Hsel in Hr. assert (peer = i) as -> by lia.
    split; [by apply no_requested_iff | done].
  - intros (Hnone & Hpeer & Hbefore & Hmax).
    apply no_requested_iff in Hnone.
    destruct (GetSelected_loop_spec now anns 0 (-1) 0 Hnone)
      as [[_ Hr] | (i & -> & Hi & _ & Hbefore' & Hmax')].
    { by destruct (Hr peer Hpeer). }
    f_equal. simpl.
    destruct (Nat.lt_trichotomy i peer) as [Hlt|[->|Hgt]]; [|done|].
    + specialize (Hbefore i Hlt Hi). specialize (Hmax' peer Hpeer). lia.
    + specialize (Hbefore' peer Hgt Hpeer). specialize (Hmax i Hi). lia.
Qed.

Lemma GetSelected_row_viable now anns peer :
  GetSelected_row now anns = Z.of_nat peer -> viable now (cell anns peer).
Proof. intros Hsel. by apply GetSelected_row_spec in Hsel as (_ & ? & _). Qed.

(** ** The rows after each event *)

Lemma expire_requested_fades ann : fades ann (expire_requested ann).
Proof.
  unfold expire_requested. case_bool_decide as Hs.
  - apply fades_set_COMPLETED. by rewrite Hs.
  - apply fades_refl.
Qed.

Lemma GetRequestable_row_fades now anns :
  row_fades anns (GetRequestable_row now anns).
Proof.
  unfold GetRequestable_row.
  eauto using row_fades_trans, expire_row_fades, row_fades_Cleanup.
Qed.

Lemma ReceivedResponse_row_fades peer anns :
  m_state (cell anns peer) <> NOTHING ->
  row_fades anns (ReceivedResponse_row peer anns).
Proof.
  intros Hs. unfold ReceivedResponse_row.
  eapply row_fades_trans; [|apply row_fades_Cleanup].
  by apply row_fades_alter, fades_set_COMPLETED.
Qed.

Lemma DisconnectedPeer_row_fades peer anns :
  row_fades anns (DisconnectedPeer_row peer anns).
Proof.
  unfold DisconnectedPeer_row. case_bool_decide; [|apply row_fades_refl].
  eapply row_fades_trans; [|apply row_fades_Cleanup].
  apply row_fades_alter, fades_set_NOTHING.
Qed.

Lemma ForgetTxId_row_fades anns : row_fades anns (ForgetTxId_row anns).
Proof.
  unfold ForgetTxId_row.
  eapply row_fades_trans; [|apply row_fades_Cleanup].
  apply row_fades_fmap; [done | apply fades_set_NOTHING].
Qed.

Section row_invariants.
Context `{TrackerEnv}.

Lemma row_inv_GetRequestable_row now txid anns :
  row_inv txid anns -> row_inv txid (GetRequestable_row now anns).
Proof.
  intros Hinv. unfold GetRequestable_row.
  eauto using row_inv_fades_Cleanup, expire_row_fades.
Qed.

Lemma row_inv_ReceivedResponse_row peer txid anns :
  row_inv txid anns -> m_state (cell anns peer) <> NOTHING ->
  row_inv txid (ReceivedResponse_row peer anns).
Proof.
  intros Hinv Hs. unfold ReceivedResponse_row.
  eapply row_inv_fades_Cleanup; [done|].
  by apply row_fades_alter, fades_set_COMPLETED.
Qed.

Lemma row_inv_DisconnectedPeer_row peer txid anns :
  row_inv txid anns -> row_inv txid (DisconnectedPeer_row peer anns).
Proof.
  intros Hinv. unfold DisconnectedPeer_row. case_bool_decide; [|done].
  eapply row_inv_fades_Cleanup; [done|].
  apply row_fades_alter, fades_set_NOTHING.
Qed.

Lemma row_inv_ForgetTxId_row txid anns :
  row_inv txid anns -> row_inv txid (ForgetTxId_row anns).
Proof.
  intros Hinv. unfold ForgetTxId_row.
  eapply row_inv_fades_Cleanup; [done|].
  apply row_fades_fmap; [done | apply fades_set_NOTHING].
Qed.

(** The cells of a row after [RequestedTx] took effect on it. *)
Lemma cell_RequestedTx_row peer exptime anns q :
  (peer < length anns)%nat ->
  cell (RequestedTx_row peer exptime anns) q
  = if decide (q = peer)
    then set_time exptime (set_state REQUESTED (cell anns peer))
    else expire_requested (cell anns q).
Proof.
  intros Hlt. unfold RequestedTx_row. case_decide as Hq.
  - subst q. rewrite cell_alter_eq by (by rewrite length_fmap).
    rewrite cell_fmap by done. unfold expire_requested.
    case_bool_decide; by destruct (cell anns peer).
  - rewrite cell_alter_ne by done. by rewrite cell_fmap.
Qed.

Lemma row_inv_RequestedTx_row peer exptime txid anns :
  row_inv txid anns -> m_state (cell anns peer) = CANDIDATE ->
  row_inv txid (RequestedTx_row peer exptime anns).
Proof.
  intros (Hlen & Hsingle & Hnac & Hprio) Hs.
  assert (peer < length anns)%nat as Hlt by (apply cell_lt; by rewrite Hs).
  assert (forall q, q <> peer ->
            m_state (cell (RequestedTx_row peer exptime anns) q) <> REQUESTED)
    as Hothers.
  { intros q Hq. rewrite cell_RequestedTx_row, decide_False by done.
    unfold expire_requested. case_bool_decide; done. }
  split_and!.
  - unfold RequestedTx_row. by rewrite length_alter, length_fmap.
  - intros p q Hp Hq.
    destruct (decide (p = peer)) as [->|Hp'];
      destruct (decide (q = peer)) as [->|Hq']; try done.
    + by destruct (Hothers q Hq').
    + by destruct (Hothers p Hp').
    + by destruct (Hothers p Hp').
  - intros p _. exists peer.
    rewrite cell_RequestedTx_row, decide_True by done. by right.
  - intros p. rewrite cell_RequestedTx_row by done. case_decide as Hp.
    + subst p. simpl. intros _. apply Hprio. by rewrite Hs.
    + intros Hne.
      destruct (expire_requested_fades (cell anns p))
        as (_ & _ & -> & -> & Hst).
      apply Hprio. destruct Hst as [Heq|[Heq|[_ ?]]]; congruence.
Qed.

(** The row after [ReceivedInv] created an announcement in it. *)
Lemma row_inv_insert_candidate peer txid anns reqtime sequence preferred :
  row_inv txid anns -> (peer < MAX_PEERS)%nat ->
  row_inv txid
    (<[peer := mkAnnouncement reqtime sequence CANDIDATE preferred
                 (ComputePriority (TXIDS txid) peer preferred)]> anns).
Proof.
  intros (Hlen & Hsingle & Hnac & Hprio) Hlt.
  assert (peer < length anns)%nat as Hlt' by (by rewrite Hlen).
  split_and!.
  - by rewrite length_insert.
  - intros p q.
    destruct (decide (peer = p)) as [<-|Hp];
      [by rewrite cell_insert_eq|].
    destruct (decide (peer = q)) as [<-|Hq];
      [by rewrite (cell_insert_eq _ peer)|].
    rewrite !cell_insert_ne by done. apply Hsingle.
  - intros p _. exists peer. rewrite cell_insert_eq by done. by left.
  - intros p. destruct (decide (peer = p)) as [<-|Hp].
    + by rewrite cell_insert_eq.
    + rewrite cell_insert_ne by done. apply Hprio.
Qed.

End row_invariants.

(** ** The loop of [GetRequestable] *)

Section get_requestable.
Context `{TrackerEnv}.

Lemma GetRequestable_loop_cons now peer txid anns rest :
  GetRequestable_loop now peer txid (anns :: rest)
  = (GetRequestable_row now anns
       :: (GetRequestable_loop now peer (S txid) rest).1.1,
     result_of_row now peer txid anns
       ++ (GetRequestable_loop now peer (S txid) rest).1.2,
     expired_of_row now txid anns
       ++ (GetRequestable_loop now peer (S txid) rest).2).
Proof.
  unfold result_of_row, expired_of_row, GetRequestable_row. simpl.
  destruct (expire_row now 0 anns) as [anns1 e].
  by destruct (GetRequestable_loop now peer (S txid) rest) as [[rows r] ex].
Qed.

Lemma GetRequestable_loop_rows now peer rows : forall txid,
  (GetRequestable_loop now peer txid rows).1.1
  = GetRequestable_row now <$> rows.
Proof.
  induction rows as [| anns rest IH]; intros txid; [done|].
  rewrite GetRequestable_loop_cons, fmap_cons. simpl. by rewrite IH.
Qed.

Lemma GetRequestable_loop_result now peer rows : forall txid s x,
  (s, x) ∈ (GetRequestable_loop now peer txid rows).1.2 <->
  exists i anns,
    x = (txid + i)%nat /\ rows !! i = Some anns /\
    s = m_sequence (cell (GetRequestable_row now anns) peer) /\
    m_state (cell (GetRequestable_row now anns) peer) = CANDIDATE /\
    GetSelected_row now (GetRequestable_row now anns) = Z.of_nat peer.
Proof.
  induction rows as [| anns rest IH]; intros txid s x.
  - simpl. split; [by intros ?%elem_of_nil | by intros (i & anns & _ & ? & _)].
  - rewrite GetRequestable_loop_cons. simpl. rewrite elem_of_app, IH.
    unfold result_of_row. split.
    + intros [Hhere | (i & anns' & -> & Hi & Hrest)].
      * destruct (_ && _) eqn:Hsel; [|by apply elem_of_nil in Hhere].
        apply andb_true_iff in Hsel as [Hs%bool_decide_eq_true
                                        Hg%bool_decide_eq_true].
        apply list_elem_of_singleton in Hhere as [= -> ->].
        exists 0%nat, anns. split_and!; first [done | lia].
      * exists (S i), anns'. split_and!; first [done | lia | apply Hrest].
    + intros ([|i] & anns' & -> & Hi & Hs & Hc & Hg).
      * left. simpl in Hi. injection Hi as <-.
        rewrite !bool_decide_eq_true_2 by done. simpl.
        apply list_elem_of_singleton. f_equal; [done | lia].
      * right. exists i, anns'. split_and!; first [done | lia].
Qed.

Lemma GetRequestable_loop_expired now peer rows : forall txid p h,
  (p, h) ∈ (GetRequestable_loop now peer txid rows).2 <->
  exists i anns,
    rows !! i = Some anns /\ h = TXIDS (txid + i) /\
    (expire_row now 0 anns).2 = Some p.
Proof.
  induction rows as [| anns rest IH]; intros txid p h.
  - simpl. split; [by intros ?%elem_of_nil | by intros (i & anns & ? & _)].
  - rewrite GetRequestable_loop_cons. simpl. rewrite elem_of_app, IH.
    unfold expired_of_row. split.
    + intros [Hhere | (i & anns' & Hi & -> & Hrest)].
      * destruct (expire_row now 0 anns).2 as [p0|] eqn:He;
          [|by apply elem_of_nil in Hhere].
        apply list_elem_of_singleton in Hhere as [= -> ->].
        exists 0%nat, anns. split_and!; first [done | f_equal; lia].
      * exists (S i), anns'. split_and!; first [done | f_equal; lia].
    + intros ([|i] & anns' & Hi & -> & He).
      * left. simpl in Hi. injection Hi as <-. rewrite He.
        apply list_elem_of_singleton. do 2 f_equal. lia.
      * right. exists i, anns'. split_and!; first [done | f_equal; lia].
Qed.

(** The state [GetRequestable] leaves. *)
Lemma after_GetRequestable_eq peer t :
  after_GetRequestable peer t
  = set_announcements (GetRequestable_row (m_now t) <$> m_announcements t) t.
Proof.
  unfold after_GetRequestable, GetRequestable.
  pose proof (GetRequestable_loop_rows (m_now t) peer (m_announcements t) 0)
    as Hrows.
  destruct (GetRequestable_loop (m_now t) peer 0 (m_announcements t))
    as [[rows r] ex]. simpl in *. by rewrite Hrows.
Qed.

Lemma ann_at_after_GetRequestable peer t txid q :
  ann_at (after_GetRequestable peer t) txid q
  = cell (GetRequestable_row (m_now t) (row_at (m_announcements t) txid)) q.
Proof.
  rewrite after_GetRequestable_eq. unfold ann_at. simpl.
  by rewrite row_at_fmap.
Qed.

Lemma GetSelected_after_GetRequestable peer t txid :
  GetSelected txid (after_GetRequestable peer t)
  = GetSelected_row (m_now t)
      (GetRequestable_row (m_now t) (row_at (m_announcements t) txid)).
Proof.
  rewrite after_GetRequestable_eq. unfold GetSelected. simpl.
  by rewrite row_at_fmap.
Qed.

(** Membership in the list of txids the tracker is expected to return. *)
Lemma elem_of_requestable peer t txid :
  txid ∈ requestable peer t <->
  (txid < length (m_announcements t))%nat /\
  m_state (ann_at (after_GetRequestable peer t) txid peer) = CANDIDATE /\
  GetSelected txid (after_GetRequestable peer t) = Z.of_nat peer.
Proof.
  rewrite GetSelected_after_GetRequestable, ann_at_after_GetRequestable.
  unfold requestable, GetRequestable.
  pose proof (GetRequestable_loop_result (m_now t) peer (m_announcements t) 0)
    as Hres.
  destruct (GetRequestable_loop (m_now t) peer 0 (m_announcements t))
    as [[rows r] ex]. simpl in *.
  rewrite list_elem_of_fmap. split.
  - intros ([s x] & -> & Hin). simpl.
    rewrite merge_sort_Permutation in Hin.
    apply Hres in Hin as (i & anns & -> & Hi & _ & Hs & Hg). simpl.
    rewrite (row_at_lookup _ _ _ Hi).
    split_and!; try done. by eapply lookup_lt_Some.
  - intros (Hlt & Hs & Hg).
    apply lookup_lt_is_Some in Hlt as [anns Hi].
    rewrite (row_at_lookup _ _ _ Hi) in Hs, Hg.
    exists (m_sequence (cell (GetRequestable_row (m_now t) anns) peer), txid).
    split; [done|]. rewrite merge_sort_Permutation.
    apply Hres. exists txid, anns. split_and!; done.
Qed.

Lemma elem_of_expired peer t p h :
  (p, h) ∈ expired peer t <->
  exists txid,
    (txid < length (m_announcements t))%nat /\ h = TXIDS txid /\
    (expire_row (m_now t) 0 (row_at (m_announcements t) txid)).2 = Some p.
Proof.
  unfold expired, GetRequestable.
  pose proof (GetRequestable_loop_expired (m_now t) peer (m_announcements t) 0)
    as Hex.
  destruct (GetRequestable_loop (m_now t) peer 0 (m_announcements t))
    as [[rows r] ex]. simpl in *.
  rewrite merge_sort_Permutation, Hex. split.
  - intros (i & anns & Hi & -> & He). exists i.
    rewrite (row_at_lookup _ _ _ Hi).
    split_and!; try done. by eapply lookup_lt_Some.
  - intros (txid & [anns Hi]%lookup_lt_is_Some & -> & He).
    rewrite (row_at_lookup _ _ _ Hi) in He. by exists txid, anns.
Qed.

End get_requestable.

(** ** The invariants hold in every reachable state *)

Section invariants.
Context `{TrackerEnv}.

Lemma cell_replicate n p :
  m_state (cell (replicate n no_announcement) p) = NOTHING.
Proof.
  unfold cell. destruct (replicate n no_announcement !! p) eqn:Hp; [|done].
  by apply lookup_replicate in Hp as [-> _].
Qed.

Lemma tester_inv_initial : tester_inv initial.
Proof.
  split; [done|]. intros txid Htxid. unfold initial, row_at.
  cbn [m_announcements]. rewrite lookup_replicate_2 by done.
  cbn [default from_option id]. split_and!.
  - apply length_replicate.
  - intros p q Hp. by rewrite cell_replicate in Hp.
  - intros p Hp. by rewrite cell_replicate in Hp.
  - intros p Hp. by destruct Hp; apply cell_replicate.
Qed.

Lemma tester_inv_same t t' :
  m_announcements t' = m_announcements t -> tester_inv t -> tester_inv t'.
Proof. unfold tester_inv. by intros ->. Qed.

Lemma tester_inv_alter f txid t t' :
  m_announcements t' = alter f txid (m_announcements t) ->
  (row_inv txid (row_at (m_announcements t) txid) ->
   row_inv txid (f (row_at (m_announcements t) txid))) ->
  tester_inv t -> tester_inv t'.
Proof.
  intros Htbl Hf [Hlen Hrows]. unfold tester_inv. rewrite Htbl.
  split; [by rewrite length_alter|]. intros txid' Hlt.
  destruct (decide (txid = txid')) as [<-|Hne].
  - rewrite row_at_alter_eq by (by rewrite Hlen). auto.
  - rewrite row_at_alter_ne by done. auto.
Qed.

Lemma tester_inv_fmap f t t' :
  m_announcements t' = f <$> m_announcements t -> f [] = [] ->
  (forall txid anns, row_inv txid anns -> row_inv txid (f anns)) ->
  tester_inv t -> tester_inv t'.
Proof.
  intros Htbl Hnil Hf [Hlen Hrows]. unfold tester_inv. rewrite Htbl.
  split; [by rewrite length_fmap|]. intros txid Hlt.
  rewrite row_at_fmap by done. auto.
Qed.

Lemma tester_inv_step c t :
  in_range c -> tester_inv t -> tester_inv (step c t).
Proof.
  intros Hrange Hinv. destruct c; simpl in *.
  - apply (tester_inv_same t); [|done]. unfold AdvanceToEvent.
    by destruct (events_drop_past _ _).
  - by apply (tester_inv_same t).
  - rewrite after_GetRequestable_eq.
    eapply tester_inv_fmap; [done | done | | done].
    intros txid anns. apply row_inv_GetRequestable_row.
  - eapply tester_inv_fmap; [done | done | | done].
    intros txid anns. apply row_inv_DisconnectedPeer_row.
  - eapply tester_inv_alter; [done | | done].
    apply row_inv_ForgetTxId_row.
  - destruct Hrange as [Hpeer Htxid]. unfold ReceivedInv.
    case_bool_decide; [|done].
    eapply tester_inv_alter; [done | | done].
    intros Hrow. by apply row_inv_insert_candidate.
  - unfold RequestedTx.
    set (t1 := if bool_decide _ then _ else t).
    assert (tester_inv t1) as Hinv1.
    { subst t1. case_bool_decide as Hs; [|done].
      eapply tester_inv_alter; [done | | done].
      intros Hrow. by apply row_inv_RequestedTx_row. }
    case_bool_decide; [|done]. by apply (tester_inv_same t1).
  - unfold ReceivedResponse. case_bool_decide as Hs; [|done].
    eapply tester_inv_alter; [done | | done].
    intros Hrow. by apply row_inv_ReceivedResponse_row.
Qed.

Lemma reachable_inv t : reachable t -> tester_inv t.
Proof.
  induction 1 as [| c t _ IH Hrange];
    [apply tester_inv_initial | by apply tester_inv_step].
Qed.

Lemma reachable_run calls t :
  reachable t -> Forall in_range calls -> reachable (run calls t).
Proof.
  intros Ht Hall. revert t Ht.
  induction Hall as [| c calls Hc _ IH]; intros t Ht; [done|].
  simpl. apply IH. by constructor.
Qed.

Lemma reachable_row_inv t txid :
  reachable t -> (txid < MAX_TXIDS)%nat ->
  row_inv txid (row_at (m_announcements t) txid).
Proof. intros [_ Hrows]%reachable_inv. apply Hrows. Qed.

Lemma reachable_length t :
  reachable t -> length (m_announcements t) = MAX_TXIDS.
Proof. by intros [Hlen _]%reachable_inv. Qed.

End invariants.

(** ** The scenarios are reachable *)

Lemma reachable_two_candidates : reachable (H := demo_env) two_candidates.
Proof.
  apply reachable_run; [constructor|].
  repeat constructor; unfold MAX_PEERS, MAX_TXIDS; lia.
Qed.

Lemma reachable_three_candidates :
  reachable (H := demo_env) three_candidates.
Proof.
  apply reachable_run; [apply reachable_two_candidates|].
  repeat constructor; unfold MAX_PEERS, MAX_TXIDS; lia.
Qed.

Lemma reachable_one_requested : reachable (H := demo_env) one_requested.
Proof.
  apply reachable_run; [apply reachable_two_candidates|].
  repeat constructor; unfold MAX_PEERS, MAX_TXIDS; lia.
Qed.

Lemma reachable_delayed_then_ready :
  reachable (H := demo_env) delayed_then_ready.
Proof.
  apply reachable_run; [constructor|].
  repeat constructor; unfold MAX_PEERS, MAX_TXIDS; lia.
Qed.

(** ** Single in-flight request *)

(** C2. In every state reachable by public calls, at most one announcement
    of a txid is [REQUESTED]: two peers whose announcements for the same
    txid are both [REQUESTED] are the same peer. *)
Theorem single_in_flight `{TrackerEnv} t txid p q :
  reachable t ->
  m_state (ann_at t txid p) = REQUESTED ->
  m_state (ann_at t txid q) = REQUESTED ->
  p = q.
Proof.
  intros Hreach Hp Hq.
  assert (txid < MAX_TXIDS)%nat as Htxid.
  { rewrite <- (reachable_length t Hreach).
    apply (ann_at_exists t txid p). by rewrite Hp. }
  destruct (reachable_row_inv t txid Hreach Htxid) as (_ & Hsingle & _).
  by apply Hsingle.
Qed.

Lemma single_in_flight_witness :
  reachable (H := demo_env) one_requested /\
  m_state (ann_at one_requested 0 1) = REQUESTED /\ (1 = 1)%nat.
Proof.
  split; [apply reachable_one_requested|]. split; [reflexivity|].
  apply (single_in_flight (H := demo_env) one_requested 0 1 1);
    [apply reachable_one_requested | reflexivity | reflexivity].
Defined.

(** ** [RequestedTx] *)

Lemma m_announcements_RequestedTx peer txid exptime t :
  m_announcements (RequestedTx peer txid exptime t)
  = if bool_decide (m_state (ann_at t txid peer) = CANDIDATE)
    then alter (RequestedTx_row peer exptime) txid (m_announcements t)
    else m_announcements t.
Proof.
  unfold RequestedTx. repeat case_bool_decide; done.
Qed.

(** C5. If the announcement of (peer, txid) is a [CANDIDATE], [RequestedTx]
    makes it [REQUESTED] with [m_time = exptime], its other members kept;
    every other announcement of the txid that was [REQUESTED] becomes
    [COMPLETED]; every remaining announcement, of this txid or another, is
    unchanged. If the announcement is absent or not a [CANDIDATE], the
    table of announcements is unchanged. *)
Theorem requested_tx_effect peer txid exptime t :
  (m_state (ann_at t txid peer) = CANDIDATE ->
   ann_at (RequestedTx peer txid exptime t) txid peer
   = mkAnnouncement exptime (m_sequence (ann_at t txid peer)) REQUESTED
       (m_preferred (ann_at t txid peer)) (m_priority (ann_at t txid peer))
   /\
   (forall q, q <> peer ->
      (m_state (ann_at t txid q) = REQUESTED ->
       ann_at (RequestedTx peer txid exptime t) txid q
       = set_state COMPLETED (ann_at t txid q)) /\
      (m_state (ann_at t txid q) <> REQUESTED ->
       ann_at (RequestedTx peer txid exptime t) txid q = ann_at t txid q))
   /\
   (forall txid' q, txid' <> txid ->
      ann_at (RequestedTx peer txid exptime t) txid' q = ann_at t txid' q))
  /\
  (m_state (ann_at t txid peer) <> CANDIDATE ->
   m_announcements (RequestedTx peer txid exptime t) = m_announcements t).
Proof.
  split.
  - intros Hs.
    destruct (ann_at_exists t txid peer) as [Htxid Hpeer];
      [by rewrite Hs|].
    unfold ann_at in *. rewrite m_announcements_RequestedTx.
    unfold ann_at. rewrite bool_decide_eq_true_2 by done.
    rewrite row_at_alter_eq by done. split_and!.
    + by rewrite cell_RequestedTx_row, decide_True.
    + intros q Hq. rewrite cell_RequestedTx_row, decide_False by done.
      unfold expire_requested.
      split; intros Hq'; [by rewrite bool_decide_eq_true_2
                         | by rewrite bool_decide_eq_false_2].
    + intros txid' q Hne. by rewrite row_at_alter_ne.
  - intros Hs. rewrite m_announcements_RequestedTx.
    by rewrite bool_decide_eq_false_2.
Qed.

Lemma requested_tx_effect_witness :
  m_state (ann_at two_candidates 0 1) = CANDIDATE /\
  m_state (ann_at (RequestedTx 1 0 244466671 two_candidates) 0 1) = REQUESTED /\
  m_time (ann_at (RequestedTx 1 0 244466671 two_candidates) 0 1) = 244466671 /\
  ann_at (RequestedTx 1 0 244466671 two_candidates) 0 0
  = ann_at two_candidates 0 0.
Proof.
  destruct (requested_tx_effect 1 0 244466671 two_candidates)
    as [Hcandidate _].
  destruct (Hcandidate eq_refl) as (Hpeer & Hothers & _).
  split; [reflexivity|]. rewrite Hpeer. split; [reflexivity|].
  split; [reflexivity|].
  apply (Hothers 0%nat); [lia | vm_compute; discriminate].
Defined.

(** ** [ReceivedInv] *)

Lemma ann_at_ReceivedInv_new `{TrackerEnv} peer txid is_wtxid preferred
    reqtime t :
  (txid < length (m_announcements t))%nat ->
  (peer < length (row_at (m_announcements t) txid))%nat ->
  m_state (ann_at t txid peer) = NOTHING ->
  ann_at (ReceivedInv peer txid is_wtxid preferred reqtime t) txid peer
  = mkAnnouncement reqtime (m_current_sequence t) CANDIDATE preferred
      (ComputePriority (TXIDS txid) peer preferred).
Proof.
  intros Htxid Hpeer Hs. unfold ReceivedInv.
  rewrite bool_decide_eq_true_2 by done. unfold ann_at.
  cbn [m_announcements]. rewrite row_at_alter_eq by done.
  by rewrite cell_insert_eq.
Qed.

(** C7. When an announcement for (peer, txid) already exists, in whatever
    state, [ReceivedInv] leaves the whole tester unchanged, whatever the
    [preferred] flag and [reqtime] of the new call; hence a second
    [ReceivedInv] for the same (peer, txid), right after a first one,
    leaves the state the first one produced. *)
Theorem received_inv_duplicate `{TrackerEnv} peer txid t :
  (forall is_wtxid preferred reqtime,
     m_state (ann_at t txid peer) <> NOTHING ->
     ReceivedInv peer txid is_wtxid preferred reqtime t = t) /\
  (reachable t -> (peer < MAX_PEERS)%nat -> (txid < MAX_TXIDS)%nat ->
   forall is_wtxid preferred reqtime is_wtxid' preferred' reqtime',
     ReceivedInv peer txid is_wtxid' preferred' reqtime'
       (ReceivedInv peer txid is_wtxid preferred reqtime t)
     = ReceivedInv peer txid is_wtxid preferred reqtime t).
Proof.
  assert (forall t' is_wtxid preferred reqtime,
            m_state (ann_at t' txid peer) <> NOTHING ->
            ReceivedInv peer txid is_wtxid preferred reqtime t' = t') as Hdup.
  { intros t' w b r Hs. unfold ReceivedInv.
    by rewrite bool_decide_eq_false_2. }
  split; [apply Hdup|].
  intros Hreach Hpeer Htxid w b r w' b' r'. apply Hdup.
  destruct (decide (m_state (ann_at t txid peer) = NOTHING)) as [Hs|Hs].
  - rewrite ann_at_ReceivedInv_new; try done.
    + by rewrite (reachable_length t Hreach).
    + by destruct (reachable_row_inv t txid Hreach Htxid) as [-> _].
  - by rewrite Hdup.
Qed.

Lemma received_inv_duplicate_witness :
  m_state (ann_at one_requested 0 1) <> NOTHING /\
  ReceivedInv (H := demo_env) 1 0 false false 244466681 one_requested
  = one_requested /\
  ReceivedInv (H := demo_env) 3 2 true false 244466681
    (ReceivedInv (H := demo_env) 3 2 false true microseconds_min
       one_requested)
  = ReceivedInv (H := demo_env) 3 2 false true microseconds_min
      one_requested.
Proof.
  assert (m_state (ann_at one_requested 0 1) <> NOTHING) as Hs
    by (vm_compute; discriminate).
  split; [exact Hs|]. split.
  - apply (received_inv_duplicate (H := demo_env) 1 0 one_requested), Hs.
  - apply (received_inv_duplicate (H := demo_env) 3 2 one_requested);
      [apply reachable_one_requested
      | unfold MAX_PEERS; lia | unfold MAX_TXIDS; lia].
Defined.

(** ** [ReceivedResponse] *)

(** [ReceivedResponse] for a (peer, txid) with no announcement returns the
    tester it was given. *)
Lemma ReceivedResponse_unknown peer txid t :
  m_state (ann_at t txid peer) = NOTHING ->
  ReceivedResponse peer txid t = t.
Proof.
  intros Hs. unfold ReceivedResponse.
  rewrite bool_decide_eq_false_2; [done|].
  intros Hne. by apply Hne.
Qed.

Lemma ReceivedResponse_row_others_active peer anns :
  (exists q, q <> peer /\ active (cell anns q)) ->
  ReceivedResponse_row peer anns = alter (set_state COMPLETED) peer anns.
Proof.
  intros (q & Hq & Ha). unfold ReceivedResponse_row.
  apply Cleanup_row_active. exists q. by rewrite cell_alter_ne.
Qed.

Lemma ReceivedResponse_row_others_inactive peer anns :
  (forall q, q <> peer -> ~ active (cell anns q)) ->
  forall q, m_state (cell (ReceivedResponse_row peer anns) q) = NOTHING.
Proof.
  intros Hno q. unfold ReceivedResponse_row.
  rewrite Cleanup_row_inactive; [by rewrite cell_fmap|].
  intros p. destruct (decide (peer = p)) as [<-|Hne].
  - destruct (decide (peer < length anns)%nat) as [Hlt|Hge].
    + rewrite cell_alter_eq by done. unfold active. simpl.
      intros [?|?]; done.
    + rewrite cell_None; [unfold active; simpl; intros [?|?]; done|].
      apply lookup_ge_None_2. rewrite length_alter. lia.
  - rewrite cell_alter_ne by done. by apply Hno.
Qed.

Lemma ann_at_with_row_eq f txid t q :
  (txid < length (m_announcements t))%nat ->
  ann_at (with_row txid f t) txid q
  = cell (f (row_at (m_announcements t) txid)) q.
Proof.
  intros Hlt. unfold ann_at, with_row. cbn [m_announcements set_announcements].
  by rewrite row_at_alter_eq.
Qed.

Lemma ann_at_with_row_ne f txid t txid' q :
  txid <> txid' -> ann_at (with_row txid f t) txid' q = ann_at t txid' q.
Proof.
  intros Hne. unfold ann_at, with_row.
  cbn [m_announcements set_announcements]. by rewrite row_at_alter_ne.
Qed.

(** The response that completes the last active announcement of a txid
    erases all the announcements of the txid. *)
Lemma ReceivedResponse_erases peer txid t :
  m_state (ann_at t txid peer) <> NOTHING ->
  (forall q, q <> peer -> ~ active (ann_at t txid q)) ->
  forall q, m_state (ann_at (ReceivedResponse peer txid t) txid q) = NOTHING.
Proof.
  intros Hs Hothers q. destruct (ann_at_exists t txid peer Hs) as [Htxid _].
  unfold ReceivedResponse. rewrite bool_decide_eq_true_2 by done.
  rewrite ann_at_with_row_eq by done.
  by apply ReceivedResponse_row_others_inactive.
Qed.

(** C1, as amended. After [ReceivedResponse] for an existing (peer, txid):
    if another peer's announcement of the txid is still a [CANDIDATE] or
    [REQUESTED], the announcement of [peer] becomes [COMPLETED] and every
    other announcement of the txid is unchanged, the candidates included;
    otherwise all announcements of the txid are erased. The announcements
    of other txids are unchanged. *)
Theorem received_response_effect peer txid t :
  m_state (ann_at t txid peer) <> NOTHING ->
  ((exists q, q <> peer /\ active (ann_at t txid q)) ->
   ann_at (ReceivedResponse peer txid t) txid peer
   = set_state COMPLETED (ann_at t txid peer) /\
   forall q, q <> peer ->
             ann_at (ReceivedResponse peer txid t) txid q = ann_at t txid q)
  /\
  ((forall q, q <> peer -> ~ active (ann_at t txid q)) ->
   forall q, m_state (ann_at (ReceivedResponse peer txid t) txid q) = NOTHING)
  /\
  (forall txid' q, txid' <> txid ->
     ann_at (ReceivedResponse peer txid t) txid' q = ann_at t txid' q).
Proof.
  intros Hs. destruct (ann_at_exists t txid peer Hs) as [Htxid Hpeer].
  split_and!.
  - intros Hothers. unfold ReceivedResponse.
    rewrite bool_decide_eq_true_2 by done.
    rewrite !ann_at_with_row_eq by done.
    rewrite ReceivedResponse_row_others_active by done.
    split; [by rewrite cell_alter_eq|].
    intros q Hq. rewrite ann_at_with_row_eq by done.
    rewrite ReceivedResponse_row_others_active by done.
    by rewrite cell_alter_ne.
  - by apply ReceivedResponse_erases.
  - intros txid' q Hne. unfold ReceivedResponse.
    rewrite bool_decide_eq_true_2 by done. by rewrite ann_at_with_row_ne.
Qed.

Lemma received_response_effect_witness :
  m_state (ann_at one_requested 0 1) <> NOTHING /\
  ann_at (ReceivedResponse 1 0 one_requested) 0 1
  = set_state COMPLETED (ann_at one_requested 0 1) /\
  ann_at (ReceivedResponse 1 0 one_requested) 0 0 = ann_at one_requested 0 0.
Proof.
  assert (m_state (ann_at one_requested 0 1) <> NOTHING) as Hs
    by (vm_compute; discriminate).
  destruct (received_response_effect 1 0 one_requested Hs) as (Hkeep & _ & _).
  destruct Hkeep as [Hpeer Hothers].
  { exists 0%nat. split; [lia | left; reflexivity]. }
  split; [exact Hs|]. split; [exact Hpeer | apply Hothers; lia].
Defined.

(** C1 as stated fails: peers 0 and 1 both hold a candidate for txid 0;
    after the response of peer 1, the candidate of peer 0 still exists and
    [GetRequestable] for peer 0 returns txid 0. *)
Lemma received_response_keeps_candidates :
  reachable (H := demo_env) two_candidates /\
  m_state (ann_at two_candidates 0 1) = CANDIDATE /\
  m_state (ann_at (ReceivedResponse 1 0 two_candidates) 0 1) = COMPLETED /\
  m_state (ann_at (ReceivedResponse 1 0 two_candidates) 0 0) = CANDIDATE /\
  requestable (H := demo_env) 0 (ReceivedResponse 1 0 two_candidates)
  = [0%nat].
Proof.
  split; [apply reachable_two_candidates|]. by vm_compute.
Qed.

(** ** Completed announcements are not retained *)

(** C6. In every reachable state, a txid with a [COMPLETED] announcement
    also has a [CANDIDATE] or [REQUESTED] one: no txid is left with only
    [COMPLETED] announcements. So a txid with no candidate and no request
    has no announcement at all; the response that completes the last
    active announcement of a txid erases all its announcements at once;
    and [ReceivedInv] for such a txid creates a fresh [CANDIDATE] with the
    next sequence number. *)
Theorem completed_not_retained `{TrackerEnv} t :
  reachable t ->
  (forall txid p, m_state (ann_at t txid p) = COMPLETED ->
                  exists q, active (ann_at t txid q)) /\
  (forall txid, (forall q, ~ active (ann_at t txid q)) ->
                forall p, m_state (ann_at t txid p) = NOTHING) /\
  (forall peer txid,
     m_state (ann_at t txid peer) <> NOTHING ->
     (forall q, q <> peer -> ~ active (ann_at t txid q)) ->
     forall q, m_state (ann_at (ReceivedResponse peer txid t) txid q)
               = NOTHING) /\
  (forall peer txid is_wtxid preferred reqtime,
     (peer < MAX_PEERS)%nat -> (txid < MAX_TXIDS)%nat ->
     (forall q, ~ active (ann_at t txid q)) ->
     ann_at (ReceivedInv peer txid is_wtxid preferred reqtime t) txid peer
     = mkAnnouncement reqtime (m_current_sequence t) CANDIDATE preferred
         (ComputePriority (TXIDS txid) peer preferred)).
Proof.
  intros Hreach.
  assert (forall txid p, m_state (ann_at t txid p) = COMPLETED ->
                         exists q, active (ann_at t txid q)) as Hnac.
  { intros txid p Hp.
    assert (txid < MAX_TXIDS)%nat as Htxid.
    { rewrite <- (reachable_length t Hreach).
      apply (ann_at_exists t txid p). by rewrite Hp. }
    destruct (reachable_row_inv t txid Hreach Htxid) as (_ & _ & Hrow & _).
    by apply (Hrow p). }
  assert (forall txid, (forall q, ~ active (ann_at t txid q)) ->
                       forall p, m_state (ann_at t txid p) = NOTHING) as Hgone.
  { intros txid Hno p.
    destruct (m_state (ann_at t txid p)) eqn:Hp; try done.
    - destruct (Hno p). by left.
    - destruct (Hno p). by right.
    - destruct (Hnac txid p Hp) as [q Hq]. by destruct (Hno q). }
  split_and!; try done.
  - intros peer txid Hs Hothers.
    by apply (ReceivedResponse_erases peer txid t).
  - intros peer txid w b r Hpeer Htxid Hno.
    apply ann_at_ReceivedInv_new.
    + by rewrite (reachable_length t Hreach).
    + by destruct (reachable_row_inv t txid Hreach Htxid) as [-> _].
    + by apply Hgone.
Qed.

Lemma completed_not_retained_witness :
  reachable (H := demo_env) one_requested /\
  (forall q, m_state (ann_at (ReceivedResponse 1 0
                                (ReceivedResponse 0 0 one_requested)) 0 q)
             = NOTHING).
Proof.
  split; [apply reachable_one_requested|].
  assert (reachable (H := demo_env) (ReceivedResponse 0 0 one_requested))
    as Hreach.
  { apply (reachable_step (H := demo_env) (CallReceivedResponse 0 0));
      [apply reachable_one_requested
      | split; [unfold MAX_PEERS | unfold MAX_TXIDS]; lia]. }
  destruct (completed_not_retained (H := demo_env) _ Hreach)
    as (_ & _ & Herased & _).
  apply Herased; [vm_compute; discriminate|].
  intros q Hne [Hq|Hq].
  - do 17 (destruct q as [|q]; [vm_compute in Hq; first [discriminate | lia]|]).
    vm_compute in Hq. discriminate.
  - do 17 (destruct q as [|q]; [vm_compute in Hq; first [discriminate | lia]|]).
    vm_compute in Hq. discriminate.
Defined.

(** ** What [GetRequestable] selects *)

Lemma complete_overdue_keeps_unexpired now ann :
  now < m_time ann -> complete_overdue now ann = ann.
Proof.
  intros Ht. unfold complete_overdue.
  rewrite decide_False; [done | intros [_ ?]; lia].
Qed.

Lemma list_eq_cell (anns anns' : list Announcement) :
  length anns = length anns' ->
  (forall p, cell anns p = cell anns' p) -> anns = anns'.
Proof.
  intros Hlen Hcell. apply list_eq. intros p.
  destruct (decide (p < length anns)%nat) as [Hlt|Hge].
  - destruct (lookup_lt_is_Some_2 anns p Hlt) as [a Ha].
    destruct (lookup_lt_is_Some_2 anns' p) as [a' Ha']; [lia|].
    specialize (Hcell p).
    rewrite (cell_lookup _ _ _ Ha), (cell_lookup _ _ _ Ha') in Hcell.
    congruence.
  - rewrite !lookup_ge_None_2 by lia. done.
Qed.

Lemma expire_row_complete_overdue now anns :
  single_requested anns ->
  (expire_row now 0 anns).1 = complete_overdue now <$> anns.
Proof.
  intros Hsingle. apply list_eq_cell.
  - rewrite length_fmap. apply expire_row_fades.
  - intros p. rewrite cell_fmap.
    + by apply expire_row_single.
    + unfold complete_overdue. by rewrite decide_False by (by intros [? _]).
Qed.

(** A row with a candidate, or with a request that is not overdue, keeps
    all its announcements: the one overdue request, if any, is completed
    and nothing is erased. *)
Lemma GetRequestable_row_cells now anns :
  single_requested anns ->
  (exists q, active (cell anns q) /\ ~ overdue now (cell anns q)) ->
  forall p, cell (GetRequestable_row now anns) p
            = complete_overdue now (cell anns p).
Proof.
  intros Hsingle (q & Ha & Hq) p. unfold GetRequestable_row.
  rewrite Cleanup_row_active; [by apply expire_row_single|].
  exists q. destruct (expire_row_single now anns Hsingle) as [-> _].
  by rewrite decide_False.
Qed.


(** A request survives [GetRequestable] exactly when it is not overdue. *)
Lemma requested_GetRequestable_row now anns q :
  single_requested anns ->
  m_state (cell (GetRequestable_row now anns) q) = REQUESTED <->
  m_state (cell anns q) = REQUESTED /\ now < m_time (cell anns q).
Proof.
  intros Hsingle. split.
  - intros Hs.
    destruct (GetRequestable_row_fades now anns) as [_ Hf].
    destruct (Hf q) as (_ & _ & _ & _ & Hst).
    assert (m_state (cell anns q) = REQUESTED) as Hq
      by (destruct Hst as [Heq|[Heq|[Heq _]]]; congruence).
    split; [done|].
    destruct (decide (m_time (cell anns q) <= now)) as [Hle|Hgt]; [|lia].
    exfalso. unfold GetRequestable_row in Hs.
    destruct (row_fades_Cleanup (expire_row now 0 anns).1) as [_ Hc].
    destruct (Hc q) as (_ & _ & _ & _ & Hst').
    destruct (expire_row_single now anns Hsingle) as [Hcell _].
    rewrite Hcell, decide_True in Hst' by done. simpl in Hst'.
    destruct Hst' as [Heq|[Heq|[Heq _]]]; congruence.
  - intros [Hs Ht]. rewrite GetRequestable_row_cells; try done.
    + rewrite complete_overdue_keeps_unexpired; [done | lia].
    + exists q. split; [by right | intros [_ ?]; lia].
Qed.


Section selection.
Context `{TrackerEnv}.

(** [GetRequestable] returns a txid for [peer] exactly when, in the state
    it leaves, [GetSelected] picks [peer]: no announcement of the txid is
    [REQUESTED] and the candidate of [peer] is the first of the viable ones
    with the highest priority. *)
Lemma requestable_spec peer t txid :
  txid ∈ requestable peer t <->
  (txid < length (m_announcements t))%nat /\
  (forall q, m_state (ann_at (after_GetRequestable peer t) txid q)
             <> REQUESTED) /\
  viable (m_now t) (ann_at (after_GetRequestable peer t) txid peer) /\
  (forall j, (j < peer)%nat ->
             viable (m_now t) (ann_at (after_GetRequestable peer t) txid j) ->
             m_priority (ann_at (after_GetRequestable peer t) txid j)
             < m_priority (ann_at (after_GetRequestable peer t) txid peer)) /\
  (forall j, viable (m_now t) (ann_at (after_GetRequestable peer t) txid j) ->
             m_priority (ann_at (after_GetRequestable peer t) txid j)
             <= m_priority (ann_at (after_GetRequestable peer t) txid peer)).
Proof.
  rewrite elem_of_requestable, GetSelected_after_GetRequestable.
  rewrite GetSelected_row_spec.
  setoid_rewrite ann_at_after_GetRequestable.
  split.
  - intros (Hlt & _ & Hsel). done.
  - intros (Hlt & Hnone & Hv & Hbefore & Hmax). split_and!; try done.
    apply Hv.
Qed.



End selection.

#[global] Instance result_le_total : Total result_le.
Proof.
  intros [s x] [s' x']. unfold result_le. simpl.
  destruct (Z.lt_trichotomy s s') as [?|[->|?]]; [auto | | auto].
  destruct (Nat.le_ge_cases x x'); auto.
Qed.

Section selection_properties.
Context `{TrackerEnv}.


(** Under an oracle that orders the announcements of a txid totally, the
    rule for equal priorities never applies: for a reachable state the
    txids [GetRequestable] returns for [peer] are those for which, once
    overdue requests are expired, no announcement is [REQUESTED], [peer]
    holds a candidate with [m_time <= now], and no candidate of the txid
    with [m_time <= now] has a higher priority. *)
Lemma requestable_distinct_priorities peer t txid :
  priorities_distinct -> reachable t ->
  txid ∈ requestable peer t <->
  (txid < MAX_TXIDS)%nat /\
  (forall q, m_state (ann_at (after_GetRequestable peer t) txid q)
             <> REQUESTED) /\
  m_state (ann_at (after_GetRequestable peer t) txid peer) = CANDIDATE /\
  m_time (ann_at (after_GetRequestable peer t) txid peer) <= m_now t /\
  (forall q,
     m_state (ann_at (after_GetRequestable peer t) txid q) = CANDIDATE ->
     m_time (ann_at (after_GetRequestable peer t) txid q) <= m_now t ->
     m_priority (ann_at (after_GetRequestable peer t) txid q)
     <= m_priority (ann_at (after_GetRequestable peer t) txid peer)).
Proof.
  intros Hdistinct Hreach.
  rewrite requestable_spec, (reachable_length t Hreach).
  split.
  - intros (Htxid & Hnone & [Hs Ht] & _ & Hmax).
    split_and!; try done. intros q Hq Hq'. by apply Hmax.
  - intros (Htxid & Hnone & Hs & Ht & Hmax).
    split_and!; try done.
    + intros j Hj [Hjs Hjt].
      specialize (Hmax j Hjs Hjt).
      destruct (Z.eq_dec
                  (m_priority (ann_at (after_GetRequestable peer t) txid j))
                  (m_priority (ann_at (after_GetRequestable peer t) txid peer)))
        as [Heq|Hne]; [|lia].
      exfalso.
      pose proof (reachable_row_inv t txid Hreach Htxid) as Hrow.
      apply (row_inv_GetRequestable_row (m_now t)) in Hrow
        as (Hlen & _ & _ & Hcached).
      rewrite !ann_at_after_GetRequestable in *.
      rewrite (Hcached j), (Hcached peer) in Heq by congruence.
      apply Hdistinct in Heq; [lia | done | |].
      * rewrite <- Hlen. apply cell_lt. congruence.
      * rewrite <- Hlen. apply cell_lt. congruence.
    + intros j [Hjs Hjt]. by apply Hmax.
Qed.


(** C8, as amended. Readiness is not stored in the announcement: every
    [GetRequestable] compares the [m_time] of a candidate with the time of
    that call. A txid is returned for [peer] only if the candidate of
    [peer] has [m_time <= now]; with [now < m_time] it is not returned,
    whatever an earlier call at a later time returned. Changing the time
    changes no announcement. *)
Theorem readiness_follows_now peer txid t :
  (txid ∈ requestable peer t ->
   m_state (ann_at t txid peer) = CANDIDATE /\
   m_time (ann_at t txid peer) <= m_now t) /\
  (m_now t < m_time (ann_at t txid peer) -> txid ∉ requestable peer t) /\
  (forall offset,
     m_announcements (AdvanceTime offset t) = m_announcements t /\
     m_now (AdvanceTime offset t) = m_now t + offset).
Proof.
  assert (txid ∈ requestable peer t ->
          m_state (ann_at t txid peer) = CANDIDATE /\
          m_time (ann_at t txid peer) <= m_now t) as Hready.
  { intros (_ & _ & [Hs Ht] & _)%requestable_spec.
    rewrite ann_at_after_GetRequestable in Hs, Ht.
    destruct (GetRequestable_row_fades (m_now t)
                (row_at (m_announcements t) txid)) as [_ Hf].
    destruct (Hf peer) as (Htime & _ & _ & _ & Hst).
    unfold ann_at. split; [|by rewrite <- Htime].
    destruct Hst as [Heq|[Heq|[Heq _]]]; congruence. }
  split_and!; [done | | done].
  intros Hlt Hin. apply Hready in Hin as [_ Hle]. lia.
Qed.

End selection_properties.

(** ** Expiry and fallback *)

Lemma expire_requested_not_requested ann :
  m_state (expire_requested ann) <> REQUESTED.
Proof. unfold expire_requested. case_bool_decide; done. Qed.

Lemma expire_requested_candidate ann :
  m_state (expire_requested ann) = CANDIDATE ->
  expire_requested ann = ann /\ m_state ann = CANDIDATE.
Proof. unfold expire_requested. case_bool_decide; done. Qed.

Lemma expire_requested_keeps ann :
  m_state ann <> REQUESTED -> expire_requested ann = ann.
Proof. intros Hs. unfold expire_requested. by rewrite bool_decide_eq_false_2. Qed.

Lemma complete_overdue_keeps now ann :
  m_state ann <> REQUESTED -> complete_overdue now ann = ann.
Proof.
  intros Hs. unfold complete_overdue.
  rewrite decide_False; [done | by intros [? _]].
Qed.

Lemma m_now_RequestedTx peer txid exptime t :
  m_now (RequestedTx peer txid exptime t) = m_now t.
Proof. unfold RequestedTx. repeat case_bool_decide; done. Qed.

Section expiry_properties.
Context `{TrackerEnv}.

(** C4, as amended. In a reachable state, [GetRequestable] reports as
    expired exactly the (peer, txid) pairs whose announcement is
    [REQUESTED] with [m_time <= now]; it completes each of them and then
    runs [Cleanup] on every txid. In particular, after a [RequestedTx] for
    the candidate of [p1] with [exptime <= now], [GetRequestable] for
    another peer [p2] whose candidate is ready and has a higher priority
    than every other ready candidate of the txid returns the txid and
    reports (p1, txid) as expired. *)
Theorem get_requestable_expiry peer t :
  reachable t ->
  (forall p h,
     (p, h) ∈ expired peer t <->
     exists txid, (txid < MAX_TXIDS)%nat /\ h = TXIDS txid /\
                  m_state (ann_at t txid p) = REQUESTED /\
                  m_time (ann_at t txid p) <= m_now t) /\
  m_announcements (after_GetRequestable peer t)
  = (fun anns => Cleanup_row (complete_overdue (m_now t) <$> anns))
      <$> m_announcements t /\
  (forall p1 p2 txid exptime offset,
     m_state (ann_at t txid p1) = CANDIDATE ->
     p2 <> p1 ->
     m_state (ann_at t txid p2) = CANDIDATE ->
     m_time (ann_at t txid p2) <= m_now t + offset ->
     exptime <= m_now t + offset ->
     (forall q, q <> p1 -> q <> p2 ->
                m_state (ann_at t txid q) = CANDIDATE ->
                m_time (ann_at t txid q) <= m_now t + offset ->
                m_priority (ann_at t txid q) < m_priority (ann_at t txid p2)) ->
     txid ∈ requestable p2 (AdvanceTime offset (RequestedTx p1 txid exptime t))
     /\
     (p1, TXIDS txid)
       ∈ expired p2 (AdvanceTime offset (RequestedTx p1 txid exptime t))).
Proof.
  intros Hreach. split_and!.
  - intros p h. rewrite elem_of_expired, (reachable_length t Hreach).
    split.
    + intros (txid & Htxid & -> & He). exists txid.
      destruct (reachable_row_inv t txid Hreach Htxid) as (_ & Hsingle & _).
      apply (expire_row_single (m_now t) _ Hsingle) in He as [Hs Ht].
      done.
    + intros (txid & Htxid & -> & Hs & Ht). exists txid.
      destruct (reachable_row_inv t txid Hreach Htxid) as (_ & Hsingle & _).
      split_and!; try done.
      by apply (expire_row_single (m_now t) _ Hsingle).
  - rewrite after_GetRequestable_eq. cbn [m_announcements set_announcements].
    apply list_fmap_ext. intros txid anns Hrow. unfold GetRequestable_row.
    rewrite expire_row_complete_overdue; [done|].
    assert (txid < MAX_TXIDS)%nat as Htxid.
    { rewrite <- (reachable_length t Hreach). by eapply lookup_lt_Some. }
    destruct (reachable_row_inv t txid Hreach Htxid) as (_ & Hsingle & _).
    by rewrite (row_at_lookup _ _ _ Hrow) in Hsingle.
  - intros p1 p2 txid exptime offset Hp1 Hne Hp2 Hready Hexp Hbest.
    destruct (ann_at_exists t txid p1) as [Htxid Hpeer1]; [by rewrite Hp1|].
    pose proof Htxid as Htxid'. rewrite (reachable_length t Hreach) in Htxid'.
    pose proof (reachable_row_inv t txid Hreach Htxid') as Hrow.
    set (t1 := RequestedTx p1 txid exptime t).
    set (anns := row_at (m_announcements t) txid) in *.
    assert (row_at (m_announcements (AdvanceTime offset t1)) txid
            = RequestedTx_row p1 exptime anns) as Hrow2.
    { unfold AdvanceTime. cbn [m_announcements set_events set_now].
      subst t1. rewrite m_announcements_RequestedTx.
      rewrite bool_decide_eq_true_2 by done. by rewrite row_at_alter_eq. }
    assert (m_now (AdvanceTime offset t1) = m_now t + offset) as Hnow.
    { unfold AdvanceTime. cbn [m_now set_events set_now].
      subst t1. by rewrite m_now_RequestedTx. }
    assert (row_inv txid (RequestedTx_row p1 exptime anns)) as Hinv2
      by (by apply row_inv_RequestedTx_row).
    destruct Hinv2 as (_ & Hsingle2 & _).
    assert (forall q, cell (RequestedTx_row p1 exptime anns) q
                      = if decide (q = p1)
                        then set_time exptime (set_state REQUESTED (cell anns p1))
                        else expire_requested (cell anns q)) as Hcells
      by (intros q; by apply cell_RequestedTx_row).
    assert (cell (RequestedTx_row p1 exptime anns) p2 = cell anns p2) as Hc2.
    { rewrite Hcells, decide_False by done.
      apply expire_requested_keeps. unfold ann_at in Hp2. fold anns in Hp2.
      by rewrite Hp2. }
    assert (overdue (m_now t + offset)
              (cell (RequestedTx_row p1 exptime anns) p1)) as Hoverdue.
    { rewrite Hcells, decide_True by done. by split. }
    assert (forall q, cell (GetRequestable_row (m_now t + offset)
                              (RequestedTx_row p1 exptime anns)) q
                      = if decide (q = p1)
                        then set_state COMPLETED
                               (set_time exptime
                                  (set_state REQUESTED (cell anns p1)))
                        else expire_requested (cell anns q)) as Hafter.
    { intros q. rewrite GetRequestable_row_cells; [|done|].
      - rewrite Hcells. case_decide as Hq.
        + unfold complete_overdue. rewrite decide_True; [done|].
          by rewrite Hcells, decide_True in Hoverdue.
        + apply complete_overdue_keeps, expire_requested_not_requested.
      - exists p2. rewrite Hc2. unfold ann_at in Hp2. fold anns in Hp2.
        split; [by left | intros [? _]; congruence]. }
    assert (forall q, viable (m_now t + offset)
                        (cell (GetRequestable_row (m_now t + offset)
                                 (RequestedTx_row p1 exptime anns)) q) ->
                      q <> p1 /\ m_state (cell anns q) = CANDIDATE /\
                      m_time (cell anns q) <= m_now t + offset /\
                      cell (GetRequestable_row (m_now t + offset)
                              (RequestedTx_row p1 exptime anns)) q
                      = cell anns q) as Hviable.
    { intros q [Hs Ht]. rewrite Hafter in Hs, Ht. rewrite Hafter.
      case_decide as Hq; [done|].
      apply expire_requested_candidate in Hs as [Heq Hs].
      rewrite Heq in *. done. }
    assert (cell (GetRequestable_row (m_now t + offset)
                    (RequestedTx_row p1 exptime anns)) p2 = cell anns p2)
      as Hafter2.
    { rewrite Hafter, decide_False by done.
      apply expire_requested_keeps. unfold ann_at in Hp2. fold anns in Hp2.
      by rewrite Hp2. }
    split.
    + apply requestable_spec.
      setoid_rewrite ann_at_after_GetRequestable.
      rewrite Hnow, Hrow2.
      split_and!.
      * unfold AdvanceTime. cbn [m_announcements set_events set_now].
        subst t1. rewrite m_announcements_RequestedTx.
        rewrite bool_decide_eq_true_2 by done. by rewrite length_alter.
      * intros q. rewrite Hafter. case_decide; [done|].
        apply expire_requested_not_requested.
      * rewrite Hafter2. by split.
      * intros j Hj Hv. apply Hviable in Hv as (Hj1 & Hjs & Hjt & ->).
        rewrite Hafter2. apply Hbest; try done. lia.
      * intros j Hv. apply Hviable in Hv as (Hj1 & Hjs & Hjt & ->).
        rewrite Hafter2.
        destruct (decide (j = p2)) as [->|Hj2]; [lia|].
        apply Z.lt_le_incl. by apply Hbest.
    + apply elem_of_expired. exists txid. rewrite Hnow, Hrow2.
      split_and!; try done.
      * unfold AdvanceTime. cbn [m_announcements set_events set_now].
        subst t1. rewrite m_announcements_RequestedTx.
        rewrite bool_decide_eq_true_2 by done. by rewrite length_alter.
      * by apply (expire_row_single _ _ Hsingle2).
Qed.

End expiry_properties.

(** ** The counters *)

Lemma foldl_count {A} (P : Announcement -> Prop)
    `{forall ann, Decision (P ann)} (f : A -> Announcement) (l : list A) :
  forall n,
    foldl (fun acc x => (acc + Nat.b2n (bool_decide (P (f x))))%nat) n l
    = (n + count_where P (f <$> l))%nat.
Proof.
  unfold count_where.
  induction l as [| x l IH]; intros n; [simpl; lia|].
  cbn [foldl]. rewrite IH, fmap_cons, filter_cons.
  case_bool_decide; destruct (decide (P (f x))); try done; simpl; lia.
Qed.

Lemma foldl_sum {A} (g : A -> nat) (l : list A) :
  forall n, foldl (fun acc x => (acc + g x)%nat) n l
            = (n + sum_list (g <$> l))%nat.
Proof.
  induction l as [| x l IH]; intros n; [simpl; lia|].
  cbn [foldl]. rewrite IH, fmap_cons. simpl. lia.
Qed.

Lemma count_where_split (anns : list Announcement) :
  (count_where (fun ann => m_state ann = REQUESTED) anns
   + count_where (fun ann => m_state ann = CANDIDATE) anns
   <= count_where (fun ann => m_state ann <> NOTHING) anns)%nat.
Proof.
  unfold count_where. induction anns as [| ann anns IH]; [done|].
  rewrite !filter_cons.
  destruct (m_state ann) eqn:Hs; repeat case_decide; try done; simpl; lia.
Qed.

Lemma sum_list_plus {A} (g h : A -> nat) (l : list A) :
  sum_list ((fun x => (g x + h x)%nat) <$> l)
  = (sum_list (g <$> l) + sum_list (h <$> l))%nat.
Proof. induction l as [| x l IH]; [done|]. rewrite !fmap_cons. simpl. lia. Qed.

Lemma sum_list_zero {A} (l : list A) :
  sum_list ((fun _ => 0%nat) <$> l) = 0%nat.
Proof. induction l as [| x l IH]; [done|]. by rewrite fmap_cons. Qed.

Lemma sum_list_swap {A B} (f : A -> B -> nat) (l1 : list A) (l2 : list B) :
  sum_list ((fun x => sum_list (f x <$> l2)) <$> l1)
  = sum_list ((fun y => sum_list ((fun x => f x y) <$> l1)) <$> l2).
Proof.
  induction l1 as [| x l1 IH].
  - simpl. by rewrite sum_list_zero.
  - rewrite fmap_cons.
    change (sum_list (f x <$> l2)
            + sum_list ((fun x => sum_list (f x <$> l2)) <$> l1)
            = sum_list ((fun y => f x y + sum_list ((fun x => f x y) <$> l1))
                          <$> l2))%nat.
    by rewrite IH, <- sum_list_plus.
Qed.

Lemma count_where_cells (P : Announcement -> Prop)
    `{forall ann, Decision (P ann)} (anns : list Announcement) :
  count_where P anns
  = sum_list ((fun p => Nat.b2n (bool_decide (P (cell anns p))))
                <$> seq 0 (length anns)).
Proof.
  unfold count_where.
  induction anns as [| ann anns IH]; [done|].
  cbn [length seq]. rewrite fmap_cons, filter_cons, <- fmap_S_seq.
  rewrite <- list_fmap_compose. cbn [sum_list]. rewrite cell_cons_0.
  change (sum_list _) with (sum_list
            ((fun p => Nat.b2n (bool_decide (P (cell anns p))))
               <$> seq 0 (length anns))).
  rewrite <- IH. unfold id.
  case_bool_decide; destruct (decide (P ann)); done.
Qed.

Lemma count_where_concat (P : Announcement -> Prop)
    `{forall ann, Decision (P ann)} (tbl : list (list Announcement)) :
  count_where P (concat tbl) = sum_list (count_where P <$> tbl).
Proof.
  unfold count_where. induction tbl as [| anns tbl IH]; [done|].
  rewrite fmap_cons. cbn [concat sum_list].
  by rewrite filter_app, length_app, IH.
Qed.

(** C10. The accessors are consistent with the announcements: for every
    peer, [Count] is the number of its existing announcements,
    [CountInFlight] the number of its [REQUESTED] ones and
    [CountCandidates] the number of its candidates, so that
    [CountInFlight + CountCandidates <= Count]; [Size] is the sum of
    [Count] over all peers, and in a reachable state it is the number of
    announcements in the table. *)
Theorem accessors_consistent `{TrackerEnv} t :
  (forall peer,
     Count t peer
     = count_where (fun ann => m_state ann <> NOTHING)
                   (announcements_of t peer) /\
     CountInFlight t peer
     = count_where (fun ann => m_state ann = REQUESTED)
                   (announcements_of t peer) /\
     CountCandidates t peer
     = count_where (fun ann => m_state ann = CANDIDATE)
                   (announcements_of t peer) /\
     (CountInFlight t peer + CountCandidates t peer <= Count t peer)%nat) /\
  Size t = sum_list (Count t <$> seq 0 MAX_PEERS) /\
  (reachable t ->
   Size t = count_where (fun ann => m_state ann <> NOTHING)
                        (concat (m_announcements t))).
Proof.
  assert (forall peer,
            Count t peer
            = count_where (fun ann => m_state ann <> NOTHING)
                          (announcements_of t peer)) as Hcount.
  { intros peer. unfold Count, Check_tracked, announcements_of.
    exact (foldl_count (fun ann => m_state ann <> NOTHING)
                       (fun txid => ann_at t txid peer) _ 0%nat). }
  assert (forall peer,
            CountInFlight t peer
            = count_where (fun ann => m_state ann = REQUESTED)
                          (announcements_of t peer)) as Hinflight.
  { intros peer. unfold CountInFlight, Check_inflight, announcements_of.
    exact (foldl_count (fun ann => m_state ann = REQUESTED)
                       (fun txid => ann_at t txid peer) _ 0%nat). }
  assert (forall peer,
            CountCandidates t peer
            = count_where (fun ann => m_state ann = CANDIDATE)
                          (announcements_of t peer)) as Hcandidates.
  { intros peer. unfold CountCandidates, Check_candidates, announcements_of.
    exact (foldl_count (fun ann => m_state ann = CANDIDATE)
                       (fun txid => ann_at t txid peer) _ 0%nat). }
  assert (Size t = sum_list (Count t <$> seq 0 MAX_PEERS)) as Hsize.
  { unfold Size, Check_total, Count.
    exact (foldl_sum (Check_tracked t) _ 0%nat). }
  split_and!; try done.
  - intros peer. split_and!; try done.
    rewrite Hcount, Hinflight, Hcandidates. apply count_where_split.
  - intros Hreach. rewrite Hsize, count_where_concat.
    pose proof (reachable_inv t Hreach) as [Hlen Hrows].
    transitivity
      (sum_list
         ((fun peer =>
             sum_list ((fun txid =>
                          Nat.b2n (bool_decide
                                     (m_state (ann_at t txid peer) <> NOTHING)))
                         <$> seq 0 MAX_TXIDS))
            <$> seq 0 MAX_PEERS)).
    { apply (f_equal sum_list), list_fmap_ext. intros _ peer _.
      unfold Count, Check_tracked.
      exact (foldl_sum
               (fun txid =>
                  Nat.b2n (bool_decide
                             (m_state (ann_at t txid peer) <> NOTHING)))
               _ 0%nat). }
    rewrite (sum_list_swap
               (fun peer txid =>
                  Nat.b2n (bool_decide
                             (m_state (ann_at t txid peer) <> NOTHING)))).
    rewrite <- Hlen.
    transitivity
      (sum_list ((fun txid =>
                    count_where (fun ann => m_state ann <> NOTHING)
                                (row_at (m_announcements t) txid))
                   <$> seq 0 (length (m_announcements t)))).
    { apply (f_equal sum_list), list_fmap_ext. intros i txid Hi.
      apply lookup_seq in Hi as [-> Hi]. simpl.
      destruct (Hrows i) as [Hrow _]; [lia|].
      rewrite count_where_cells, Hrow. done. }
    apply (f_equal sum_list), list_eq. intros i.
    rewrite !list_lookup_fmap.
    destruct (decide (i < length (m_announcements t))%nat) as [Hi|Hi].
    + rewrite lookup_seq_lt by done. simpl.
      destruct (lookup_lt_is_Some_2 _ _ Hi) as [anns Hanns].
      by rewrite Hanns, (row_at_lookup _ _ _ Hanns).
    + rewrite lookup_seq_ge by lia.
      by rewrite lookup_ge_None_2 by lia.
Qed.

Lemma accessors_consistent_witness :
  reachable (H := demo_env) one_requested /\
  Size one_requested = 2%nat /\
  count_where (fun ann => m_state ann <> NOTHING)
              (concat (m_announcements one_requested)) = 2%nat.
Proof.
  destruct (accessors_consistent (H := demo_env) one_requested)
    as (_ & _ & Htotal).
  split; [apply reachable_one_requested|]. split; [reflexivity|].
  rewrite <- (Htotal reachable_one_requested). reflexivity.
Defined.

(** ** Selection, expiry and readiness on the scenarios *)

Lemma demo_priorities_distinct : priorities_distinct (H := demo_env).
Proof.
  intros txid p q b c _ Hp Hq. unfold MAX_PEERS in *. simpl.
  change (2 ^ 63) with 9223372036854775808.
  destruct b, c; lia.
Qed.




(** C4 as stated fails in its fallback part: peers 0, 1 and 2 hold ready
    candidates for txid 0 and peer 2 has the highest priority. After the
    request to peer 0 expired, [GetRequestable] for peer 1 reports the
    expiry but does not return txid 0, which goes to peer 2. *)
Lemma fallback_goes_to_best_candidate :
  reachable (H := demo_env) three_candidates /\
  m_state (ann_at three_candidates 0 0) = CANDIDATE /\
  m_state (ann_at three_candidates 0 1) = CANDIDATE /\
  m_time (ann_at three_candidates 0 1) <= m_now three_candidates + 5 /\
  requestable (H := demo_env) 1
    (AdvanceTime 5 (RequestedTx 0 0 244466671 three_candidates)) = [] /\
  expired (H := demo_env) 1
    (AdvanceTime 5 (RequestedTx 0 0 244466671 three_candidates)) = [(0%nat, 0)] /\
  requestable (H := demo_env) 2
    (AdvanceTime 5 (RequestedTx 0 0 244466671 three_candidates)) = [0%nat].
Proof.
  split; [apply reachable_three_candidates|].
  split_and!; try reflexivity. vm_compute. discriminate.
Qed.

Lemma get_requestable_expiry_witness :
  reachable (H := demo_env) three_candidates /\
  (0%nat ∈ requestable (H := demo_env) 2
     (AdvanceTime 5 (RequestedTx 0 0 244466671 three_candidates))) /\
  ((0%nat, TXIDS (TrackerEnv := demo_env) 0)
     ∈ expired (H := demo_env) 2
         (AdvanceTime 5 (RequestedTx 0 0 244466671 three_candidates))).
Proof.
  split; [apply reachable_three_candidates|].
  destruct (get_requestable_expiry (H := demo_env) 2 three_candidates
              reachable_three_candidates) as (_ & _ & Hfallback).
  apply (Hfallback 0%nat 2%nat 0%nat 244466671 5).
  - reflexivity.
  - lia.
  - reflexivity.
  - vm_compute. discriminate.
  - vm_compute. discriminate.
  - intros q Hq0 Hq2 Hq _.
    destruct q as [|q]; [lia|].
    destruct q as [|q]; [vm_compute; reflexivity|].
    destruct q as [|q]; [lia|].
    do 14 (destruct q as [|q]; [vm_compute in Hq; discriminate|]).
    vm_compute in Hq. discriminate.
Defined.

(** C8 as stated fails: peer 0 announces txid 0 with a delay of 5us; 5us
    later [GetRequestable] returns the txid; after the time moved back by
    1us, the announcement is still the same candidate and [GetRequestable]
    returns nothing. *)
Lemma ready_candidate_is_delayed_again :
  reachable (H := demo_env) delayed_then_ready /\
  m_time (ann_at delayed_then_ready 0 0) = 244466671 /\
  m_now delayed_then_ready = 244466671 /\
  requestable (H := demo_env) 0 delayed_then_ready = [0%nat] /\
  m_now (AdvanceTime (-1)
           (after_GetRequestable (H := demo_env) 0 delayed_then_ready))
  = 244466670 /\
  ann_at (AdvanceTime (-1)
            (after_GetRequestable (H := demo_env) 0 delayed_then_ready)) 0 0
  = ann_at delayed_then_ready 0 0 /\
  requestable (H := demo_env) 0
    (AdvanceTime (-1)
       (after_GetRequestable (H := demo_env) 0 delayed_then_ready)) = [].
Proof.
  split; [apply reachable_delayed_then_ready|]. by vm_compute.
Qed.

Lemma readiness_follows_now_witness :
  m_now (AdvanceTime (-1) delayed_then_ready)
  < m_time (ann_at (AdvanceTime (-1) delayed_then_ready) 0 0) /\
  ~ (0%nat ∈ requestable (H := demo_env) 0
               (AdvanceTime (-1) delayed_then_ready)).
Proof.
  assert (m_now (AdvanceTime (-1) delayed_then_ready)
          < m_time (ann_at (AdvanceTime (-1) delayed_then_ready) 0 0)) as Hlt
    by reflexivity.
  split; [exact Hlt|].
  by apply (readiness_follows_now (H := demo_env) 0 0
              (AdvanceTime (-1) delayed_then_ready)).
Defined.

(** * Further properties of the tester *)

(** ** [GetSelected] *)

(** X1. [GetSelected] returns -1 exactly when an announcement of the txid is
    [REQUESTED] or no candidate is viable; it returns [peer] exactly when
    nothing is [REQUESTED] and the candidate of [peer] is viable, beats
    every viable candidate of a lower peer strictly and is not beaten by
    any other: among equal priorities the lowest peer wins. The result is
    always -1 or the index of a peer of the row. *)
Theorem GetSelected_characterization txhash t :
  (GetSelected txhash t = -1 <->
   (exists q, m_state (ann_at t txhash q) = REQUESTED) \/
   (forall q, ~ viable (m_now t) (ann_at t txhash q))) /\
  (forall peer,
     GetSelected txhash t = Z.of_nat peer <->
     (forall q, m_state (ann_at t txhash q) <> REQUESTED) /\
     viable (m_now t) (ann_at t txhash peer) /\
     (forall j, (j < peer)%nat -> viable (m_now t) (ann_at t txhash j) ->
                m_priority (ann_at t txhash j)
                < m_priority (ann_at t txhash peer)) /\
     (forall j, viable (m_now t) (ann_at t txhash j) ->
                m_priority (ann_at t txhash j)
                <= m_priority (ann_at t txhash peer))) /\
  (GetSelected txhash t = -1 \/
   exists peer, (peer < length (row_at (m_announcements t) txhash))%nat /\
                GetSelected txhash t = Z.of_nat peer).
Proof.
  unfold GetSelected, ann_at.
  set (anns := row_at (m_announcements t) txhash). set (now := m_now t).
  assert (Exists (fun ann => m_state ann = REQUESTED) anns <->
          exists q, m_state (cell anns q) = REQUESTED) as Hex.
  { rewrite Exists_exists. split.
    - intros (ann & [q Hq]%list_elem_of_lookup & Hs). exists q.
      by rewrite (cell_lookup _ _ _ Hq).
    - intros [q Hs]. exists (cell anns q). split; [|done].
      apply list_elem_of_lookup. exists q. apply cell_exists. by rewrite Hs. }
  assert (GetSelected_row now anns = -1 \/
          exists peer, (peer < length anns)%nat /\
                       GetSelected_row now anns = Z.of_nat peer) as Hrange.
  { destruct (decide (Exists (fun ann => m_state ann = REQUESTED) anns))
      as [Hreq|Hno].
    { left. by apply GetSelected_loop_requested. }
    assert (Forall (fun ann => m_state ann <> REQUESTED) anns) as Hall.
    { apply Forall_forall. intros ann Hin Hs. apply Hno, Exists_exists. eauto. }
    destruct (GetSelected_loop_spec now anns 0 (-1) 0 Hall)
      as [[Hr _] | (i & Hr & [Hi _] & _)]; [by left|].
    right. exists i. split; [apply cell_lt; by rewrite Hi | done]. }
  split_and!; [| intros peer; apply GetSelected_row_spec | done].
  split.
  - intros Hsel.
    destruct (decide (Exists (fun ann => m_state ann = REQUESTED) anns))
      as [Hreq|Hno]; [left; by apply Hex|].
    right. intros q Hq.
    assert (Forall (fun ann => m_state ann <> REQUESTED) anns) as Hall.
    { apply Forall_forall. intros ann Hin Hs. apply Hno, Exists_exists. eauto. }
    destruct (GetSelected_loop_spec now anns 0 (-1) 0 Hall)
      as [[_ Hnone] | (i & Hr & _)].
    + by destruct (Hnone q Hq).
    + unfold GetSelected_row in Hsel. lia.
  - intros [Hreq%Hex | Hnone]; [by apply GetSelected_loop_requested|].
    destruct Hrange as [Hr | (peer & _ & Hr)]; [done|].
    apply GetSelected_row_viable in Hr. by destruct (Hnone peer).
Qed.

Lemma GetSelected_characterization_witness :
  GetSelected 0 two_candidates = 1 /\ GetSelected 0 one_requested = -1.
Proof.
  destruct (GetSelected_characterization 0 one_requested) as ([_ Hnone] & _).
  split; [reflexivity|]. apply Hnone. left. exists 1%nat. reflexivity.
Defined.

(** ** [GetRequestable] *)

Section get_requestable_properties.
Context `{TrackerEnv}.

Lemma GetRequestable_loop_expired_peer now p q rows : forall txid,
  (GetRequestable_loop now p txid rows).2
  = (GetRequestable_loop now q txid rows).2.
Proof.
  induction rows as [| anns rest IH]; intros txid; [done|].
  rewrite !GetRequestable_loop_cons. simpl. by rewrite IH.
Qed.

(** X2. A txid is returned for at most one peer: two peers that both get the
    txid from [GetRequestable] in the same state are the same peer. The
    state [GetRequestable] leaves and the expired requests it reports do
    not depend on the peer it is called for. *)
Theorem GetRequestable_one_peer p q t :
  (forall txid, txid ∈ requestable p t -> txid ∈ requestable q t -> p = q) /\
  after_GetRequestable p t = after_GetRequestable q t /\
  expired p t = expired q t.
Proof.
  split_and!.
  - intros txid (_ & _ & Hp)%elem_of_requestable
                (_ & _ & Hq)%elem_of_requestable.
    rewrite GetSelected_after_GetRequestable in Hp, Hq. lia.
  - by rewrite !after_GetRequestable_eq.
  - unfold expired, GetRequestable.
    pose proof (GetRequestable_loop_expired_peer (m_now t) p q
                  (m_announcements t) 0) as Heq.
    destruct (GetRequestable_loop (m_now t) p 0 (m_announcements t))
      as [[rows1 r1] ex1].
    destruct (GetRequestable_loop (m_now t) q 0 (m_announcements t))
      as [[rows2 r2] ex2]. simpl in *. by rewrite Heq.
Qed.

End get_requestable_properties.

Lemma GetRequestable_one_peer_witness :
  (0%nat ∈ requestable (H := demo_env) 1 two_candidates) /\ (1 = 1)%nat.
Proof.
  assert (0%nat ∈ requestable (H := demo_env) 1 two_candidates) as Hin
    by (vm_compute; apply list_elem_of_here).
  split; [exact Hin|].
  destruct (GetRequestable_one_peer (H := demo_env) 1 1 two_candidates)
    as (Hone & _ & _).
  exact (Hone 0%nat Hin Hin).
Defined.

Lemma Cleanup_row_idempotent anns :
  Cleanup_row (Cleanup_row anns) = Cleanup_row anns.
Proof.
  destruct (Cleanup_row_cases anns) as [[Hex ->]|[Hno ->]].
  - by apply Cleanup_row_active.
  - rewrite Cleanup_row_inactive.
    + rewrite <- list_fmap_compose. by apply list_fmap_ext.
    + intros q. rewrite cell_fmap by done. unfold active. simpl.
      intros [?|?]; done.
Qed.

Lemma GetRequestable_row_no_overdue now anns q :
  single_requested anns ->
  ~ overdue now (cell (GetRequestable_row now anns) q).
Proof.
  intros Hsingle [Hs Ht].
  apply (requested_GetRequestable_row _ _ _ Hsingle) in Hs as [_ Hlt].
  destruct (GetRequestable_row_fades now anns) as [_ Hf].
  destruct (Hf q) as (Htime & _). lia.
Qed.

Lemma expire_row_no_overdue now anns :
  (forall q, ~ overdue now (cell anns q)) ->
  expire_row now 0 anns = (anns, None).
Proof.
  intros Hnone. pose proof (expire_row_spec now anns 0) as Hspec.
  destruct (expire_row now 0 anns) as [anns' [p|]]; simpl in *.
  - destruct Hspec as (i & _ & Hi & _). by destruct (Hnone i).
  - by destruct Hspec as [_ ->].
Qed.

Lemma GetRequestable_row_idempotent now anns :
  single_requested anns ->
  GetRequestable_row now (GetRequestable_row now anns)
  = GetRequestable_row now anns.
Proof.
  intros Hsingle. unfold GetRequestable_row at 1.
  rewrite expire_row_no_overdue
    by (intros q; by apply GetRequestable_row_no_overdue).
  apply Cleanup_row_idempotent.
Qed.

Section get_requestable_again.
Context `{TrackerEnv}.

Lemma GetRequestable_loop_again now peer rows : forall txid,
  Forall single_requested rows ->
  (GetRequestable_loop now peer txid (GetRequestable_row now <$> rows)).1.2
  = (GetRequestable_loop now peer txid rows).1.2 /\
  (GetRequestable_loop now peer txid (GetRequestable_row now <$> rows)).2 = [].
Proof.
  induction rows as [| anns rest IH]; intros txid Hall; [done|].
  apply Forall_cons in Hall as [Hsingle Hall].
  rewrite fmap_cons, !GetRequestable_loop_cons. cbn [fst snd].
  destruct (IH (S txid) Hall) as [-> ->].
  unfold result_of_row, expired_of_row.
  rewrite GetRequestable_row_idempotent by done.
  rewrite expire_row_no_overdue
    by (intros q; by apply GetRequestable_row_no_overdue).
  done.
Qed.

Lemma reachable_rows_single_requested t :
  reachable t -> Forall single_requested (m_announcements t).
Proof.
  intros Hreach. apply Forall_lookup. intros txid anns Hrow.
  assert (txid < MAX_TXIDS)%nat as Htxid.
  { rewrite <- (reachable_length t Hreach). by eapply lookup_lt_Some. }
  destruct (reachable_row_inv t txid Hreach Htxid) as (_ & Hsingle & _).
  by rewrite (row_at_lookup _ _ _ Hrow) in Hsingle.
Qed.

(** X3. In a reachable state, [GetRequestable] leaves no request that is
    overdue: every announcement that is still [REQUESTED] expires after
    the time of the call. *)
Theorem GetRequestable_leaves_no_overdue peer t txid q :
  reachable t ->
  m_state (ann_at (after_GetRequestable peer t) txid q) = REQUESTED ->
  m_now t < m_time (ann_at (after_GetRequestable peer t) txid q).
Proof.
  intros Hreach Hs. rewrite ann_at_after_GetRequestable in *.
  destruct (ann_at_exists (after_GetRequestable peer t) txid q) as [Htxid _].
  { rewrite ann_at_after_GetRequestable. by rewrite Hs. }
  rewrite after_GetRequestable_eq in Htxid.
  cbn [m_announcements set_announcements] in Htxid.
  rewrite length_fmap, (reachable_length t Hreach) in Htxid.
  destruct (reachable_row_inv t txid Hreach Htxid) as (_ & Hsingle & _).
  destruct (decide (m_time (cell (GetRequestable_row (m_now t)
                                    (row_at (m_announcements t) txid)) q)
                    <= m_now t)) as [Hle|Hgt]; [|lia].
  by destruct (GetRequestable_row_no_overdue (m_now t) _ q Hsingle).
Qed.

(** X4. In a reachable state, a second [GetRequestable] at the same time, for
    any peer, changes nothing more: the state is the one the first call
    left, no request is reported as expired, and the txids returned for a
    peer are those a first call for that peer would have returned. *)
Theorem GetRequestable_again p q t :
  reachable t ->
  after_GetRequestable q (after_GetRequestable p t)
  = after_GetRequestable p t /\
  expired q (after_GetRequestable p t) = [] /\
  requestable q (after_GetRequestable p t) = requestable q t.
Proof.
  intros Hreach.
  pose proof (reachable_rows_single_requested t Hreach) as Hall.
  pose proof (GetRequestable_loop_again (m_now t) q (m_announcements t) 0 Hall)
    as [Hresult Hexpired].
  split_and!.
  - rewrite (after_GetRequestable_eq q), (after_GetRequestable_eq p).
    unfold set_announcements. cbn [m_announcements m_now m_events
                                    m_current_sequence].
    f_equal. rewrite <- list_fmap_compose.
    apply Forall_fmap_ext_1. eapply Forall_impl; [exact Hall|].
    intros anns Hsingle. by apply GetRequestable_row_idempotent.
  - unfold expired, GetRequestable. rewrite (after_GetRequestable_eq p).
    cbn [m_announcements set_announcements m_now].
    destruct (GetRequestable_loop (m_now t) q 0
                (GetRequestable_row (m_now t) <$> m_announcements t))
      as [[rows r] ex]. simpl in *. by rewrite Hexpired.
  - unfold requestable, GetRequestable. rewrite (after_GetRequestable_eq p).
    cbn [m_announcements set_announcements m_now].
    destruct (GetRequestable_loop (m_now t) q 0
                (GetRequestable_row (m_now t) <$> m_announcements t))
      as [[rows r] ex].
    destruct (GetRequestable_loop (m_now t) q 0 (m_announcements t))
      as [[rows' r'] ex']. simpl in *. by rewrite Hresult.
Qed.

End get_requestable_again.

Lemma GetRequestable_leaves_no_overdue_witness :
  reachable (H := demo_env) one_requested /\
  m_now one_requested
  < m_time (ann_at (after_GetRequestable (H := demo_env) 0 one_requested) 0 1).
Proof.
  split; [apply reachable_one_requested|].
  apply (GetRequestable_leaves_no_overdue (H := demo_env) 0 one_requested 0 1);
    [apply reachable_one_requested | reflexivity].
Defined.

Lemma GetRequestable_again_witness :
  reachable (H := demo_env) (AdvanceTime 5 one_requested) /\
  expired (H := demo_env) 0 (AdvanceTime 5 one_requested) = [(1%nat, 0)] /\
  expired (H := demo_env) 1
    (after_GetRequestable (H := demo_env) 0 (AdvanceTime 5 one_requested))
  = [].
Proof.
  assert (reachable (H := demo_env) (AdvanceTime 5 one_requested)) as Hreach.
  { apply (reachable_step (H := demo_env) (CallAdvanceTime 5));
      [apply reachable_one_requested | exact I]. }
  split; [exact Hreach|]. split; [reflexivity|].
  apply (GetRequestable_again (H := demo_env) 0 1 _ Hreach).
Defined.

(** ** [Cleanup], [DisconnectedPeer] and [ForgetTxId] *)

Lemma alter_fixed (f : list Announcement -> list Announcement) txid
    (tbl : list (list Announcement)) :
  f (row_at tbl txid) = row_at tbl txid -> alter f txid tbl = tbl.
Proof.
  intros Hf. apply list_eq. intros i.
  destruct (decide (txid = i)) as [<-|Hne];
    [|by rewrite list_lookup_alter_ne].
  rewrite list_lookup_alter_eq. unfold row_at in Hf.
  destruct (tbl !! txid); simpl in *; [by rewrite Hf | done].
Qed.

Lemma set_announcements_same t : set_announcements (m_announcements t) t = t.
Proof. by destruct t. Qed.

Lemma ann_at_with_row f txid t txid' q :
  f [] = [] ->
  ann_at (with_row txid f t) txid' q
  = if decide (txid = txid') then cell (f (row_at (m_announcements t) txid)) q
    else ann_at t txid' q.
Proof.
  intros Hnil. case_decide as Heq; [subst txid'|by apply ann_at_with_row_ne].
  destruct (decide (txid < length (m_announcements t))%nat) as [Hlt|Hge].
  - by apply ann_at_with_row_eq.
  - unfold ann_at, with_row, row_at.
    cbn [m_announcements set_announcements].
    rewrite list_lookup_alter_eq.
    rewrite (lookup_ge_None_2 (m_announcements t) txid) by lia. simpl.
    by rewrite Hnil.
Qed.

(** X5. [Cleanup] changes nothing when an announcement of the txid is a
    [CANDIDATE] or [REQUESTED], and otherwise leaves the txid without any
    announcement; it never touches another txid, and running it twice is
    the same as running it once. *)
Theorem Cleanup_effect txid t :
  ((exists q, active (ann_at t txid q)) -> Cleanup txid t = t) /\
  ((forall q, ~ active (ann_at t txid q)) ->
   forall q, m_state (ann_at (Cleanup txid t) txid q) = NOTHING) /\
  (forall txid' q, txid' <> txid ->
                   ann_at (Cleanup txid t) txid' q = ann_at t txid' q) /\
  Cleanup txid (Cleanup txid t) = Cleanup txid t.
Proof.
  unfold Cleanup. split_and!.
  - intros Hex. unfold with_row.
    rewrite alter_fixed; [apply set_announcements_same|].
    by apply Cleanup_row_active.
  - intros Hno q. rewrite ann_at_with_row, decide_True by done.
    rewrite Cleanup_row_inactive by done. by rewrite cell_fmap.
  - intros txid' q Hne. by rewrite ann_at_with_row, decide_False.
  - unfold with_row, set_announcements.
    cbn [m_announcements m_now m_events m_current_sequence]. f_equal.
    apply alter_fixed.
    destruct (decide (txid < length (m_announcements t))%nat) as [Hlt|Hge].
    + rewrite row_at_alter_eq by done. apply Cleanup_row_idempotent.
    + unfold row_at. rewrite list_lookup_alter_eq.
      by rewrite (lookup_ge_None_2 (m_announcements t) txid) by lia.
Qed.

Lemma Cleanup_effect_witness :
  (exists q, active (ann_at one_requested 0 q)) /\
  Cleanup 0 one_requested = one_requested.
Proof.
  assert (exists q, active (ann_at one_requested 0 q)) as Hex
    by (exists 0%nat; left; reflexivity).
  split; [exact Hex|]. by apply (Cleanup_effect 0 one_requested).
Defined.

Lemma DisconnectedPeer_row_peer peer anns :
  m_state (cell (DisconnectedPeer_row peer anns) peer) = NOTHING.
Proof.
  unfold DisconnectedPeer_row. case_bool_decide as Hs.
  - destruct (row_fades_Cleanup (alter (set_state NOTHING) peer anns))
      as [_ Hf].
    destruct (Hf peer) as (_ & _ & _ & _ & Hst).
    rewrite cell_alter_eq in Hst by (by apply cell_lt). simpl in Hst.
    destruct Hst as [?|[?|[_ ?]]]; done.
  - by destruct (m_state (cell anns peer)).
Qed.

Lemma DisconnectedPeer_row_others peer anns q :
  q <> peer -> active (cell anns q) ->
  cell (DisconnectedPeer_row peer anns) q = cell anns q.
Proof.
  intros Hne Ha. unfold DisconnectedPeer_row. case_bool_decide; [|done].
  rewrite Cleanup_row_active; [by rewrite cell_alter_ne|].
  exists q. by rewrite cell_alter_ne.
Qed.

Lemma ann_at_DisconnectedPeer peer t txid q :
  ann_at (DisconnectedPeer peer t) txid q
  = cell (DisconnectedPeer_row peer (row_at (m_announcements t) txid)) q.
Proof.
  unfold ann_at, DisconnectedPeer. cbn [m_announcements set_announcements].
  by rewrite row_at_fmap.
Qed.

Lemma count_where_none {A} (P : Announcement -> Prop)
    `{forall ann, Decision (P ann)} (f : A -> Announcement) (l : list A) :
  (forall x, ~ P (f x)) -> count_where P (f <$> l) = 0%nat.
Proof.
  intros Hno. unfold count_where. induction l as [| x l IH]; [done|].
  rewrite fmap_cons, filter_cons. by rewrite decide_False.
Qed.

(** X6. After [DisconnectedPeer], the peer has no announcement left and the
    counter [Check] computes for it is zero; the candidates and requests
    of the other peers are unchanged, and no announcement is created or
    revived: every announcement is what it was, or completed or erased.
    Time, events and the sequence counter are unchanged. *)
Theorem DisconnectedPeer_effect peer t :
  (forall txid, m_state (ann_at (DisconnectedPeer peer t) txid peer) = NOTHING)
  /\
  Check_tracked (DisconnectedPeer peer t) peer = 0%nat /\
  (forall txid q, q <> peer -> active (ann_at t txid q) ->
                  ann_at (DisconnectedPeer peer t) txid q = ann_at t txid q) /\
  (forall txid q,
     fades (ann_at t txid q) (ann_at (DisconnectedPeer peer t) txid q)) /\
  m_now (DisconnectedPeer peer t) = m_now t /\
  m_events (DisconnectedPeer peer t) = m_events t /\
  m_current_sequence (DisconnectedPeer peer t) = m_current_sequence t.
Proof.
  assert (forall txid,
            m_state (ann_at (DisconnectedPeer peer t) txid peer) = NOTHING)
    as Hgone.
  { intros txid. rewrite ann_at_DisconnectedPeer.
    apply DisconnectedPeer_row_peer. }
  split_and!; try done.
  - unfold Check_tracked.
    etrans; [exact (foldl_count (fun ann => m_state ann <> NOTHING)
                      (fun txid => ann_at (DisconnectedPeer peer t) txid peer)
                      _ 0%nat)|].
    rewrite count_where_none; [done|]. intros txid Hs. by apply Hs.
  - intros txid q Hne Ha. rewrite ann_at_DisconnectedPeer.
    by apply DisconnectedPeer_row_others.
  - intros txid q. rewrite ann_at_DisconnectedPeer.
    apply DisconnectedPeer_row_fades.
Qed.

Lemma DisconnectedPeer_effect_witness :
  active (ann_at one_requested 0 0) /\
  ann_at (DisconnectedPeer 1 one_requested) 0 0 = ann_at one_requested 0 0 /\
  m_state (ann_at (DisconnectedPeer 1 one_requested) 0 1) = NOTHING.
Proof.
  assert (active (ann_at one_requested 0 0)) as Ha by (left; reflexivity).
  destruct (DisconnectedPeer_effect 1 one_requested)
    as (Hgone & _ & Hothers & _).
  split; [exact Ha|]. split; [apply Hothers; [lia | exact Ha] | apply Hgone].
Defined.

Lemma ForgetTxId_row_erased anns q :
  m_state (cell (ForgetTxId_row anns) q) = NOTHING.
Proof.
  unfold ForgetTxId_row.
  destruct (row_fades_Cleanup (set_state NOTHING <$> anns)) as [_ Hf].
  destruct (Hf q) as (_ & _ & _ & _ & Hst).
  rewrite cell_fmap in Hst by done. simpl in Hst.
  destruct Hst as [?|[?|[_ ?]]]; done.
Qed.

(** X7. After [ForgetTxId], the txid has no announcement left, whatever the
    states were; the announcements of the other txids are unchanged, and
    [GetRequestable] returns the txid for no peer. *)
Theorem ForgetTxId_effect `{TrackerEnv} txid t :
  (forall q, m_state (ann_at (ForgetTxId txid t) txid q) = NOTHING) /\
  (forall txid' q, txid' <> txid ->
                   ann_at (ForgetTxId txid t) txid' q = ann_at t txid' q) /\
  (forall peer, txid ∉ requestable peer (ForgetTxId txid t)).
Proof.
  assert (forall q, m_state (ann_at (ForgetTxId txid t) txid q) = NOTHING)
    as Hgone.
  { intros q. unfold ForgetTxId. rewrite ann_at_with_row, decide_True by done.
    apply ForgetTxId_row_erased. }
  split_and!; [done | |].
  - intros txid' q Hne. unfold ForgetTxId.
    by rewrite ann_at_with_row, decide_False.
  - intros peer (_ & _ & [Hs _] & _)%requestable_spec.
    rewrite ann_at_after_GetRequestable in Hs.
    destruct (GetRequestable_row_fades (m_now (ForgetTxId txid t))
                (row_at (m_announcements (ForgetTxId txid t)) txid))
      as [_ Hf].
    destruct (Hf peer) as (_ & _ & _ & _ & Hst).
    specialize (Hgone peer). unfold ann_at in Hgone.
    destruct Hst as [?|[?|[? ?]]]; congruence.
Qed.

Lemma ForgetTxId_effect_witness :
  requestable (H := demo_env) 1 two_candidates = [0%nat] /\
  ~ (0%nat ∈ requestable (H := demo_env) 1 (ForgetTxId 0 two_candidates)).
Proof.
  split; [reflexivity|].
  apply (ForgetTxId_effect (H := demo_env) 0 two_candidates).
Defined.

(** ** Outstanding requests *)

Lemma single_requested_RequestedTx_row peer exptime anns :
  (peer < length anns)%nat ->
  single_requested (RequestedTx_row peer exptime anns).
Proof.
  intros Hlt p q. rewrite !cell_RequestedTx_row by done.
  repeat case_decide; subst; try done; intros Hp Hq.
  - by destruct (expire_requested_not_requested (cell anns q)).
  - by destruct (expire_requested_not_requested (cell anns p)).
  - by destruct (expire_requested_not_requested (cell anns p)).
Qed.

Lemma row_at_RequestedTx peer txid exptime t :
  m_state (ann_at t txid peer) = CANDIDATE ->
  row_at (m_announcements (RequestedTx peer txid exptime t)) txid
  = RequestedTx_row peer exptime (row_at (m_announcements t) txid).
Proof.
  intros Hs. destruct (ann_at_exists t txid peer) as [Htxid _];
    [by rewrite Hs|].
  rewrite m_announcements_RequestedTx, bool_decide_eq_true_2 by done.
  by rewrite row_at_alter_eq.
Qed.

Section outstanding_requests.
Context `{TrackerEnv}.

Lemma pending_request_blocks peer exptime anns t txid q :
  (peer < length anns)%nat ->
  row_at (m_announcements t) txid = RequestedTx_row peer exptime anns ->
  m_now t < exptime ->
  txid ∉ requestable q t.
Proof.
  intros Hlt Hrow Hnow (_ & Hnone & _)%requestable_spec.
  apply (Hnone peer). rewrite ann_at_after_GetRequestable, Hrow.
  apply requested_GetRequestable_row;
    [by apply single_requested_RequestedTx_row|].
  by rewrite cell_RequestedTx_row, decide_True.
Qed.

(** X8. While a request is outstanding the txid is offered to nobody: after
    [RequestedTx] turned a candidate into a request, [GetRequestable]
    returns the txid for no peer, neither at once nor after the time
    changed, as long as the time stays before [exptime]. *)
Theorem RequestedTx_blocks_offers peer txid exptime t :
  m_state (ann_at t txid peer) = CANDIDATE ->
  (m_now t < exptime ->
   forall q, txid ∉ requestable q (RequestedTx peer txid exptime t)) /\
  (forall offset,
     m_now t + offset < exptime ->
     forall q,
       txid ∉ requestable q
                (AdvanceTime offset (RequestedTx peer txid exptime t))).
Proof.
  intros Hs.
  assert (peer < length (row_at (m_announcements t) txid))%nat as Hlt
    by (apply cell_lt; unfold ann_at in Hs; by rewrite Hs).
  split.
  - intros Hnow q.
    apply (pending_request_blocks peer exptime
             (row_at (m_announcements t) txid)); try done.
    + by apply row_at_RequestedTx.
    + by rewrite m_now_RequestedTx.
  - intros offset Hnow q.
    apply (pending_request_blocks peer exptime
             (row_at (m_announcements t) txid)); try done.
    + unfold AdvanceTime. cbn [m_announcements set_events set_now].
      by apply row_at_RequestedTx.
    + unfold AdvanceTime. cbn [m_now set_events set_now].
      by rewrite m_now_RequestedTx.
Qed.

End outstanding_requests.

Lemma RequestedTx_blocks_offers_witness :
  m_state (ann_at two_candidates 0 1) = CANDIDATE /\
  requestable (H := demo_env) 1 two_candidates = [0%nat] /\
  ~ (0%nat ∈ requestable (H := demo_env) 0
               (AdvanceTime 4 (RequestedTx 1 0 244466671 two_candidates))).
Proof.
  split; [reflexivity|]. split; [reflexivity|].
  destruct (RequestedTx_blocks_offers (H := demo_env) 1 0 244466671
              two_candidates eq_refl) as [_ Hlater].
  apply (Hlater 4). reflexivity.
Defined.

Lemma filter_none_cells (P : Announcement -> Prop)
    `{forall ann, Decision (P ann)} (anns : list Announcement) :
  (forall q, ~ P (cell anns q)) -> filter P anns = [].
Proof.
  induction anns as [| ann rest IH]; intros Hno; [done|].
  rewrite filter_cons, decide_False by apply (Hno 0%nat).
  apply IH. intros q. apply (Hno (S q)).
Qed.

Lemma count_where_le_1 (anns : list Announcement) :
  single_requested anns ->
  (count_where (fun ann => m_state ann = REQUESTED) anns <= 1)%nat.
Proof.
  unfold count_where. induction anns as [| ann rest IH]; [simpl; lia|].
  intros Hsingle. rewrite filter_cons.
  assert (single_requested rest) as Hrest.
  { intros p q Hp Hq. specialize (Hsingle (S p) (S q) Hp Hq). lia. }
  case_decide as Hs; [|by apply IH].
  assert (filter (fun ann => m_state ann = REQUESTED) rest = []) as ->;
    [|simpl; lia].
  apply filter_none_cells. intros q Hq.
  assert (0 = S q)%nat; [|lia]. by apply Hsingle.
Qed.

Lemma sum_list_le_length {A} (g : A -> nat) (l : list A) :
  (forall x, g x <= 1)%nat -> (sum_list (g <$> l) <= length l)%nat.
Proof.
  intros Hg. induction l as [| x l IH]; [done|].
  rewrite fmap_cons. simpl. specialize (Hg x). lia.
Qed.

(** X9. The counters [Check] computes are bounded: a peer has at most
    [MAX_TXIDS] announcements, and in a reachable state the in-flight
    requests of all peers together are at most [MAX_TXIDS], one per
    txid. *)
Theorem Check_counters_bounded `{TrackerEnv} t :
  (forall peer, (Check_inflight t peer + Check_candidates t peer
                 <= Check_tracked t peer <= MAX_TXIDS)%nat) /\
  (reachable t ->
   (sum_list (Check_inflight t <$> seq 0 MAX_PEERS) <= MAX_TXIDS)%nat).
Proof.
  split.
  - intros peer.
    assert (Check_tracked t peer
            = count_where (fun ann => m_state ann <> NOTHING)
                          (announcements_of t peer)) as ->
        by exact (foldl_count (fun ann => m_state ann <> NOTHING)
                    (fun txid => ann_at t txid peer) _ 0%nat).
    assert (Check_inflight t peer
            = count_where (fun ann => m_state ann = REQUESTED)
                          (announcements_of t peer)) as ->
        by exact (foldl_count (fun ann => m_state ann = REQUESTED)
                    (fun txid => ann_at t txid peer) _ 0%nat).
    assert (Check_candidates t peer
            = count_where (fun ann => m_state ann = CANDIDATE)
                          (announcements_of t peer)) as ->
        by exact (foldl_count (fun ann => m_state ann = CANDIDATE)
                    (fun txid => ann_at t txid peer) _ 0%nat).
    split; [apply count_where_split|].
    unfold count_where, announcements_of.
    etrans; [apply length_filter|]. by rewrite length_fmap, length_seq.
  - intros Hreach. pose proof (reachable_inv t Hreach) as [Hlen Hrows].
    assert (sum_list (Check_inflight t <$> seq 0 MAX_PEERS)
            = sum_list
                ((fun txid =>
                    count_where (fun ann => m_state ann = REQUESTED)
                                (row_at (m_announcements t) txid))
                   <$> seq 0 MAX_TXIDS)) as ->.
    { transitivity
        (sum_list
           ((fun peer =>
               sum_list ((fun txid =>
                            Nat.b2n (bool_decide
                                       (m_state (ann_at t txid peer)
                                        = REQUESTED)))
                           <$> seq 0 MAX_TXIDS))
              <$> seq 0 MAX_PEERS)).
      { apply (f_equal sum_list), list_fmap_ext. intros _ peer _.
        exact (foldl_sum
                 (fun txid =>
                    Nat.b2n (bool_decide
                               (m_state (ann_at t txid peer) = REQUESTED)))
                 _ 0%nat). }
      rewrite (sum_list_swap
                 (fun peer txid =>
                    Nat.b2n (bool_decide
                               (m_state (ann_at t txid peer) = REQUESTED)))).
      apply (f_equal sum_list), list_fmap_ext. intros i txid Hi.
      apply lookup_seq in Hi as [-> Hi]. simpl.
      destruct (Hrows i) as [Hrow _]; [lia|].
      by rewrite count_where_cells, Hrow. }
    apply Nat.le_trans with (length (seq 0 MAX_TXIDS));
      [|by rewrite length_seq].
    assert (forall l, (forall txid, txid ∈ l -> (txid < MAX_TXIDS)%nat) ->
              (sum_list
                 ((fun txid =>
                     count_where (fun ann => m_state ann = REQUESTED)
                                 (row_at (m_announcements t) txid)) <$> l)
               <= length l)%nat) as Hsum.
    { induction l as [| txid l IH]; intros Hl; [done|].
      rewrite fmap_cons. cbn [sum_list length].
      assert (count_where (fun ann => m_state ann = REQUESTED)
                          (row_at (m_announcements t) txid) <= 1)%nat.
      { apply count_where_le_1.
        destruct (Hrows txid) as (_ & Hsingle & _); [|done].
        apply Hl, list_elem_of_here. }
      assert (sum_list
                ((fun txid =>
                    count_where (fun ann => m_state ann = REQUESTED)
                                (row_at (m_announcements t) txid)) <$> l)
              <= length l)%nat.
      { apply IH. intros x Hx. apply Hl. by apply list_elem_of_further. }
      unfold id in *. lia. }
    apply Hsum. intros txid Hin. apply elem_of_seq in Hin. lia.
Qed.

Lemma Check_counters_bounded_witness :
  reachable (H := demo_env) one_requested /\
  (1 <= sum_list (Check_inflight one_requested <$> seq 0 MAX_PEERS)
   <= MAX_TXIDS)%nat.
Proof.
  split; [apply reachable_one_requested|]. split; [vm_compute; lia|].
  apply (Check_counters_bounded (H := demo_env) one_requested),
    reachable_one_requested.
Defined.

(** ** Time and events *)

Lemma elem_of_events_push x ev e :
  e ∈ events_push x ev <-> e = x \/ e ∈ ev.
Proof.
  induction ev as [| y rest IH]; simpl.
  - rewrite list_elem_of_singleton. split; [auto | intros [?|?%elem_of_nil]; done].
  - case_bool_decide.
    + by rewrite elem_of_cons.
    + rewrite !elem_of_cons, IH. tauto.
Qed.

Lemma events_push_sorted x ev :
  StronglySorted Z.le ev -> StronglySorted Z.le (events_push x ev).
Proof.
  induction 1 as [| y rest Hrest IH Hy]; simpl.
  - by repeat constructor.
  - case_bool_decide as Hxy.
    + constructor; [by constructor|]. constructor; [done|].
      eapply Forall_impl; [exact Hy|]. intros z Hz. simpl in *. lia.
    + constructor; [done|]. apply Forall_forall.
      intros z [->|Hz]%elem_of_events_push; [lia|].
      by apply (proj1 (Forall_forall _ _) Hy).
Qed.

Lemma events_drop_past_head now ev top rest :
  events_drop_past now ev = top :: rest -> now < top /\ top ∈ ev.
Proof.
  induction ev as [| y ev IH]; simpl; [done|].
  case_bool_decide as Hy.
  - intros [Hlt Hin]%IH. split; [done | by apply list_elem_of_further].
  - intros [= -> ->]. split; [lia | apply list_elem_of_here].
Qed.

Lemma events_drop_past_sorted now ev :
  StronglySorted Z.le ev -> StronglySorted Z.le (events_drop_past now ev).
Proof.
  induction 1 as [| y rest Hrest IH Hy]; simpl; [constructor|].
  case_bool_decide; [done | by constructor].
Qed.

Lemma elem_of_events_drop_past now ev e :
  StronglySorted Z.le ev ->
  e ∈ events_drop_past now ev <-> e ∈ ev /\ now < e.
Proof.
  induction 1 as [| y rest Hrest IH Hy]; simpl.
  - split; [by intros ?%elem_of_nil | by intros [?%elem_of_nil _]].
  - case_bool_decide as Hle.
    + rewrite IH, elem_of_cons. split; [tauto|].
      intros [[->|Hin] Hlt]; [lia | done].
    + split; [|tauto]. intros Hin. split; [done|].
      apply elem_of_cons in Hin as [->|Hin]; [lia|].
      pose proof (proj1 (Forall_forall _ _) Hy e Hin). simpl in *. lia.
Qed.

(** The queue of events is kept in ascending order, so that its head is
    the smallest queued event. *)
Lemma reachable_events_sorted `{TrackerEnv} t :
  reachable t -> StronglySorted Z.le (m_events t).
Proof.
  induction 1 as [| c t _ IH _]; [constructor|].
  destruct c; simpl.
  - unfold AdvanceToEvent.
    pose proof (events_drop_past_sorted (m_now t) _ IH) as Hs.
    destruct (events_drop_past (m_now t) (m_events t)); simpl;
      [constructor | by inv Hs].
  - by apply events_drop_past_sorted.
  - by rewrite after_GetRequestable_eq.
  - done.
  - done.
  - unfold ReceivedInv. case_bool_decide; [|done]. simpl.
    case_bool_decide; [by apply events_push_sorted | done].
  - unfold RequestedTx.
    repeat case_bool_decide;
      cbn [m_events set_events with_row set_announcements];
      first [done | by apply events_push_sorted].
  - unfold ReceivedResponse. by case_bool_decide.
Qed.

(** X10. [AdvanceTime] adds the offset to the time and drops from the queue
    exactly the events that are not after the new time; it changes no
    announcement. Moving the time back restores no event. *)
Theorem AdvanceTime_effect `{TrackerEnv} offset t :
  reachable t ->
  m_now (AdvanceTime offset t) = m_now t + offset /\
  m_announcements (AdvanceTime offset t) = m_announcements t /\
  m_current_sequence (AdvanceTime offset t) = m_current_sequence t /\
  (forall e, e ∈ m_events (AdvanceTime offset t) <->
             e ∈ m_events t /\ m_now t + offset < e).
Proof.
  intros Hreach. split_and!; try done.
  intros e. unfold AdvanceTime. cbn [m_events set_events set_now m_now].
  apply elem_of_events_drop_past. by apply reachable_events_sorted.
Qed.

Lemma AdvanceTime_effect_witness :
  reachable (H := demo_env) one_requested /\
  m_events one_requested = [244466671] /\
  m_events (AdvanceTime (-5) (AdvanceTime 5 one_requested)) = [] /\
  ~ (244466671 ∈ m_events (AdvanceTime 5 one_requested)).
Proof.
  split; [apply reachable_one_requested|]. split; [reflexivity|].
  split; [reflexivity|].
  intros Hin.
  apply (AdvanceTime_effect (H := demo_env) 5 one_requested
           reachable_one_requested) in Hin as [_ Hlt].
  vm_compute in Hlt. discriminate.
Defined.

(** X11. [AdvanceToEvent] never moves the time backward and changes no
    announcement. In a reachable state with a queued event after the
    current time it moves the time to the earliest such event; with none
    it leaves the time unchanged and the queue empty. *)
Theorem AdvanceToEvent_effect `{TrackerEnv} t :
  m_now t <= m_now (AdvanceToEvent t) /\
  m_announcements (AdvanceToEvent t) = m_announcements t /\
  m_current_sequence (AdvanceToEvent t) = m_current_sequence t /\
  (reachable t ->
   ((forall e, e ∈ m_events t -> e <= m_now t) ->
    m_now (AdvanceToEvent t) = m_now t /\ m_events (AdvanceToEvent t) = []) /\
   ((exists e, e ∈ m_events t /\ m_now t < e) ->
    m_now t < m_now (AdvanceToEvent t) /\
    m_now (AdvanceToEvent t) ∈ m_events t /\
    (forall e, e ∈ m_events t -> m_now t < e ->
               m_now (AdvanceToEvent t) <= e) /\
    (forall e, e ∈ m_events (AdvanceToEvent t) ->
               m_now (AdvanceToEvent t) <= e))).
Proof.
  unfold AdvanceToEvent.
  destruct (events_drop_past (m_now t) (m_events t)) as [| top rest] eqn:Hdrop;
    cbn [m_now m_events m_announcements m_current_sequence set_events set_now].
  - split; [lia|]. split; [done|]. split; [done|]. intros Hreach.
    pose proof (reachable_events_sorted t Hreach) as Hsorted. split; [done|].
    intros (e & Hin & Hlt).
    assert (e ∈ events_drop_past (m_now t) (m_events t)) as Hin'
      by (by apply elem_of_events_drop_past).
    rewrite Hdrop in Hin'. by apply elem_of_nil in Hin'.
  - destruct (events_drop_past_head _ _ _ _ Hdrop) as [Hlt Hin].
    split; [lia|]. split; [done|]. split; [done|]. intros Hreach.
    pose proof (reachable_events_sorted t Hreach) as Hsorted.
    pose proof (events_drop_past_sorted (m_now t) _ Hsorted) as Hsorted'.
    rewrite Hdrop in Hsorted'.
    apply StronglySorted_inv in Hsorted' as [_ Hrest].
    rewrite Forall_forall in Hrest.
    split.
    + intros Hpast. specialize (Hpast top Hin). lia.
    + intros _. split; [done|]. split; [done|]. split.
      * intros e He Hnow.
        assert (e ∈ top :: rest) as [->|Hin']%elem_of_cons.
        { rewrite <- Hdrop. by apply elem_of_events_drop_past. }
        -- lia.
        -- by apply Hrest.
      * intros e He. by apply Hrest.
Qed.

Lemma AdvanceToEvent_effect_witness :
  reachable (H := demo_env) one_requested /\
  m_now one_requested < m_now (AdvanceToEvent one_requested) /\
  m_now (AdvanceToEvent one_requested) = 244466671.
Proof.
  split; [apply reachable_one_requested|]. split; [|reflexivity].
  destruct (AdvanceToEvent_effect (H := demo_env) one_requested)
    as (_ & _ & _ & Hreach).
  apply (Hreach reachable_one_requested).
  exists 244466671. split; [apply list_elem_of_here | reflexivity].
Defined.

(** ** Sequence numbers *)

Lemma fades_keeps_sequence ann ann' : fades ann ann' -> keeps_sequence ann ann'.
Proof.
  intros (_ & Hseq & _ & _ & Hst) Hs. split; [|done].
  destruct Hst as [?|[?|[_ ?]]]; congruence.
Qed.

Lemma keeps_sequence_refl ann : keeps_sequence ann ann.
Proof. by intros Hs. Qed.

Lemma cell_row_at_alter (f : list Announcement -> list Announcement)
    txid (tbl : list (list Announcement)) txid' q :
  f [] = [] ->
  cell (row_at (alter f txid tbl) txid') q
  = if decide (txid = txid') then cell (f (row_at tbl txid)) q
    else cell (row_at tbl txid') q.
Proof.
  intros Hnil. case_decide as Heq; [subst txid'|by rewrite row_at_alter_ne].
  destruct (decide (txid < length tbl)%nat) as [Hlt|Hge].
  - by rewrite row_at_alter_eq.
  - unfold row_at. rewrite list_lookup_alter_eq.
    rewrite (lookup_ge_None_2 tbl txid) by lia. simpl. by rewrite Hnil.
Qed.

Lemma ann_at_initial txid q : m_state (ann_at initial txid q) = NOTHING.
Proof.
  unfold ann_at, initial, row_at. cbn [m_announcements].
  destruct (replicate MAX_TXIDS (replicate MAX_PEERS no_announcement) !! txid)
    as [anns|] eqn:Hrow; [|done].
  apply lookup_replicate in Hrow as [-> _]. apply cell_replicate.
Qed.

Section sequence_numbers.
Context `{TrackerEnv}.

Lemma step_keeps_sequence c t :
  match c with CallReceivedInv _ _ _ _ _ => False | _ => True end ->
  (forall txid q, keeps_sequence (ann_at t txid q) (ann_at (step c t) txid q))
  /\ m_current_sequence (step c t) = m_current_sequence t.
Proof.
  intros Hc. destruct c; [| | | | | done | |]; simpl.
  - unfold AdvanceToEvent, ann_at.
    destruct (events_drop_past _ _); split; try done;
      intros; apply keeps_sequence_refl.
  - split; [|done]. intros. apply keeps_sequence_refl.
  - split; [|by rewrite after_GetRequestable_eq]. intros txid q.
    rewrite ann_at_after_GetRequestable.
    apply fades_keeps_sequence, GetRequestable_row_fades.
  - split; [|done]. intros txid q. rewrite ann_at_DisconnectedPeer.
    apply fades_keeps_sequence, DisconnectedPeer_row_fades.
  - split; [|done]. intros txid' q. unfold ForgetTxId.
    rewrite ann_at_with_row by done. case_decide as Heq.
    + subst txid'. apply fades_keeps_sequence, ForgetTxId_row_fades.
    + apply keeps_sequence_refl.
  - split; [|unfold RequestedTx; by repeat case_bool_decide].
    intros txid' q. unfold ann_at at 2.
    rewrite m_announcements_RequestedTx.
    case_bool_decide as Hs; [|apply keeps_sequence_refl].
    rewrite cell_row_at_alter by done.
    case_decide as Heq; [subst txid'|apply keeps_sequence_refl].
    assert (peer < length (row_at (m_announcements t) txid))%nat as Hlt
      by (apply cell_lt; unfold ann_at in Hs; by rewrite Hs).
    rewrite cell_RequestedTx_row by done. case_decide as Hq.
    + subst q. intros _. simpl. by rewrite Hs.
    + apply fades_keeps_sequence, expire_requested_fades.
  - unfold ReceivedResponse.
    case_bool_decide as Hs;
      [|split; [intros; apply keeps_sequence_refl | done]].
    split; [|done]. intros txid' q.
    rewrite ann_at_with_row by done. case_decide as Heq.
    + subst txid'. by apply fades_keeps_sequence, ReceivedResponse_row_fades.
    + apply keeps_sequence_refl.
Qed.

Lemma sequences_fresh_keeps t t' :
  sequences_fresh t ->
  m_current_sequence t' = m_current_sequence t ->
  (forall txid q, keeps_sequence (ann_at t txid q) (ann_at t' txid q)) ->
  sequences_fresh t'.
Proof.
  intros (Hpos & Hbelow & Hdistinct) Hcounter Hkeeps. split_and!.
  - by rewrite Hcounter.
  - intros txid p Hs. destruct (Hkeeps txid p Hs) as [Hs' ->].
    rewrite Hcounter. by apply Hbelow.
  - intros txid p txid' p' Hs Hs'.
    destruct (Hkeeps txid p Hs) as [Hp ->].
    destruct (Hkeeps txid' p' Hs') as [Hp' ->]. by apply Hdistinct.
Qed.

Lemma ReceivedInv_cells peer txid is_wtxid preferred reqtime t txid' q :
  m_state (ann_at t txid peer) = NOTHING ->
  ann_at (ReceivedInv peer txid is_wtxid preferred reqtime t) txid' q
  = ann_at t txid' q \/
  (txid' = txid /\ q = peer /\
   ann_at (ReceivedInv peer txid is_wtxid preferred reqtime t) txid' q
   = mkAnnouncement reqtime (m_current_sequence t) CANDIDATE preferred
       (ComputePriority (TXIDS txid) peer preferred)).
Proof.
  intros Hs. unfold ReceivedInv. rewrite bool_decide_eq_true_2 by done.
  unfold ann_at. cbn [m_announcements].
  rewrite cell_row_at_alter by done.
  case_decide as Heq; [subst txid'|by left].
  destruct (decide (peer = q)) as [<-|Hne];
    [|left; by rewrite cell_insert_ne].
  destruct (decide (peer < length (row_at (m_announcements t) txid))%nat)
    as [Hlt|Hge].
  - right. by rewrite cell_insert_eq.
  - left. by rewrite list_insert_ge by lia.
Qed.

Lemma sequences_fresh_ReceivedInv peer txid is_wtxid preferred reqtime t :
  sequences_fresh t -> m_current_sequence t + 1 < 2 ^ 64 ->
  sequences_fresh (ReceivedInv peer txid is_wtxid preferred reqtime t) /\
  m_current_sequence (ReceivedInv peer txid is_wtxid preferred reqtime t)
  <= m_current_sequence t + 1.
Proof.
  intros (Hpos & Hbelow & Hdistinct) Hsmall.
  destruct (decide (m_state (ann_at t txid peer) = NOTHING)) as [Hs|Hs].
  - assert (m_current_sequence
              (ReceivedInv peer txid is_wtxid preferred reqtime t)
            = m_current_sequence t + 1) as Hcounter.
    { unfold ReceivedInv. rewrite bool_decide_eq_true_2 by done.
      cbn [m_current_sequence]. apply Z.mod_small. lia. }
    pose proof (fun txid' q =>
                  ReceivedInv_cells peer txid is_wtxid preferred reqtime t
                    txid' q Hs) as Hcells.
    rewrite Hcounter. split; [|lia]. split_and!; [lia | |].
    + intros txid' q Hq.
      destruct (Hcells txid' q) as [Heq | (_ & _ & Heq)]; rewrite Heq in *.
      * specialize (Hbelow txid' q Hq). lia.
      * simpl. lia.
    + intros txid1 p1 txid2 p2 H1 H2 Heq.
      destruct (Hcells txid1 p1) as [Heq1 | (-> & -> & Heq1)];
        destruct (Hcells txid2 p2) as [Heq2 | (-> & -> & Heq2)];
        rewrite ?Heq1 in H1, Heq; rewrite ?Heq2 in H2, Heq; try done.
      * by apply Hdistinct.
      * specialize (Hbelow txid1 p1 H1). simpl in Heq. lia.
      * specialize (Hbelow txid2 p2 H2). simpl in Heq. lia.
  - unfold ReceivedInv. rewrite bool_decide_eq_false_2 by done.
    split; [done | lia].
Qed.

Lemma sequences_fresh_step c t :
  sequences_fresh t -> m_current_sequence t + 1 < 2 ^ 64 ->
  sequences_fresh (step c t) /\
  m_current_sequence (step c t) <= m_current_sequence t + 1.
Proof.
  intros Hfresh Hsmall.
  destruct c;
    try (match goal with
         | |- context [step ?c t] =>
             destruct (step_keeps_sequence c t I) as [Hkeeps Hcounter]
         end;
         split; [by eapply sequences_fresh_keeps | rewrite Hcounter; lia]).
  by apply sequences_fresh_ReceivedInv.
Qed.

Lemma run_snoc calls c t : run (calls ++ [c]) t = step c (run calls t).
Proof. unfold run. by rewrite foldl_app. Qed.

(** X12. As long as fewer than 2^64 calls were made, the sequence numbers of
    the existing announcements are pairwise distinct and below the
    sequence counter, which is at most the number of calls: an
    announcement never shares its sequence number with another one. *)
Theorem sequence_numbers_distinct calls :
  Z.of_nat (length calls) < 2 ^ 64 ->
  sequences_fresh (run calls initial) /\
  m_current_sequence (run calls initial) <= Z.of_nat (length calls).
Proof.
  induction calls as [| c calls IH] using rev_ind; intros Hlen.
  - split; [|done]. split_and!; [done | |].
    + intros txid p Hs. by destruct Hs; apply ann_at_initial.
    + intros txid p txid' p' Hs. by destruct Hs; apply ann_at_initial.
  - rewrite length_app in *. simpl in *.
    destruct IH as [Hfresh Hcounter]; [lia|].
    rewrite run_snoc.
    destruct (sequences_fresh_step c (run calls initial) Hfresh) as [Hf Hc];
      [lia|].
    split; [done | lia].
Qed.

End sequence_numbers.

Lemma sequence_numbers_distinct_witness :
  m_sequence (ann_at three_candidates 0 0) = 0 /\
  m_sequence (ann_at three_candidates 0 1) = 1 /\
  m_sequence (ann_at three_candidates 0 2) = 2 /\
  m_current_sequence three_candidates = 3 /\
  sequences_fresh three_candidates.
Proof.
  split_and!; try reflexivity.
  apply (sequence_numbers_distinct (H := demo_env)
           [CallReceivedInv 0 0 false true microseconds_min;
            CallReceivedInv 1 0 false true microseconds_min;
            CallReceivedInv 2 0 false true microseconds_min]).
  reflexivity.
Defined.

(** ** The delays of the driver *)

Section delays.
Context `{SipHasher}.

Lemma diff_bits_range i : 16 <= i < 128 -> 1 <= diff_bits i <= 26.
Proof.
  intros Hi. unfold diff_bits.
  rewrite Z.quot_div_nonneg by lia.
  split; [apply Z.div_le_lower_bound | apply Z.div_le_upper_bound]; lia.
Qed.

Lemma delay_diff_range i :
  16 <= i < 128 -> 1 <= delay_diff i <= 2 ^ diff_bits i.
Proof.
  intros Hi. pose proof (diff_bits_range i Hi) as Hb.
  pose proof (Finalize_Write_range i) as Hh.
  unfold delay_diff. rewrite Z.shiftr_div_pow2 by lia.
  assert (0 <= Finalize_Write i / 2 ^ (64 - diff_bits i) < 2 ^ diff_bits i)
    as Hq.
  { split; [apply Z.div_pos; lia|].
    apply Z.div_lt_upper_bound; [lia|].
    rewrite <- Z.pow_add_r by lia.
    replace (64 - diff_bits i + diff_bits i) with 64 by lia. lia. }
  assert (2 ^ diff_bits i <= 2 ^ 26) by (apply Z.pow_le_mono_r; lia).
  rewrite Z.mod_small; [lia|].
  change (2 ^ 26) with 67108864 in *. change (2 ^ 64) with 18446744073709551616.
  lia.
Qed.

Lemma DELAYS_forward_small i :
  (i < 16)%nat -> DELAYS_forward i = Z.of_nat i.
Proof.
  intros Hi. destruct i as [|j]; [done|]. simpl.
  by rewrite bool_decide_eq_true_2.
Qed.

Lemma DELAYS_forward_S j :
  (S j < 128)%nat -> DELAYS_forward j < DELAYS_forward (S j).
Proof.
  intros Hj. cbn [DELAYS_forward]. case_bool_decide as Hsmall.
  - rewrite DELAYS_forward_small by lia. lia.
  - pose proof (delay_diff_range (Z.of_nat (S j))). lia.
Qed.

Lemma DELAYS_forward_lt i j :
  (i < j)%nat -> (j < 128)%nat -> DELAYS_forward i < DELAYS_forward j.
Proof.
  induction j as [| j IH]; intros Hij Hj; [lia|].
  pose proof (DELAYS_forward_S j Hj).
  destruct (decide (i = j)) as [->|Hne]; [done|].
  assert (DELAYS_forward i < DELAYS_forward j) by (apply IH; lia). lia.
Qed.

Lemma DELAYS_forward_bound i :
  (i < 128)%nat -> DELAYS_forward i <= DELAYS_bound i.
Proof.
  induction i as [| j IH]; intros Hi; [done|].
  cbn [DELAYS_forward DELAYS_bound]. case_bool_decide; [done|].
  pose proof (delay_diff_range (Z.of_nat (S j))).
  assert (DELAYS_forward j <= DELAYS_bound j) by (apply IH; lia). lia.
Qed.

Lemma DELAYS_forward_range i :
  (i < 128)%nat -> 0 <= DELAYS_forward i <= 357913945.
Proof.
  intros Hi. split.
  - destruct i as [|j]; [done|].
    assert (DELAYS_forward 0 < DELAYS_forward (S j))
      by (apply DELAYS_forward_lt; lia). simpl in *. lia.
  - assert (DELAYS_forward i <= DELAYS_forward 127) as Hle.
    { destruct (decide (i = 127%nat)) as [->|Hne]; [done|].
      apply Z.lt_le_incl, DELAYS_forward_lt; lia. }
    pose proof (DELAYS_forward_bound 127) as Hbound.
    assert (DELAYS_bound 127 = 357913945) as Heq by (by vm_compute).
    rewrite Heq in Hbound. specialize (Hbound ltac:(lia)). lia.
Qed.

(** X13. The table [DELAYS] that [Initializer] fills: the first 16 delays are
    0us to 15us; the delays increase strictly up to index 127; the second
    half mirrors the first with the opposite sign; and whatever the hash
    values are, every delay is within 357913945us of zero, non-negative
    in the first half and non-positive in the second. *)
Theorem DELAYS_properties :
  (forall i, (i < 16)%nat -> DELAYS i = Z.of_nat i) /\
  (forall i j, (i < j)%nat -> (j < 128)%nat -> DELAYS i < DELAYS j) /\
  (forall i, (i < 256)%nat -> DELAYS (255 - i) = - DELAYS i) /\
  (forall i, (i < 128)%nat -> 0 <= DELAYS i <= 357913945) /\
  (forall i, (128 <= i < 256)%nat -> -357913945 <= DELAYS i <= 0).
Proof.
  unfold DELAYS. split_and!.
  - intros i Hi. rewrite bool_decide_eq_true_2 by lia.
    by apply DELAYS_forward_small.
  - intros i j Hij Hj. rewrite !bool_decide_eq_true_2 by lia.
    by apply DELAYS_forward_lt.
  - intros i Hi. destruct (decide (i < 128)%nat) as [Hlt|Hge].
    + rewrite (bool_decide_eq_false_2 (255 - i < 128)%nat) by lia.
      rewrite (bool_decide_eq_true_2 (i < 128)%nat) by lia.
      by replace (255 - (255 - i))%nat with i by lia.
    + rewrite (bool_decide_eq_true_2 (255 - i < 128)%nat) by lia.
      rewrite (bool_decide_eq_false_2 (i < 128)%nat) by lia. lia.
  - intros i Hi. rewrite bool_decide_eq_true_2 by lia.
    by apply DELAYS_forward_range.
  - intros i Hi. rewrite bool_decide_eq_false_2 by lia.
    pose proof (DELAYS_forward_range (255 - i)). lia.
Qed.

End delays.

Lemma DELAYS_properties_witness :
  DELAYS (H := demo_hasher) 5 = 5 /\
  DELAYS (H := demo_hasher) 254 = -1 /\
  DELAYS (H := demo_hasher) 16 < DELAYS (H := demo_hasher) 100.
Proof.
  destruct (DELAYS_properties (H := demo_hasher)) as (Hsmall & Hlt & Hneg & _).
  split; [apply (Hsmall 5%nat); lia|].
  split.
  { change (DELAYS (H := demo_hasher) 254)
      with (DELAYS (H := demo_hasher) (255 - 1)).
    rewrite (Hneg 1%nat) by lia. rewrite (Hsmall 1%nat) by lia. done. }
  apply Hlt; lia.
Defined.

(** ** The driver *)

Section driver.
Context `{TrackerEnv} `{SipHasher}.

Lemma length_next_byte it :
  (length (next_byte it).2 <= length it)%nat.
Proof. destruct it; simpl; lia. Qed.

(** A command below 11 decodes to a call with indices in range; the
    [default] case is not taken. *)
Lemma decode_instruction_in_range cmd it now :
  (cmd < 11)%nat ->
  exists c it', decode_instruction cmd it now = (Some c, it') /\
                in_range c /\ (length it' <= length it)%nat.
Proof.
  intros Hcmd.
  assert (forall b, (b mod MAX_PEERS < MAX_PEERS)%nat) as Hpeer
    by (intros b; by apply Nat.mod_upper_bound).
  assert (forall b, (b mod MAX_TXIDS < MAX_TXIDS)%nat) as Htxid
    by (intros b; by apply Nat.mod_upper_bound).
  destruct cmd as [|[|[|[|[|[|[|[|[|[|[|cmd]]]]]]]]]]]; try lia;
    unfold decode_instruction;
    repeat match goal with
      | |- context [next_byte ?l] =>
          pose proof (length_next_byte l);
          destruct (next_byte l) as [? ?]; simpl in *
      end;
    eexists _, _; (split; [reflexivity|]); simpl; (split; [auto|lia]).
Qed.

(** A run of the loop with enough iterations ends normally, and the tester
    it ends with is the one a list of calls in range gives. *)
Lemma test_loop_run fuel : forall it tester,
  (length it <= fuel)%nat ->
  exists calls,
    Forall in_range calls /\ (length calls <= length it)%nat /\
    test_loop fuel it tester = Finished (run calls tester).
Proof.
  induction fuel as [| fuel IH]; intros it tester Hfuel.
  - destruct it; [|simpl in *; lia]. exists []. by split_and!.
  - destruct it as [| b it]; [exists []; by split_and!|]. cbn [test_loop].
    destruct (decode_instruction_in_range (Byte.to_nat b mod 11) it
                (Now tester)) as (c & it' & -> & Hrange & Hlen).
    { by apply Nat.mod_upper_bound. }
    destruct (IH it' (step c tester)) as (calls & Hall & Hcalls & ->).
    { simpl in *. lia. }
    exists (c :: calls). split_and!; [by constructor | simpl; lia | done].
Qed.

Lemma test_loop_fuel fuel : forall fuel' it tester,
  (length it <= fuel)%nat -> (length it <= fuel')%nat ->
  test_loop fuel it tester = test_loop fuel' it tester.
Proof.
  induction fuel as [| fuel IH]; intros fuel' it tester Hf Hf'.
  - destruct it; [|simpl in *; lia]. by destruct fuel'.
  - destruct it as [| b it]; [by destruct fuel'|].
    destruct fuel' as [| fuel']; [simpl in *; lia|]. cbn [test_loop].
    destruct (decode_instruction_in_range (Byte.to_nat b mod 11) it
                (Now tester)) as (c & it' & -> & _ & Hlen).
    { by apply Nat.mod_upper_bound. }
    apply IH; simpl in *; lia.
Qed.

(** X14. Whatever the bytes of the buffer, [test_one_input] never reaches
    the [assert(false)] of the [default] case and only makes calls with a
    peer below [MAX_PEERS] and a txid below [MAX_TXIDS]: every command
    byte decodes to a call in range and consumes bytes of the buffer only,
    and the loop ends normally with the tester that a list of calls in
    range, at most one per byte, gives from the initial one, which
    satisfies the invariants of the table. The loop ends within as many
    iterations as the buffer has bytes: more fuel gives the same
    outcome. *)
Theorem test_one_input_in_range buffer :
  (forall b it now,
     exists c it',
       decode_instruction (Byte.to_nat b mod 11) it now = (Some c, it') /\
       in_range c /\ (length it' <= length it)%nat) /\
  (exists calls,
     Forall in_range calls /\ (length calls <= length buffer)%nat /\
     test_one_input buffer = Finished (run calls initial) /\
     reachable (run calls initial) /\ tester_inv (run calls initial)) /\
  (forall fuel, (length buffer <= fuel)%nat ->
                test_loop fuel buffer initial = test_one_input buffer).
Proof.
  split_and!.
  - intros b it now. apply decode_instruction_in_range.
    by apply Nat.mod_upper_bound.
  - destruct (test_loop_run (length buffer) buffer initial)
      as (calls & Hall & Hlen & Heq); [done|].
    assert (reachable (run calls initial)) as Hreach
      by (apply reachable_run; [constructor | done]).
    exists calls. split_and!; try done. by apply reachable_inv.
  - intros fuel Hfuel. by apply test_loop_fuel.
Qed.

End driver.

Lemma test_one_input_in_range_witness :
  match test_one_input (H := demo_env) (H0 := demo_hasher)
          [Byte.x07; Byte.x21; Byte.x12; Byte.x03;
           Byte.x09; Byte.x01; Byte.x02] with
  | Finished tester => m_state (ann_at tester 2 1) = REQUESTED
  | _ => False
  end /\
  exists calls,
    Forall in_range calls /\
    test_one_input (H := demo_env) (H0 := demo_hasher)
      [Byte.x07; Byte.x21; Byte.x12; Byte.x03; Byte.x09; Byte.x01; Byte.x02]
    = Finished (run (H := demo_env) calls initial).
Proof.
  split; [by vm_compute|].
  destruct (test_one_input_in_range (H := demo_env) (H0 := demo_hasher)
              [Byte.x07; Byte.x21; Byte.x12; Byte.x03;
               Byte.x09; Byte.x01; Byte.x02])
    as (_ & (calls & Hall & _ & Heq & _) & _).
  by exists calls.
Defined.

(** ** Creating announcements *)

Lemma count_where_changed {A} `{EqDecision A} (P : Announcement -> Prop)
    `{forall ann, Decision (P ann)} (f g : A -> Announcement) x (l : list A) :
  NoDup l -> x ∈ l -> ~ P (f x) -> P (g x) ->
  (forall y, y <> x -> g y = f y) ->
  count_where P (g <$> l) = S (count_where P (f <$> l)).
Proof.
  unfold count_where. intros Hnd Hx Hf Hg Hsame.
  induction Hnd as [| y l Hy Hnd IH]; [by apply elem_of_nil in Hx|].
  rewrite !fmap_cons, !filter_cons.
  destruct (decide (y = x)) as [->|Hne].
  - rewrite decide_True, decide_False by done. simpl. f_equal.
    f_equal. f_equal. apply list_fmap_ext. intros i z Hz. apply Hsame.
    intros ->. apply Hy. apply list_elem_of_lookup. eauto.
  - rewrite Hsame by done.
    apply elem_of_cons in Hx as [->|Hx]; [done|].
    case_decide; simpl; by rewrite IH.
Qed.

Lemma count_where_same {A} (P : Announcement -> Prop)
    `{forall ann, Decision (P ann)} (f g : A -> Announcement) (l : list A) :
  (forall y, P (g y) <-> P (f y)) ->
  count_where P (g <$> l) = count_where P (f <$> l).
Proof.
  unfold count_where. intros Hsame. induction l as [| y l IH]; [done|].
  rewrite !fmap_cons, !filter_cons.
  destruct (decide (P (g y))) as [Hg|Hg], (decide (P (f y))) as [Hf|Hf];
    simpl; rewrite ?IH; try done.
  - by apply Hsame in Hg.
  - by apply Hsame in Hf.
Qed.

Section creating.
Context `{TrackerEnv}.

(** X15. In a reachable state, [ReceivedInv] for a (peer, txid) in range with
    no announcement creates a [CANDIDATE] with the given request time and
    flag, the current sequence number and the priority of the oracle, and
    changes no other announcement; the peer then has one announcement
    and one candidate more; the sequence counter advances by one (modulo
    2^64); the request time is queued as an event exactly when it is
    after the current time, which is unchanged. *)
Theorem ReceivedInv_creates peer txid is_wtxid preferred reqtime t :
  reachable t -> (peer < MAX_PEERS)%nat -> (txid < MAX_TXIDS)%nat ->
  m_state (ann_at t txid peer) = NOTHING ->
  ann_at (ReceivedInv peer txid is_wtxid preferred reqtime t) txid peer
  = mkAnnouncement reqtime (m_current_sequence t) CANDIDATE preferred
      (ComputePriority (TXIDS txid) peer preferred) /\
  (forall txid' q, (txid', q) <> (txid, peer) ->
     ann_at (ReceivedInv peer txid is_wtxid preferred reqtime t) txid' q
     = ann_at t txid' q) /\
  Check_tracked (ReceivedInv peer txid is_wtxid preferred reqtime t) peer
  = S (Check_tracked t peer) /\
  Check_candidates (ReceivedInv peer txid is_wtxid preferred reqtime t) peer
  = S (Check_candidates t peer) /\
  Check_inflight (ReceivedInv peer txid is_wtxid preferred reqtime t) peer
  = Check_inflight t peer /\
  m_current_sequence (ReceivedInv peer txid is_wtxid preferred reqtime t)
  = (m_current_sequence t + 1) mod 2 ^ 64 /\
  m_now (ReceivedInv peer txid is_wtxid preferred reqtime t) = m_now t /\
  (forall e,
     e ∈ m_events (ReceivedInv peer txid is_wtxid preferred reqtime t) <->
     e ∈ m_events t \/ (e = reqtime /\ m_now t < reqtime)).
Proof.
  intros Hreach Hpeer Htxid Hs.
  set (t' := ReceivedInv peer txid is_wtxid preferred reqtime t).
  assert (ann_at t' txid peer
          = mkAnnouncement reqtime (m_current_sequence t) CANDIDATE preferred
              (ComputePriority (TXIDS txid) peer preferred)) as Hnew.
  { apply ann_at_ReceivedInv_new; [| |done].
    - by rewrite (reachable_length t Hreach).
    - by destruct (reachable_row_inv t txid Hreach Htxid) as [-> _]. }
  assert (forall txid' q, (txid', q) <> (txid, peer) ->
            ann_at t' txid' q = ann_at t txid' q) as Hothers.
  { intros txid' q Hne.
    destruct (ReceivedInv_cells peer txid is_wtxid preferred reqtime t
                txid' q Hs) as [Heq | (-> & -> & _)]; done. }
  assert (forall txid', txid' <> txid ->
            ann_at t' txid' peer = ann_at t txid' peer) as Hcolumn.
  { intros txid' Hne. apply Hothers. congruence. }
  assert (txid ∈ seq 0 MAX_TXIDS) as Hin by (apply elem_of_seq; lia).
  split_and!; try done.
  - unfold Check_tracked.
    etrans; [exact (foldl_count (fun ann => m_state ann <> NOTHING)
                      (fun txid' => ann_at t' txid' peer) _ 0%nat)|].
    etrans; [|symmetry;
              exact (f_equal S
                       (foldl_count (fun ann => m_state ann <> NOTHING)
                          (fun txid' => ann_at t txid' peer) _ 0%nat))].
    apply (count_where_changed _ _ _ txid); try done.
    + apply NoDup_seq.
    + intros Hne. by apply Hne.
    + by rewrite Hnew.
  - unfold Check_candidates.
    etrans; [exact (foldl_count (fun ann => m_state ann = CANDIDATE)
                      (fun txid' => ann_at t' txid' peer) _ 0%nat)|].
    etrans; [|symmetry;
              exact (f_equal S
                       (foldl_count (fun ann => m_state ann = CANDIDATE)
                          (fun txid' => ann_at t txid' peer) _ 0%nat))].
    apply (count_where_changed _ _ _ txid); try done.
    + apply NoDup_seq.
    + by rewrite Hs.
    + by rewrite Hnew.
  - unfold Check_inflight.
    etrans; [exact (foldl_count (fun ann => m_state ann = REQUESTED)
                      (fun txid' => ann_at t' txid' peer) _ 0%nat)|].
    etrans; [|symmetry;
              exact (foldl_count (fun ann => m_state ann = REQUESTED)
                       (fun txid' => ann_at t txid' peer) _ 0%nat)].
    apply count_where_same. intros txid'.
    destruct (decide (txid' = txid)) as [->|Hne];
      [by rewrite Hnew, Hs | by rewrite Hcolumn].
  - subst t'. unfold ReceivedInv. by rewrite bool_decide_eq_true_2.
  - subst t'. unfold ReceivedInv. by rewrite bool_decide_eq_true_2.
  - intros e. subst t'. unfold ReceivedInv.
    rewrite bool_decide_eq_true_2 by done. cbn [m_events].
    case_bool_decide as Hlater.
    + rewrite elem_of_events_push. split; [|tauto].
      intros [->|?]; [right; split; [done | lia] | by left].
    + split; [by left | intros [?|[_ ?]]; [done | lia]].
Qed.

End creating.

Lemma ReceivedInv_creates_witness :
  reachable (H := demo_env) two_candidates /\
  m_state (ann_at two_candidates 3 2) = NOTHING /\
  Check_tracked
    (ReceivedInv (H := demo_env) 2 3 false true 244466671 two_candidates) 2
  = 1%nat.
Proof.
  split; [apply reachable_two_candidates|]. split; [reflexivity|].
  destruct (ReceivedInv_creates (H := demo_env) 2 3 false true 244466671
              two_candidates reachable_two_candidates)
    as (_ & _ & Htracked & _);
    [unfold MAX_PEERS; lia | unfold MAX_TXIDS; lia | reflexivity |].
  rewrite Htracked. reflexivity.
Defined.

(** ** Candidates under [GetRequestable] *)

Lemma GetRequestable_row_candidate now anns q :
  m_state (cell anns q) = CANDIDATE ->
  cell (GetRequestable_row now anns) q = cell anns q.
Proof.
  intros Hs. unfold GetRequestable_row.
  assert (cell (expire_row now 0 anns).1 q = cell anns q) as Hexp.
  { pose proof (expire_row_spec now anns 0) as Hspec.
    destruct (expire_row now 0 anns).2 as [p|].
    - destruct Hspec as (i & _ & [Hi _] & _ & ->).
      apply cell_alter_ne. intros ->. congruence.
    - by destruct Hspec as [_ ->]. }
  rewrite Cleanup_row_active; [done|].
  exists q. rewrite Hexp. by left.
Qed.

(** X16. [GetRequestable] changes no candidate and makes no candidate: an
    announcement is a [CANDIDATE] afterwards exactly when it was one
    before, with all its members unchanged, so the number of candidates
    of every peer is the same. *)
Theorem GetRequestable_keeps_candidates `{TrackerEnv} peer t :
  (forall txid q,
     m_state (ann_at t txid q) = CANDIDATE ->
     ann_at (after_GetRequestable peer t) txid q = ann_at t txid q) /\
  (forall txid q,
     m_state (ann_at (after_GetRequestable peer t) txid q) = CANDIDATE ->
     m_state (ann_at t txid q) = CANDIDATE) /\
  (forall q, Check_candidates (after_GetRequestable peer t) q
             = Check_candidates t q).
Proof.
  assert (forall txid q,
            m_state (ann_at t txid q) = CANDIDATE ->
            ann_at (after_GetRequestable peer t) txid q = ann_at t txid q)
    as Hkeep.
  { intros txid q Hs. rewrite ann_at_after_GetRequestable.
    by apply GetRequestable_row_candidate. }
  assert (forall txid q,
            m_state (ann_at (after_GetRequestable peer t) txid q) = CANDIDATE ->
            m_state (ann_at t txid q) = CANDIDATE) as Hback.
  { intros txid q. rewrite ann_at_after_GetRequestable. intros Hs.
    destruct (GetRequestable_row_fades (m_now t)
                (row_at (m_announcements t) txid)) as [_ Hf].
    destruct (Hf q) as (_ & _ & _ & _ & Hst). unfold ann_at.
    destruct Hst as [?|[?|[? _]]]; congruence. }
  split_and!; try done.
  intros q. unfold Check_candidates.
  etrans; [exact (foldl_count (fun ann => m_state ann = CANDIDATE)
                    (fun txid => ann_at (after_GetRequestable peer t) txid q)
                    _ 0%nat)|].
  etrans; [|symmetry;
            exact (foldl_count (fun ann => m_state ann = CANDIDATE)
                     (fun txid => ann_at t txid q) _ 0%nat)].
  apply count_where_same. intros txid. split; [apply Hback|].
  intros Hs. by rewrite Hkeep.
Qed.

Lemma GetRequestable_keeps_candidates_witness :
  m_state (ann_at (AdvanceTime 5 one_requested) 0 0) = CANDIDATE /\
  ann_at (after_GetRequestable (H := demo_env) 1 (AdvanceTime 5 one_requested))
         0 0
  = ann_at (AdvanceTime 5 one_requested) 0 0.
Proof.
  split; [reflexivity|].
  apply (GetRequestable_keeps_candidates (H := demo_env) 1
           (AdvanceTime 5 one_requested)). reflexivity.
Defined.

(** ** [CheckAuxProofOfWork] *)

(** X17. [CheckAuxProofOfWork] accepts a header exactly when the chain id is
    right (or not enforced, or the version is a legacy one) and, without
    auxpow, the version does not announce one and the header's own hash
    passes the proof-of-work check, or, with auxpow, the version
    announces it, the auxpow commits to the header's hash and the hash of
    the parent block passes the check. So an accepted header carries an
    auxpow exactly when its version says so, and a wrong chain id is
    reported before anything else is looked at. *)
Theorem CheckAuxProofOfWork_accepts `{AuxPowEnv} (block : CBlockHeader)
    (params : ConsensusParams) :
  (CheckAuxProofOfWork block params = true <->
   (enforceStrictAuxPowChainId params = true ->
    VersionIsLegacy (nVersion block) = false ->
    VersionChainId (nVersion block) = AUXPOW_CHAIN_ID) /\
   match auxpow block with
   | None =>
       VersionHasAuxPow (nVersion block) = false /\
       CheckProofOfWork (GetPowHash block) (nBits block) params = true
   | Some aux =>
       VersionHasAuxPow (nVersion block) = true /\
       CheckAuxBlockHash aux (GetHash block)
         (VersionChainId (nVersion block)) params = true /\
       CheckProofOfWork (parentBlock_GetPowHash aux) (nBits block) params
       = true
   end) /\
  (CheckAuxProofOfWork block params = true ->
   (VersionHasAuxPow (nVersion block) = true <-> is_Some (auxpow block))) /\
  (enforceStrictAuxPowChainId params = true ->
   VersionIsLegacy (nVersion block) = false ->
   VersionChainId (nVersion block) <> AUXPOW_CHAIN_ID ->
   CheckAuxProofOfWork_error block params = Some WrongChainId).
Proof.
  unfold CheckAuxProofOfWork, CheckAuxProofOfWork_error.
  rewrite bool_decide_eq_true.
  destruct (decide (VersionChainId (nVersion block) = AUXPOW_CHAIN_ID))
    as [Hc|Hc];
    [rewrite (bool_decide_eq_true_2 _ Hc)
    |rewrite (bool_decide_eq_false_2 _ Hc)];
    destruct (enforceStrictAuxPowChainId params),
      (VersionIsLegacy (nVersion block)),
      (auxpow block) as [aux|],
      (VersionHasAuxPow (nVersion block));
    simpl;
    try destruct (CheckAuxBlockHash aux (GetHash block)
                    (VersionChainId (nVersion block)) params);
    try destruct (CheckProofOfWork (parentBlock_GetPowHash aux)
                    (nBits block) params);
    try destruct (CheckProofOfWork (GetPowHash block) (nBits block) params);
    simpl; rewrite ?is_Some_alt; intuition congruence.
Qed.

Lemma CheckAuxProofOfWork_accepts_witness :
  CheckAuxProofOfWork (H := demo_auxpow_env)
    (mkCBlockHeader demo_auxpow_env 6422787 500 (Some 1200) 1102 9999) true
  = true /\
  CheckAuxProofOfWork (H := demo_auxpow_env)
    (mkCBlockHeader demo_auxpow_env 6422787 500 None 1102 400) true = false.
Proof.
  split; [|reflexivity].
  apply (CheckAuxProofOfWork_accepts (H := demo_auxpow_env)). simpl.
  split; [intros _ _; reflexivity|]. split_and!; reflexivity.
Defined.

(** * The operations cannot fail

    On a table of [MAX_TXIDS] rows of [MAX_PEERS] announcements, and for
    indices in range, every checked access is within bounds, the queue of
    events is read and popped only when it is not empty, and the checked
    operation returns what the operation on rows computes. *)

(** A step of a computation whose first part succeeded. *)
Ltac option_step :=
  repeat (match goal with
          | |- context [mbind ?f (Some ?x)] =>
              change (mbind f (Some x)) with (f x)
          end; cbv beta).

Section in_bounds.
Context `{TrackerEnv}.

(** ** Lists altered index by index *)

Lemma foldl_alter_fmap_S {A} (f : A -> A) (x : A) (indices : list nat) :
  forall l,
    foldl (fun l i => alter f i l) (x :: l) (S <$> indices)
    = x :: foldl (fun l i => alter f i l) l indices.
Proof.
  induction indices as [| i indices IH]; intros l; [done|].
  rewrite fmap_cons. cbn [foldl]. apply IH.
Qed.

Lemma foldl_alter_seq {A} (f : A -> A) (l : list A) :
  foldl (fun l i => alter f i l) l (seq 0 (length l)) = f <$> l.
Proof.
  induction l as [| x l IH]; [done|].
  cbn [length seq]. rewrite <- fmap_S_seq. cbn [foldl].
  change (alter f 0%nat (x :: l)) with (f x :: l).
  by rewrite foldl_alter_fmap_S, IH.
Qed.

Lemma foldl_alter_row {A} (f : nat -> A -> A) (txid : nat)
    (indices : list nat) :
  forall tbl : list (list A),
    foldl (fun tbl i => alter (alter (f i) i) txid tbl) tbl indices
    = alter (fun anns => foldl (fun anns i => alter (f i) i anns) anns indices)
            txid tbl.
Proof.
  induction indices as [| i indices IH]; intros tbl.
  - simpl. symmetry. by apply list_alter_id.
  - cbn [foldl]. rewrite IH. by rewrite list_alter_alter_eq.
Qed.

Lemma alter_fixed_at {A} (f : A -> A) (i : nat) (l : list A) :
  (forall x, l !! i = Some x -> f x = x) -> alter f i l = l.
Proof.
  intros Hf. rewrite (list_alter_ext f id l l i); [|done|done].
  by apply list_alter_id.
Qed.

Lemma alter_const_insert {A} (x : A) (i : nat) (l : list A) :
  alter (fun _ => x) i l = <[i := x]> l.
Proof.
  revert i. induction l as [| y l IH]; intros [| i]; simpl; try done.
  f_equal. apply IH.
Qed.

(** ** Rows of a table with the dimensions of [m_announcements] *)

Lemma with_row_fixed txid f t :
  f (row_at (m_announcements t) txid) = row_at (m_announcements t) txid ->
  with_row txid f t = t.
Proof.
  intros Hf. unfold with_row. rewrite alter_fixed by done.
  apply set_announcements_same.
Qed.

Lemma with_row_ext txid f g t :
  f (row_at (m_announcements t) txid) = g (row_at (m_announcements t) txid) ->
  with_row txid f t = with_row txid g t.
Proof.
  intros Hfg. unfold with_row. f_equal.
  apply list_alter_ext; [|done].
  intros anns Hanns. by rewrite (row_at_lookup _ _ _ Hanns) in Hfg.
Qed.

Lemma with_row_with_row txid f g t :
  with_row txid f (with_row txid g t) = with_row txid (f ∘ g) t.
Proof.
  unfold with_row, set_announcements. simpl.
  by rewrite list_alter_alter_eq.
Qed.

Lemma row_at_with_row txid f t :
  (txid < length (m_announcements t))%nat ->
  row_at (m_announcements (with_row txid f t)) txid
  = f (row_at (m_announcements t) txid).
Proof. intros Hlt. unfold with_row. simpl. by apply row_at_alter_eq. Qed.

Lemma table_dims_lookup t txid :
  table_dims t -> (txid < MAX_TXIDS)%nat ->
  m_announcements t !! txid = Some (row_at (m_announcements t) txid) /\
  length (row_at (m_announcements t) txid) = MAX_PEERS.
Proof.
  intros [Hlen Hrows] Hlt.
  destruct (lookup_lt_is_Some_2 (m_announcements t) txid) as [anns Hanns];
    [lia|].
  rewrite (row_at_lookup _ _ _ Hanns). split; [done|].
  by apply (Forall_lookup_1 _ _ _ _ Hrows Hanns).
Qed.

Lemma table_dims_with_row txid f t :
  table_dims t -> (forall anns, length (f anns) = length anns) ->
  table_dims (with_row txid f t).
Proof.
  intros [Hlen Hrows] Hf. unfold table_dims, with_row. simpl.
  rewrite length_alter. split; [done|].
  apply Forall_alter; [done|]. intros anns _ Hanns. by rewrite Hf.
Qed.

Lemma table_dims_fmap f t :
  table_dims t -> (forall anns, length (f anns) = length anns) ->
  table_dims (set_announcements (f <$> m_announcements t) t).
Proof.
  intros [Hlen Hrows] Hf. unfold table_dims. simpl.
  rewrite length_fmap. split; [done|].
  apply Forall_fmap. eapply Forall_impl; [done|].
  intros anns Hanns. simpl. by rewrite Hf.
Qed.

Lemma table_dims_initial : table_dims initial.
Proof.
  split; [reflexivity|]. unfold initial. cbn [m_announcements].
  apply Forall_replicate. reflexivity.
Qed.

Lemma tester_inv_table_dims t : tester_inv t -> table_dims t.
Proof.
  intros [Hlen Hrows]. split; [done|].
  apply Forall_lookup_2. intros txid anns Hanns.
  assert (txid < MAX_TXIDS)%nat as Hlt
    by (rewrite <- Hlen; by eapply lookup_lt_Some).
  destruct (Hrows txid Hlt) as [Hl _].
  by rewrite (row_at_lookup _ _ _ Hanns) in Hl.
Qed.

(** ** Accesses in bounds *)

Lemma load_in_bounds t txid peer :
  table_dims t -> (txid < MAX_TXIDS)%nat -> (peer < MAX_PEERS)%nat ->
  load t txid peer = Some (ann_at t txid peer).
Proof.
  intros Hdims Htxid Hpeer.
  destruct (table_dims_lookup t txid Hdims Htxid) as [Hrow Hlen].
  unfold load, ann_at. rewrite Hrow. simpl.
  destruct (lookup_lt_is_Some_2 (row_at (m_announcements t) txid) peer)
    as [ann Hann]; [lia|].
  by rewrite Hann, (cell_lookup _ _ _ Hann).
Qed.

Lemma store_in_bounds t txid peer f :
  table_dims t -> (txid < MAX_TXIDS)%nat -> (peer < MAX_PEERS)%nat ->
  store txid peer f t = Some (with_row txid (alter f peer) t).
Proof.
  intros Hdims Htxid Hpeer. unfold store.
  by rewrite load_in_bounds.
Qed.

Lemma TXIDS_at_in_bounds txid :
  (txid < MAX_TXIDS)%nat -> TXIDS_at txid = Some (TXIDS txid).
Proof. intros Hlt. unfold TXIDS_at. by rewrite decide_True. Qed.

(** ** Loops *)

Lemma for_each_foldl indices body (upd : nat -> Tester -> Tester) :
  (forall i t, i ∈ indices -> table_dims t ->
               body i t = Some (upd i t) /\ table_dims (upd i t)) ->
  forall t, table_dims t ->
    for_each indices body t = Some (foldl (fun t i => upd i t) t indices).
Proof.
  induction indices as [| i indices IH]; intros Hbody t Hdims; [done|].
  cbn [for_each foldl].
  destruct (Hbody i t) as [-> Hdims']; [by left | done |]. simpl.
  apply IH; [|done]. intros j t' Hj. apply Hbody. by right.
Qed.

Lemma foldl_with_row (f : nat -> list Announcement -> list Announcement)
    (row : nat -> nat) (indices : list nat) :
  forall t,
    foldl (fun t i => with_row (row i) (f i) t) t indices
    = set_announcements
        (foldl (fun tbl i => alter (f i) (row i) tbl) (m_announcements t)
               indices) t.
Proof.
  induction indices as [| i indices IH]; intros t.
  - simpl. symmetry. apply set_announcements_same.
  - cbn [foldl]. by rewrite IH.
Qed.

(** A loop over the peers that applies [f] to the announcement of each. *)
Lemma for_each_peer txid body (f : Announcement -> Announcement) t :
  (forall peer t, (peer < MAX_PEERS)%nat -> table_dims t ->
                  body peer t = Some (with_row txid (alter f peer) t)) ->
  table_dims t -> (txid < MAX_TXIDS)%nat ->
  for_each (seq 0 MAX_PEERS) body t = Some (with_row txid (fmap f) t).
Proof.
  intros Hbody Hdims Htxid.
  rewrite (for_each_foldl _ _ (fun peer => with_row txid (alter f peer)));
    [|intros peer t' [_ Hpeer]%elem_of_seq Hdims'|done].
  - f_equal.
    rewrite (foldl_with_row (fun peer => alter f peer) (fun _ => txid)).
    rewrite (foldl_alter_row (fun _ => f)).
    change (set_announcements ?tbl t) with (with_row txid
      (fun anns => foldl (fun anns i => alter f i anns) anns (seq 0 MAX_PEERS))
      t) at 1.
    apply with_row_ext.
    destruct (table_dims_lookup t txid Hdims Htxid) as [_ <-].
    apply foldl_alter_seq.
  - split; [apply Hbody; [lia | done]|].
    apply table_dims_with_row; [done|]. intros anns. apply length_alter.
Qed.

(** A loop over the txids that applies [f] to the row of each. *)
Lemma for_each_txid body (f : list Announcement -> list Announcement) t :
  (forall txid t, (txid < MAX_TXIDS)%nat -> table_dims t ->
                  body txid t = Some (with_row txid f t)) ->
  (forall anns, length (f anns) = length anns) ->
  table_dims t ->
  for_each (seq 0 MAX_TXIDS) body t
  = Some (set_announcements (f <$> m_announcements t) t).
Proof.
  intros Hbody Hf Hdims.
  rewrite (for_each_foldl _ _ (fun txid => with_row txid f));
    [|intros txid t' [_ Htxid]%elem_of_seq Hdims'|done].
  - f_equal.
    rewrite (foldl_with_row (fun _ => f) (fun txid => txid)).
    f_equal. destruct Hdims as [<- _]. apply foldl_alter_seq.
  - split; [apply Hbody; [lia | done]|]. by apply table_dims_with_row.
Qed.

Lemma Cleanup_scan_checked_in_bounds txid t n : forall k all_nothing,
  table_dims t -> (txid < MAX_TXIDS)%nat -> (k + n = MAX_PEERS)%nat ->
  Cleanup_scan_checked txid (seq k n) all_nothing t
  = Some (Cleanup_scan (drop k (row_at (m_announcements t) txid))
                       all_nothing).
Proof.
  induction n as [| n IH]; intros k all_nothing Hdims Htxid Hk;
    destruct (table_dims_lookup t txid Hdims Htxid) as [Hrow Hlen].
  - simpl. by rewrite drop_ge by lia.
  - cbn [seq Cleanup_scan_checked].
    rewrite load_in_bounds by (done || lia). simpl.
    destruct (lookup_lt_is_Some_2 (row_at (m_announcements t) txid) k)
      as [ann Hann]; [lia|].
    rewrite (drop_S _ _ _ Hann). unfold ann_at.
    rewrite (cell_lookup _ _ _ Hann). cbn [Cleanup_scan].
    repeat case_bool_decide; try done; apply IH; done || lia.
Qed.

Lemma Cleanup_checked_in_bounds txid t :
  table_dims t -> (txid < MAX_TXIDS)%nat ->
  Cleanup_checked txid t = Some (Cleanup txid t).
Proof.
  intros Hdims Htxid. unfold Cleanup_checked, Cleanup.
  rewrite (Cleanup_scan_checked_in_bounds txid t MAX_PEERS 0) by done.
  rewrite drop_0. option_step.
  destruct (Cleanup_scan (row_at (m_announcements t) txid) true)
    as [[|]|] eqn:Hscan.
  - f_equal. symmetry. apply with_row_fixed.
    unfold Cleanup_row. by rewrite Hscan.
  - rewrite (for_each_peer txid _ (set_state NOTHING)); try done.
    + f_equal. apply with_row_ext. unfold Cleanup_row. by rewrite Hscan.
    + intros peer t' Hpeer Hdims'. by apply store_in_bounds.
  - f_equal. symmetry. apply with_row_fixed.
    unfold Cleanup_row. by rewrite Hscan.
Qed.

Lemma GetSelected_loop_checked_in_bounds txhash t n :
  forall k ret ret_priority,
  table_dims t -> (txhash < MAX_TXIDS)%nat -> (k + n = MAX_PEERS)%nat ->
  GetSelected_loop_checked txhash (seq k n) ret ret_priority t
  = Some (GetSelected_loop (m_now t)
            (drop k (row_at (m_announcements t) txhash)) k ret ret_priority).
Proof.
  induction n as [| n IH]; intros k ret ret_priority Hdims Htxid Hk;
    destruct (table_dims_lookup t txhash Hdims Htxid) as [Hrow Hlen].
  - simpl. by rewrite drop_ge by lia.
  - cbn [seq GetSelected_loop_checked].
    rewrite load_in_bounds by (done || lia). simpl.
    destruct (lookup_lt_is_Some_2 (row_at (m_announcements t) txhash) k)
      as [ann Hann]; [lia|].
    rewrite (drop_S _ _ _ Hann). unfold ann_at.
    rewrite (cell_lookup _ _ _ Hann). cbn [GetSelected_loop].
    destruct (bool_decide (m_state ann = REQUESTED)); [done|].
    destruct (bool_decide (m_state ann = CANDIDATE)
              && bool_decide (m_time ann <= m_now t));
      [destruct (bool_decide (ret = -1)
                 || bool_decide (m_priority ann > ret_priority))|];
      apply IH; done || lia.
Qed.

Lemma GetSelected_checked_in_bounds txhash t :
  table_dims t -> (txhash < MAX_TXIDS)%nat ->
  GetSelected_checked txhash t = Some (GetSelected txhash t).
Proof.
  intros Hdims Htxid. unfold GetSelected_checked, GetSelected, GetSelected_row.
  rewrite (GetSelected_loop_checked_in_bounds txhash t MAX_PEERS 0) by done.
  by rewrite drop_0.
Qed.

(** ** The operations *)

Lemma events_drop_past_checked_guarded now ev :
  events_drop_past_checked now ev = Some (events_drop_past now ev).
Proof.
  induction ev as [| y rest IH]; [done|].
  cbn [events_drop_past_checked events_drop_past events_top events_pop head].
  option_step. case_bool_decide; [|done]. by option_step.
Qed.

Lemma AdvanceTime_checked_guarded offset t :
  AdvanceTime_checked offset t = Some (AdvanceTime offset t).
Proof.
  unfold AdvanceTime_checked, AdvanceTime.
  by rewrite events_drop_past_checked_guarded.
Qed.

Lemma AdvanceToEvent_checked_guarded t :
  AdvanceToEvent_checked t = Some (AdvanceToEvent t).
Proof.
  unfold AdvanceToEvent_checked, AdvanceToEvent.
  rewrite events_drop_past_checked_guarded. option_step.
  by destruct (events_drop_past (m_now t) (m_events t)).
Qed.

Lemma DisconnectedPeer_checked_in_bounds peer t :
  table_dims t -> (peer < MAX_PEERS)%nat ->
  DisconnectedPeer_checked peer t = Some (DisconnectedPeer peer t).
Proof.
  intros Hdims Hpeer. unfold DisconnectedPeer_checked, DisconnectedPeer.
  apply (for_each_txid _ (DisconnectedPeer_row peer)); [| |done].
  - intros txid t' Htxid Hdims'.
    rewrite load_in_bounds by done. option_step.
    unfold ann_at. case_bool_decide as Hs.
    + rewrite store_in_bounds by done. option_step.
      rewrite Cleanup_checked_in_bounds;
        [|apply table_dims_with_row; [done | intros; apply length_alter]
         |done].
      f_equal. unfold Cleanup. rewrite with_row_with_row.
      apply with_row_ext. unfold DisconnectedPeer_row. simpl.
      by rewrite bool_decide_eq_true_2.
    + f_equal. symmetry. apply with_row_fixed.
      unfold DisconnectedPeer_row.
      by rewrite bool_decide_eq_false_2 by (intros Hne; by apply Hne).
  - intros anns. unfold DisconnectedPeer_row. case_bool_decide; [|done].
    by rewrite length_Cleanup_row, length_alter.
Qed.

Lemma ForgetTxId_checked_in_bounds txid t :
  table_dims t -> (txid < MAX_TXIDS)%nat ->
  ForgetTxId_checked txid t = Some (ForgetTxId txid t).
Proof.
  intros Hdims Htxid. unfold ForgetTxId_checked, ForgetTxId.
  rewrite (for_each_peer txid _ (set_state NOTHING)); try done;
    [|intros peer t' Hpeer Hdims'; by apply store_in_bounds].
  option_step.
  rewrite Cleanup_checked_in_bounds;
    [|apply table_dims_with_row; [done | intros; apply length_fmap]|done].
  option_step. rewrite TXIDS_at_in_bounds by done. option_step.
  f_equal. unfold Cleanup. by rewrite with_row_with_row.
Qed.

Lemma ReceivedInv_checked_in_bounds peer txid is_wtxid preferred reqtime t :
  table_dims t -> (peer < MAX_PEERS)%nat -> (txid < MAX_TXIDS)%nat ->
  ReceivedInv_checked peer txid is_wtxid preferred reqtime t
  = Some (ReceivedInv peer txid is_wtxid preferred reqtime t).
Proof.
  intros Hdims Hpeer Htxid. unfold ReceivedInv_checked, ReceivedInv.
  rewrite load_in_bounds by done. option_step.
  rewrite TXIDS_at_in_bounds by done.
  case_bool_decide as Hs; option_step; [|done].
  rewrite store_in_bounds by done. option_step.
  f_equal. unfold with_row. cbn [m_announcements set_announcements].
  f_equal. apply list_alter_ext; [|done].
  intros anns _. apply alter_const_insert.
Qed.

Lemma RequestedTx_checked_in_bounds peer txid exptime t :
  table_dims t -> (peer < MAX_PEERS)%nat -> (txid < MAX_TXIDS)%nat ->
  RequestedTx_checked peer txid exptime t
  = Some (RequestedTx peer txid exptime t).
Proof.
  intros Hdims Hpeer Htxid. unfold RequestedTx_checked, RequestedTx.
  rewrite load_in_bounds by done. option_step.
  rewrite TXIDS_at_in_bounds by done.
  case_bool_decide as Hs; option_step; [|done].
  rewrite (for_each_peer txid _ expire_requested); try done.
  - option_step.
    assert (table_dims (with_row txid (fmap expire_requested) t)) as Hdims1
      by (apply table_dims_with_row; [done | intros; apply length_fmap]).
    rewrite store_in_bounds by done. option_step.
    rewrite store_in_bounds;
      [|apply table_dims_with_row; [done | intros; apply length_alter]
       |done|done].
    option_step. rewrite !with_row_with_row.
    assert (with_row txid
              (alter (set_time exptime) peer
               ∘ alter (set_state REQUESTED) peer ∘ fmap expire_requested) t
            = with_row txid (RequestedTx_row peer exptime) t) as ->; [|done].
    apply with_row_ext. unfold RequestedTx_row. simpl.
    by rewrite list_alter_alter_eq.
  - intros peer2 t' Hpeer2 Hdims'.
    rewrite load_in_bounds by done. option_step.
    case_bool_decide as Hs2.
    + rewrite store_in_bounds by done. f_equal.
      apply with_row_ext. apply list_alter_ext; [|done].
      intros ann Hann. unfold expire_requested.
      unfold ann_at in Hs2. rewrite (cell_lookup _ _ _ Hann) in Hs2.
      by rewrite bool_decide_eq_true_2.
    + f_equal. symmetry. apply with_row_fixed.
      apply alter_fixed_at. intros ann Hann. unfold expire_requested.
      unfold ann_at in Hs2. rewrite (cell_lookup _ _ _ Hann) in Hs2.
      by rewrite bool_decide_eq_false_2.
Qed.

Lemma ReceivedResponse_checked_in_bounds peer txid t :
  table_dims t -> (peer < MAX_PEERS)%nat -> (txid < MAX_TXIDS)%nat ->
  ReceivedResponse_checked peer txid t = Some (ReceivedResponse peer txid t).
Proof.
  intros Hdims Hpeer Htxid. unfold ReceivedResponse_checked, ReceivedResponse.
  rewrite load_in_bounds by done. option_step.
  rewrite TXIDS_at_in_bounds by done.
  case_bool_decide as Hs; option_step; [|done].
  rewrite store_in_bounds by done. option_step.
  rewrite Cleanup_checked_in_bounds;
    [|apply table_dims_with_row; [done | intros; apply length_alter]|done].
  option_step. f_equal. unfold Cleanup. by rewrite with_row_with_row.
Qed.

(** ** [GetRequestable] *)

Lemma alter_take_drop {A} (f : A -> A) (i : nat) (l : list A) (x : A) :
  l !! i = Some x -> alter f i l = take i l ++ f x :: drop (S i) l.
Proof.
  revert i. induction l as [| y l IH]; intros [| i] Hx; simplify_eq/=;
    [done|].
  f_equal. by apply IH.
Qed.

Lemma length_expire_row now peer2 anns :
  length (expire_row now peer2 anns).1 = length anns.
Proof. by destruct (expire_row_fades now peer2 anns) as [-> _]. Qed.

Lemma length_GetRequestable_row now anns :
  length (GetRequestable_row now anns) = length anns.
Proof. by destruct (GetRequestable_row_fades now anns) as [-> _]. Qed.

Lemma expire_checked_in_bounds txid t n : forall k,
  table_dims t -> (txid < MAX_TXIDS)%nat -> (k + n = MAX_PEERS)%nat ->
  expire_checked txid (seq k n) t
  = Some (with_row txid
            (fun anns =>
               take k anns ++ (expire_row (m_now t) k (drop k anns)).1) t,
          (expire_row (m_now t) k
                      (drop k (row_at (m_announcements t) txid))).2).
Proof.
  induction n as [| n IH]; intros k Hdims Htxid Hk;
    destruct (table_dims_lookup t txid Hdims Htxid) as [Hrow Hlen].
  - cbn [seq expire_checked]. rewrite drop_ge by lia. f_equal. f_equal.
    symmetry. apply with_row_fixed.
    rewrite drop_ge by lia. cbn [expire_row fst].
    by rewrite app_nil_r, take_ge by lia.
  - cbn [seq expire_checked].
    rewrite load_in_bounds by (done || lia). option_step.
    destruct (lookup_lt_is_Some_2 (row_at (m_announcements t) txid) k)
      as [ann Hann]; [lia|].
    unfold ann_at. rewrite (cell_lookup _ _ _ Hann).
    rewrite (drop_S _ _ _ Hann). cbn [expire_row].
    destruct (bool_decide (m_state ann = REQUESTED)
              && bool_decide (m_time ann <= m_now t)) eqn:Hoverdue.
    + rewrite TXIDS_at_in_bounds by done. option_step.
      rewrite store_in_bounds by (done || lia). option_step.
      cbn [snd]. f_equal. f_equal. apply with_row_ext.
      rewrite (drop_S _ _ _ Hann). cbn [expire_row]. rewrite Hoverdue.
      cbn [fst]. by apply alter_take_drop.
    + rewrite IH by (done || lia). f_equal.
      destruct (expire_row (m_now t) (S k)
                  (drop (S k) (row_at (m_announcements t) txid)))
        as [rest' e] eqn:Hrest.
      cbn [snd]. f_equal. apply with_row_ext.
      rewrite (drop_S _ _ _ Hann). cbn [expire_row].
      rewrite Hoverdue, Hrest. cbn [fst].
      rewrite (take_S_r _ _ _ Hann). by rewrite <- app_assoc.
Qed.

(** One iteration of the outer loop. *)
Lemma GetRequestable_loop_checked_cons peer txid txids t result
    expected_expired :
  table_dims t -> (peer < MAX_PEERS)%nat -> (txid < MAX_TXIDS)%nat ->
  GetRequestable_loop_checked peer (txid :: txids) t result expected_expired
  = GetRequestable_loop_checked peer txids
      (with_row txid (GetRequestable_row (m_now t)) t)
      (result ++ result_of_row (m_now t) peer txid
                   (row_at (m_announcements t) txid))
      (expected_expired ++ expired_of_row (m_now t) txid
                             (row_at (m_announcements t) txid)).
Proof.
  intros Hdims Hpeer Htxid.
  destruct (table_dims_lookup t txid Hdims Htxid) as [Hrow Hlen].
  assert (txid < length (m_announcements t))%nat as Hlt
    by (by eapply lookup_lt_Some).
  cbn [GetRequestable_loop_checked].
  rewrite (expire_checked_in_bounds txid t MAX_PEERS 0) by done.
  option_step. cbv beta iota.
  change (fun anns : list Announcement =>
            take 0 anns ++ (expire_row (m_now t) 0 (drop 0 anns)).1)
    with (fun anns : list Announcement => (expire_row (m_now t) 0 anns).1).
  change (drop 0 (row_at (m_announcements t) txid))
    with (row_at (m_announcements t) txid).
  rewrite Cleanup_checked_in_bounds;
    [|apply table_dims_with_row; [done | intros; apply length_expire_row]
     |done].
  option_step. unfold Cleanup. rewrite with_row_with_row.
  change (Cleanup_row ∘ _) with (GetRequestable_row (m_now t)).
  assert (table_dims (with_row txid (GetRequestable_row (m_now t)) t))
    as Hdims2
    by (apply table_dims_with_row;
        [done | intros; apply length_GetRequestable_row]).
  rewrite load_in_bounds by done. option_step.
  rewrite GetSelected_checked_in_bounds by done.
  unfold GetSelected, ann_at. rewrite row_at_with_row by done.
  change (m_now (with_row txid (GetRequestable_row (m_now t)) t))
    with (m_now t).
  unfold result_of_row, expired_of_row.
  set (ann := cell (GetRequestable_row (m_now t)
                      (row_at (m_announcements t) txid)) peer).
  destruct (bool_decide (m_state ann = CANDIDATE)); option_step;
    [destruct (bool_decide _)|]; option_step; cbn [andb];
    by rewrite ?app_nil_r.
Qed.

Lemma GetRequestable_loop_checked_in_bounds peer n :
  forall k t result expected_expired,
  table_dims t -> (peer < MAX_PEERS)%nat -> (k + n = MAX_TXIDS)%nat ->
  GetRequestable_loop_checked peer (seq k n) t result expected_expired
  = Some (set_announcements
            (take k (m_announcements t)
             ++ (GetRequestable_loop (m_now t) peer k
                   (drop k (m_announcements t))).1.1) t,
          result ++ (GetRequestable_loop (m_now t) peer k
                       (drop k (m_announcements t))).1.2,
          expected_expired ++ (GetRequestable_loop (m_now t) peer k
                                 (drop k (m_announcements t))).2).
Proof.
  induction n as [| n IH]; intros k t result expected_expired Hdims Hpeer Hk.
  - destruct Hdims as [Hlen _]. cbn [seq GetRequestable_loop_checked].
    rewrite drop_ge by lia. cbn [GetRequestable_loop fst snd].
    rewrite !app_nil_r, take_ge by lia.
    by rewrite set_announcements_same.
  - cbn [seq].
    rewrite GetRequestable_loop_checked_cons by (done || lia).
    destruct (table_dims_lookup t k Hdims ltac:(lia)) as [Hrow Hlen].
    rewrite IH;
      [|apply table_dims_with_row;
        [done | intros; apply length_GetRequestable_row]
       |done|lia].
    change (m_now (with_row k (GetRequestable_row (m_now t)) t))
      with (m_now t).
    change (m_announcements (with_row k (GetRequestable_row (m_now t)) t))
      with (alter (GetRequestable_row (m_now t)) k (m_announcements t)).
    rewrite (drop_S _ _ _ Hrow), GetRequestable_loop_cons. cbn [fst snd].
    rewrite drop_alter_lt by lia.
    rewrite (take_S_r _ _ (GetRequestable_row (m_now t)
                             (row_at (m_announcements t) k)))
      by (by rewrite list_lookup_alter_eq, Hrow).
    rewrite take_alter_ge by lia.
    by rewrite <- !app_assoc.
Qed.

Lemma GetRequestable_checked_in_bounds peer t :
  table_dims t -> (peer < MAX_PEERS)%nat ->
  GetRequestable_checked peer t = Some (GetRequestable peer t).
Proof.
  intros Hdims Hpeer. unfold GetRequestable_checked, GetRequestable.
  rewrite (GetRequestable_loop_checked_in_bounds peer MAX_TXIDS 0) by done.
  option_step. cbv beta iota. rewrite drop_0. cbn [take app].
  by destruct (GetRequestable_loop (m_now t) peer 0 (m_announcements t))
    as [[rows result] expected_expired].
Qed.

(** ** Instructions *)

Lemma step_checked_in_bounds c t :
  table_dims t -> in_range c -> step_checked c t = Some (step c t).
Proof.
  intros Hdims Hrange. destruct c; simpl in Hrange; cbn [step_checked step].
  - apply AdvanceToEvent_checked_guarded.
  - apply AdvanceTime_checked_guarded.
  - by rewrite GetRequestable_checked_in_bounds.
  - by apply DisconnectedPeer_checked_in_bounds.
  - by apply ForgetTxId_checked_in_bounds.
  - destruct Hrange. by apply ReceivedInv_checked_in_bounds.
  - destruct Hrange. by apply RequestedTx_checked_in_bounds.
  - destruct Hrange. by apply ReceivedResponse_checked_in_bounds.
Qed.

End in_bounds.

(** C9. No operation of the tester can fail. With every access to
    [m_announcements] and [TXIDS] checked against the bounds of the
    arrays, and every [top] and [pop] of [m_events] against the empty
    queue, every instruction the driver can decode runs to its end on
    every reachable state: no access is out of bounds or to an empty
    queue, the tester it leaves is the one the operation computes on the
    rows, and that tester is reachable again; [GetRequestable] also
    returns its two vectors. In particular [ReceivedResponse] for a (peer, txid) with no announcement
    returns normally with the tester it was given: all announcements, the
    sequence counter, the events and the time are unchanged, and so is
    every counter. *)
Theorem no_operation_fails `{TrackerEnv} t :
  reachable t ->
  (forall c, in_range c ->
     step_checked c t = Some (step c t) /\ reachable (step c t)) /\
  (forall peer, (peer < MAX_PEERS)%nat ->
     GetRequestable_checked peer t = Some (GetRequestable peer t)) /\
  (forall peer txid,
     (peer < MAX_PEERS)%nat -> (txid < MAX_TXIDS)%nat ->
     m_state (ann_at t txid peer) = NOTHING ->
     exists t',
       ReceivedResponse_checked peer txid t = Some t' /\ t' = t /\
       m_current_sequence t' = m_current_sequence t /\
       Size t' = Size t /\
       forall p, Count t' p = Count t p /\
                 CountInFlight t' p = CountInFlight t p /\
                 CountCandidates t' p = CountCandidates t p).
Proof.
  intros Hreach.
  assert (table_dims t) as Hdims
    by (by apply tester_inv_table_dims, reachable_inv).
  split_and!.
  - intros c Hrange. split; [by apply step_checked_in_bounds|].
    by constructor.
  - intros peer Hpeer. by apply GetRequestable_checked_in_bounds.
  - intros peer txid Hpeer Htxid Hs. exists t.
    rewrite ReceivedResponse_checked_in_bounds by done.
    by rewrite ReceivedResponse_unknown.
Qed.

Lemma no_operation_fails_witness :
  reachable (H := demo_env) two_candidates /\
  step_checked (H := demo_env) (CallRequestedTx 1 0 244466671) two_candidates
  = Some one_requested /\
  ReceivedResponse_checked (H := demo_env) 5 0 two_candidates
  = Some two_candidates.
Proof.
  destruct (no_operation_fails (H := demo_env) two_candidates
              reachable_two_candidates) as (Hstep & _ & Hresp).
  split; [apply reachable_two_candidates|]. split.
  - apply (Hstep (CallRequestedTx 1 0 244466671)).
    simpl. unfold MAX_PEERS, MAX_TXIDS. lia.
  - destruct (Hresp 5%nat 0%nat) as (t' & -> & -> & _);
      [unfold MAX_PEERS; lia | unfold MAX_TXIDS; lia | reflexivity |].
    reflexivity.
Defined.

(** The checks are not vacuous: an index outside the table makes the
    access, and with it the operation, fail, and so does [pop] on an
    empty queue. *)
Lemma checked_accesses_can_fail :
  ReceivedResponse_checked (H := demo_env) MAX_PEERS 0 initial = None /\
  ReceivedResponse_checked (H := demo_env) 0 MAX_TXIDS initial = None /\
  step_checked (H := demo_env) (CallGetRequestable 0)
               (set_announcements [] initial) = None /\
  events_pop [] = None.
Proof. by vm_compute. Qed.
